(** * TileStache static maps: cache, lock and projection

    A shallow embedding of

    - [TileStache/Goodies/Providers/StaticMap.py]  (projection, [StaticMaps]),
    - [TileStache/Goodies/Caches/StaticMapCache.py] (the [Disk] cache),
    - [TileStache/Goodies/StaticMapServer.py]       ([getStaticMap], the WSGI
      entry point),

    followed by the properties of the render-cache protocol.

    Conventions.  A Python 2 [str] is a [string] (a sequence of 8-bit
    characters), a Python [int] is a [Z].  A Python [float] that is only
    added, multiplied, compared or truncated (coordinates of the cache key,
    clock readings, file ages) is a rational [Q] with exact arithmetic; the
    projection functions [ll2px] and [px2ll], which go through [sin], [log],
    [atan] and [exp], are studied over the real numbers in [Module
    Projection].  Binary64 rounding is not modelled.  Code that raises returns
    in a sum [exn + A]; code that touches the file system or the clock runs in
    the state-and-exception monad [M] over an explicit [World]. *)

From Stdlib Require Import ZArith QArith Qround Qpower Reals Psatz Lia.
From Stdlib Require Import String Ascii List DecimalString.
From stdpp Require Import gmap strings list.
Import ListNotations.

Set Default Proof Using "Type".

(* ===================================================================== *)
(** * Python values                                                        *)
(* ===================================================================== *)

(** Exceptions that the modelled code raises or lets through. *)
Inductive exn : Type :=
| AttributeError (msg : string)
| UnboundLocalError (var : string)
| ValueError (msg : string)
| ZeroDivisionError (msg : string)
| AssertionError (msg : string)
| KeyError (key : string)
| OSError (errno : Z)
| IOError (errno : Z)
| KnownUnknown (msg : string)
| RenderError (msg : string).

(** [errno] values used by the source or by the file-system model. *)
Definition ENOENT : Z := 2.
Definition EEXIST : Z := 17.
Definition ENOTDIR : Z := 20.
Definition EISDIR : Z := 21.
Definition ENOTEMPTY : Z := 39.

Definition result (A : Type) : Type := exn + A.

Module PyStr.

(** [str(n)] and ['%d' % n] for an integer [n]. *)
Definition str (n : Z) : string := NilZero.string_of_int (Z.to_int n).

(** [s.lower()] on 8-bit strings: only [A]..[Z] change. *)
Definition lower_ascii (c : ascii) : ascii :=
  let n := nat_of_ascii c in
  if (65 <=? n)%nat && (n <=? 90)%nat then ascii_of_nat (n + 32) else c.

Fixpoint lower (s : string) : string :=
  match s with
  | EmptyString => EmptyString
  | String c r => String (lower_ascii c) (lower r)
  end.

(** [s.replace(a, b)] for one-character [a] and [b]. *)
Fixpoint replace (a b : ascii) (s : string) : string :=
  match s with
  | EmptyString => EmptyString
  | String c r => String (if Ascii.eqb c a then b else c) (replace a b r)
  end.

(** [s.startswith(p)]. *)
Definition startswith (p s : string) : bool := String.prefix p s.

(** [(p[:i], p[i:])] for [i = p.rfind('/') + 1]. *)
Fixpoint rsplit_sep (p : string) : string * string :=
  match p with
  | EmptyString => (EmptyString, EmptyString)
  | String c r =>
      let '(h, t) := rsplit_sep r in
      match h with
      | EmptyString =>
          if Ascii.eqb c "/" then (String c EmptyString, r)
          else (EmptyString, String c r)
      | _ => (String c h, t)
      end
  end.

Fixpoint all_sep (s : string) : bool :=
  match s with
  | EmptyString => true
  | String c r => Ascii.eqb c "/" && all_sep r
  end.

(** [s.rstrip('/')]. *)
Fixpoint rstrip_sep (s : string) : string :=
  match s with
  | EmptyString => EmptyString
  | String c r =>
      match rstrip_sep r with
      | EmptyString => if Ascii.eqb c "/" then EmptyString else String c EmptyString
      | r' => String c r'
      end
  end.

(** [posixpath.split]. *)
Definition split (p : string) : string * string :=
  let '(head, tail) := rsplit_sep p in
  let head :=
    match head with
    | EmptyString => head
    | _ => if all_sep head then head else rstrip_sep head
    end in
  (head, tail).

(** [os.path.basename] and [os.path.dirname]. *)
Definition basename (p : string) : string := snd (rsplit_sep p).
Definition dirname (p : string) : string := fst (split p).

(** [os.sep.join(parts)], with [os.sep = '/']. *)
Definition sep_join (parts : list string) : string := String.concat "/" parts.

Fixpoint endswith_sep (s : string) : bool :=
  match s with
  | EmptyString => false
  | String c EmptyString => Ascii.eqb c "/"
  | String _ r => endswith_sep r
  end.

(** [os.path.join(a, b)] (two arguments). *)
Definition pathjoin (a b : string) : string :=
  if startswith "/" b then b
  else match a with
       | EmptyString => b
       | _ => if endswith_sep a then a +:+ b else a +:+ "/" +:+ b
       end.

End PyStr.

(** [int(x)] for a float [x]: truncation toward zero. *)
Definition int_of_float (x : Q) : Z := Z.quot (Qnum x) (Zpos (Qden x)).

(** [x < y] on floats. *)
Definition Qltb (x y : Q) : bool := negb (Qle_bool y x).

(** [float(n)] for an integer [n]. *)
Definition float_of_int (n : Z) : Q := inject_Z n.

(* ===================================================================== *)
(** * Providers/StaticMap.py: the data model                               *)
(* ===================================================================== *)

(** [class _Loc]: local duck for (lat, lon) points. *)
Record _Loc : Type := mk_Loc { lat : Q; lon : Q }.

(** [class _Marker]. *)
Record _Marker : Type := mk_Marker { marker_center : _Loc; icon : string }.

(** [class _Path]; [_Path()] starts with [color="F00"], [weight=1], no
    center and an empty polygon. *)
Record _Path : Type := mk_Path {
  path_center : option _Loc;
  color : string;
  weight : Z;
  polygon : list _Loc
}.

(** [class StaticMaps]; [None] fields are [None] here. *)
Record StaticMaps : Type := mkStaticMaps {
  width : Z;
  height : Z;
  zoom : Z;
  center : option _Loc;
  marker : option _Marker;
  path : option _Path
}.

(** [ModestMaps.Core.Coordinate(row, column, zoom)]: three numbers. *)
Record Coordinate : Type := mkCoordinate { row : Q; column : Q; coord_zoom : Z }.

(** A rendered image (a PIL image in the source): all the code does with it
    is [tile.save(buff, format, **save_kwargs)] followed by
    [buff.getvalue()], which yields the encoded bytes or raises. *)
Definition options : Type := list (string * string).
Record Tile : Type := mkTile { tile_save : string -> options -> result string }.

(** What [layer.render(coord, format)] can do: return a tile, raise
    [Core.NoTileLeftBehind] carrying a tile ([e.tile]), or raise anything
    else. *)
Inductive render_outcome : Type :=
| Rendered (tile : Tile)
| NoTileLeftBehind (tile : Tile)
| RenderRaises (e : exn).

(** [class Disk] of Caches/StaticMapCache.py: its two attributes.  The
    methods are in [Module Disk] below. *)
Record Disk : Type := mkDisk { cachepath : string; umask : Z }.

(** What the code reads of a [TileStache.Core.Layer] (that class is not part
    of these sources): attributes and methods become fields. *)
Record Layer : Type := mkLayer {
  layer_name : string;                       (* layer.name() *)
  cache : Disk;                              (* layer.config.cache *)
  staticmap : StaticMaps;                    (* layer.staticmap *)
  cache_lifespan : option Z;                 (* seconds; None or 0: never expire *)
  stale_lock_timeout : Z;                    (* seconds *)
  write_cache : bool;
  getTypeByExtension : string -> result (string * string);
  render : Coordinate -> string -> render_outcome;
  jpeg_options : options;
  png_options : options;
  allowed_origin : option string;
  max_cache_age : option Z;
  has_renderStaticMap : bool                 (* hasattr(provider, 'renderStaticMap') *)
}.

(** Attribute access [center.lon] / [center.lat] on a possibly-[None]
    center. *)
Definition center_attr (attr : string) (f : _Loc -> Q) (c : option _Loc) : result Q :=
  match c with
  | Some l => inr (f l)
  | None => inl (AttributeError ("'NoneType' object has no attribute '" +:+ attr +:+ "'"))
  end.

(* ===================================================================== *)
(** * Providers/StaticMap.py: projection                                   *)
(* ===================================================================== *)

(** [ll2px] and [px2ll] over the real numbers: [math.sin], [math.log],
    [math.atan], [math.exp] and [math.pi] are [sin], [ln], [atan], [exp] and
    [PI]; the tables hold the decimal constants of the source. *)
Module Projection.

Local Open Scope R_scope.

Definition CBK : list Z :=
  [128; 256; 512; 1024; 2048; 4096; 8192; 16384; 32768; 65536; 131072;
   262144; 524288; 1048576; 2097152; 4194304; 8388608; 16777216; 33554432;
   67108864; 134217728; 268435456; 536870912; 1073741824; 2147483648;
   4294967296; 8589934592; 17179869184; 34359738368; 68719476736;
   137438953472]%Z.

Definition CEK : list R :=
  [0.7111111111111111; 1.4222222222222223; 2.8444444444444446;
   5.688888888888889; 11.377777777777778; 22.755555555555556;
   45.51111111111111; 91.02222222222223; 182.04444444444445;
   364.0888888888889; 728.1777777777778; 1456.3555555555556;
   2912.711111111111; 5825.422222222222; 11650.844444444445;
   23301.68888888889; 46603.37777777778; 93206.75555555556;
   186413.51111111112; 372827.02222222224; 745654.0444444445;
   1491308.088888889; 2982616.177777778; 5965232.355555556;
   11930464.711111112; 23860929.422222223; 47721858.844444446;
   95443717.68888889; 190887435.37777779; 381774870.75555557;
   763549741.5111111].

Definition CFK : list R :=
  [40.74366543152521; 81.48733086305042; 162.97466172610083;
   325.94932345220167; 651.8986469044033; 1303.7972938088067;
   2607.5945876176133; 5215.189175235227; 10430.378350470453;
   20860.756700940907; 41721.51340188181; 83443.02680376363;
   166886.05360752725; 333772.1072150545; 667544.214430109;
   1335088.428860218; 2670176.857720436; 5340353.715440872;
   10680707.430881744; 21361414.86176349; 42722829.72352698;
   85445659.44705395; 170891318.8941079; 341782637.7882158;
   683565275.5764316; 1367130551.1528633; 2734261102.3057265;
   5468522204.611453; 10937044409.222906; 21874088818.445812;
   43748177636.891624].

(** [table[zoom]] for [0 <= zoom <= 30]. *)
Definition index {A} (table : list A) (zoom : Z) (d : A) : A :=
  nth (Z.to_nat zoom) table d.

(** [int(round(x))]: Python 2 rounds to the nearest integer, halves away
    from zero. *)
Definition int_round (x : R) : Z :=
  if Rle_dec 0 x then Int_part (x + / 2) else (- Int_part (- x + / 2))%Z.

Definition zoom_ok (zoom : Z) : bool := (0 <=? zoom)%Z && (zoom <=? 30)%Z.

(** [ll2px(lat, lng, zoom)]: given two floats and an int, return a 2-tuple
    of ints. *)
Definition ll2px (lat lng : R) (zoom : Z) : result (Z * Z) :=
  if negb (zoom_ok zoom) then inl (AssertionError "zoom must be an int from 0 to 30")
  else
    let cbk := index CBK zoom 0%Z in
    let x := int_round (IZR cbk + lng * index CEK zoom 0) in
    let foo := sin (lat * PI / 180) in
    let foo :=
      if Rlt_dec foo (-0.9999) then -0.9999
      else if Rlt_dec 0.9999 foo then 0.9999
      else foo in
    let y := int_round (IZR cbk + 0.5 * ln ((1 + foo) / (1 - foo)) * - index CFK zoom 0) in
    inr (x, y).

(** [px2ll(x, y, zoom)]: given three ints, return a 2-tuple of floats. *)
Definition px2ll (x y : Z) (zoom : Z) : result (R * R) :=
  if negb (zoom_ok zoom) then inl (AssertionError "zoom must be an int from 0 to 30")
  else
    let foo := index CBK zoom 0%Z in
    let lng := IZR (x - foo) / index CEK zoom 0 in
    let bar := IZR (y - foo) / - index CFK zoom 0 in
    let blam := 2 * atan (exp bar) - PI / 2 in
    let lat := blam / (PI / 180) in
    inr (lat, lng).

End Projection.

(* ===================================================================== *)
(** * Providers/StaticMap.py: class StaticMaps                             *)
(* ===================================================================== *)

(** [math.pi], the binary64 number 3.141592653589793, as the rational it
    is. *)
Definition math_pi : Q := 884279719003555 # 281474976710656.

(** [int(math.log(x, 2))] for a float [x > 0]: the base-2 logarithm cut
    toward zero.  For [x >= 1] it is the position of the leading bit of the
    integer part; for [x < 1] it is minus that of [1 / x]. *)
Definition int_log2 (x : Q) : Z :=
  if Qle_bool 1 x then Z.log2 (Qfloor x) else (- Z.log2 (Qfloor (/ x)))%Z.

(** [int(math.log(x, 2))] with the errors of [math.log]. *)
Definition math_log2_int (x : Q) : result Z :=
  if Qltb 0 x then inr (int_log2 x) else inl (ValueError "math domain error").

(** [min(l)] and [max(l)] of a list of floats: the running extremum is
    replaced by a strictly smaller (larger) item. *)
Definition min_step (cur item : Q) : Q := if Qltb item cur then item else cur.
Definition max_step (cur item : Q) : Q := if Qltb cur item then item else cur.

Definition list_min (l : list Q) : result Q :=
  match l with
  | [] => inl (ValueError "min() arg is an empty sequence")
  | x :: r => inr (fold_left min_step r x)
  end.
Definition list_max (l : list Q) : result Q :=
  match l with
  | [] => inl (ValueError "max() arg is an empty sequence")
  | x :: r => inr (fold_left max_step r x)
  end.

(** Float division by an [int]. *)
Definition float_div (a : Q) (b : Z) : result Q :=
  if (b =? 0)%Z then inl (ZeroDivisionError "float division by zero")
  else inr (a / inject_Z b)%Q.

Module StaticMaps.

(** [StaticMaps.__init__(width, height, zoom)]. *)
Definition __init__ (width height zoom : Z) : StaticMaps :=
  mkStaticMaps width height zoom None None None.

Definition getSize (self : StaticMaps) : Z * Z := (width self, height self).

(** [StaticMaps.getCoord]. *)
Definition getCoord (self : StaticMaps) : result Coordinate :=
  match center_attr "lat" lat (center self) with
  | inl err => inl err
  | inr clat =>
    match center_attr "lon" lon (center self) with
    | inl err => inl err
    | inr clon => inr (mkCoordinate clat clon (zoom self))
    end
  end.

(** [_Path.addLoc], applied to every point in turn. *)
Definition addLoc (self : _Path) (lat lon : Q) : _Path :=
  let p := mk_Loc lat lon in
  mk_Path (Some p) (color self) (weight self) (polygon self ++ [p]).

Definition merc_radius : Q := 85445659.44705395.

(** [StaticMaps.addPath(path)], for [path['points']] already converted to
    floats. *)
Definition addPath (self : StaticMaps) (points : list (Q * Q)) : result StaticMaps :=
  let path0 := mk_Path None "F00" 1 [] in
  let path1 := fold_left (fun pa p => addLoc pa (fst p) (snd p)) points path0 in
  match list_min (map fst points) with inl err => inl err | inr minLat =>
  match list_max (map fst points) with inl err => inl err | inr maxLat =>
  match list_min (map snd points) with inl err => inl err | inr minLon =>
  match list_max (map snd points) with inl err => inl err | inr maxLon =>
    let center := mk_Loc ((minLat + maxLat) / 2) ((minLon + maxLon) / 2) in
    (* Calculate the zoom level *)
    match float_div ((maxLat - minLat) * merc_radius * math_pi) (180 * height self) with
    | inl err => inl err
    | inr x =>
      match math_log2_int x with inl err => inl err | inr lx =>
      let zoomLon := (21 - lx)%Z in
      match float_div ((maxLon - minLon) * merc_radius * math_pi) (180 * width self) with
      | inl err => inl err
      | inr y =>
        match math_log2_int y with inl err => inl err | inr ly =>
        let zoomLat := (21 - ly)%Z in
        inr (mkStaticMaps (width self) (height self) (Z.min zoomLat zoomLon - 180)
                          (Some center) (marker self) (Some path1))
        end
      end
      end
    end
  end end end end.

Section Marker.

(** [ll2px] and [px2ll] as they run on floats: [Projection] gives their
    real-number reading, the binary64 values they return are taken as
    given here. *)
Variable ll2px : Q -> Q -> Z -> result (Z * Z).
Variable px2ll : Z -> Z -> Z -> result (Q * Q).

(** [StaticMaps.addMarker(lat, lon, icon)]: move the center latitude
    some pixels down, to match with the middle-bottom point of the
    icon. *)
Definition addMarker (self : StaticMaps) (lat lon : Q) (icon : string)
  : result StaticMaps :=
  match ll2px lat lon (zoom self) with
  | inl err => inl err
  | inr (x, y) =>
    match px2ll x (y - 22) (zoom self) with
    | inl err => inl err
    | inr (_lat, _lon) =>
        inr (mkStaticMaps (width self) (height self) (zoom self)
                          (Some (mk_Loc _lat lon))
                          (Some (mk_Marker (mk_Loc _lat lon) icon))
                          (path self))
    end
  end.

End Marker.

End StaticMaps.

(* ===================================================================== *)
(** * The world: file system, clock, trace                                 *)
(* ===================================================================== *)

(** A file-system entry.  [mtime] is the clock reading at the last change;
    for a directory that nobody writes into it is its creation time. *)
Inductive node : Type :=
| File (data : string) (mode : Z) (mtime : Q)
| Dir (mode : Z) (mtime : Q).

Definition node_mtime (n : node) : Q :=
  match n with File _ _ t => t | Dir _ t => t end.

(** The calls to [os], [time] and [tempfile] that change the world. *)
Inductive syscall : Type :=
| Umask (mask : Z)
| Rmdir (p : string)
| Makedirs (p : string) (mode : Z)
| Sleep (secs : Q)
| Mkstemp (dir suffix : string)
| Write (fd : Z) (data : string)
| Close (fd : Z)
| Rename (src dst : string)
| Unlink (p : string)
| Remove (p : string)
| Chmod (p : string) (mode : Z).

Inductive method : Type := MRead | MLock | MUnlock | MSave | MRemove.

(** What the trace records: system calls, the calls of cache methods (with
    the static map and format they are given) and the calls of the
    renderer. *)
Inductive event : Type :=
| Sys (c : syscall)
| CacheCall (m : method) (staticmap : StaticMaps) (format : string)
| RenderCall (coord : Coordinate) (format : string).

Record World : Type := mkWorld {
  fs : gmap string node;        (* path |-> entry *)
  fds : gmap Z string;          (* open file descriptor |-> path *)
  next_fd : Z;
  clock : Q;                    (* what time.time() returns, in seconds *)
  proc_umask : Z;               (* the process umask *)
  rename_replaces : bool;       (* os.rename replaces an existing file (POSIX)
                                   or refuses to (Windows) *)
  tmp_names : nat -> string;    (* the candidate names of tempfile *)
  tmp_pos : nat;
  trace : list event
}.

Definition set_fs (f : gmap string node) (w : World) : World :=
  mkWorld f (fds w) (next_fd w) (clock w) (proc_umask w) (rename_replaces w)
          (tmp_names w) (tmp_pos w) (trace w).
Definition set_fds (d : gmap Z string) (n : Z) (w : World) : World :=
  mkWorld (fs w) d n (clock w) (proc_umask w) (rename_replaces w)
          (tmp_names w) (tmp_pos w) (trace w).
Definition set_clock (t : Q) (w : World) : World :=
  mkWorld (fs w) (fds w) (next_fd w) t (proc_umask w) (rename_replaces w)
          (tmp_names w) (tmp_pos w) (trace w).
Definition set_proc_umask (u : Z) (w : World) : World :=
  mkWorld (fs w) (fds w) (next_fd w) (clock w) u (rename_replaces w)
          (tmp_names w) (tmp_pos w) (trace w).
Definition set_tmp_pos (n : nat) (w : World) : World :=
  mkWorld (fs w) (fds w) (next_fd w) (clock w) (proc_umask w) (rename_replaces w)
          (tmp_names w) n (trace w).
Definition add_event (e : event) (w : World) : World :=
  mkWorld (fs w) (fds w) (next_fd w) (clock w) (proc_umask w) (rename_replaces w)
          (tmp_names w) (tmp_pos w) (trace w ++ [e]).

(** ** The monad *)

(** A computation returns, raises, or is cut off by the fuel of a loop. *)
Inductive outcome (A : Type) : Type :=
| Val (a : A)
| Exn (e : exn)
| OutOfFuel.
Arguments Val {A} a.
Arguments Exn {A} e.
Arguments OutOfFuel {A}.

Definition M (A : Type) : Type := World -> outcome A * World.

#[export] Instance M_ret : MRet M := fun A a w => (Val a, w).
#[export] Instance M_bind : MBind M := fun A B f m w =>
  match m w with
  | (Val a, w') => f a w'
  | (Exn e, w') => (Exn e, w')
  | (OutOfFuel, w') => (OutOfFuel, w')
  end.

Definition raise {A} (e : exn) : M A := fun w => (Exn e, w).
Definition out_of_fuel {A} : M A := fun w => (OutOfFuel, w).
Definition act {A} (f : World -> outcome A * World) : M A := f.
Definition get_world : M World := fun w => (Val w, w).
Definition modify (f : World -> World) : M unit := fun w => (Val tt, f w).
Definition emit (e : event) : M unit := modify (add_event e).

(** A pure computation that may raise. *)
Definition lift {A} (r : result A) : M A :=
  match r with inl e => raise e | inr a => mret a end.

(** [try: m  except Exception, e: h e].  A handler that does not catch [e]
    re-raises it. *)
Definition try_except {A} (m : M A) (h : exn -> M A) : M A := fun w =>
  match m w with
  | (Exn e, w') => h e w'
  | r => r
  end.

(** [try: m  finally: f].  The finaliser runs after a return and after an
    exception; an exception of the finaliser replaces the pending one. *)
Definition try_finally {A} (m : M A) (f : M unit) : M A := fun w =>
  match m w with
  | (OutOfFuel, w') => (OutOfFuel, w')
  | (r, w') =>
      match f w' with
      | (Val _, w'') => (r, w'')
      | (Exn e, w'') => (Exn e, w'')
      | (OutOfFuel, w'') => (OutOfFuel, w'')
      end
  end.

(** ** The file system *)

(** [0777 & ~mask] and the like. *)
Definition mask_mode (mode mask : Z) : Z := Z.land mode (Z.lnot mask).

Definition is_root (p : string) : bool :=
  match p with EmptyString => false | _ => PyStr.all_sep p end.

(** What [stat] sees at [p]: the root always exists. *)
Definition stat (f : gmap string node) (p : string) : option node :=
  if is_root p then Some (Dir 493 0) else f !! p.

(** Is [p] a directory in which entries can be made?  The empty path is the
    working directory. *)
Definition is_dir (f : gmap string node) (p : string) : bool :=
  match p with
  | EmptyString => true
  | _ => match stat f p with Some (Dir _ _) => true | _ => false end
  end.

(** The error, if any, of reaching the parent directory of [p]. *)
Definition parent_error (f : gmap string node) (p : string) : option Z :=
  let d := PyStr.dirname p in
  if is_dir f d then None
  else match stat f d with Some _ => Some ENOTDIR | None => Some ENOENT end.

(** The error, if any, of creating a new entry at [p]. *)
Definition create_error (f : gmap string node) (p : string) : option Z :=
  match p with
  | EmptyString => Some ENOENT
  | _ => match stat f p with
         | Some _ => Some EEXIST
         | None => parent_error f p
         end
  end.

(** Does the directory [p] hold an entry? *)
Definition has_entries (f : gmap string node) (p : string) : bool :=
  existsb (fun kv => String.eqb (PyStr.dirname (fst kv)) p) (map_to_list f).

(** [mkdir(p, mode)] on the bare file system. *)
Definition fs_mkdir (p : string) (mode : Z) (w : World) : Z + World :=
  match create_error (fs w) p with
  | Some errno => inl errno
  | None => inr (set_fs (<[p := Dir (mask_mode mode (proc_umask w)) (clock w)]> (fs w)) w)
  end.

(** [os.makedirs(name, mode)]: the recursion of the library on the head of
    [name], which is shorter than [name]; [fuel] bounds it by the length of
    the path. *)
Fixpoint fs_makedirs (fuel : nat) (name : string) (mode : Z) (w : World) : Z + World :=
  match fuel with
  | O => fs_mkdir name mode w
  | S fuel' =>
      let '(head, tail) := PyStr.split name in
      let '(head, tail) :=
        match tail with
        | EmptyString => PyStr.split head
        | _ => (head, tail)
        end in
      match head, tail with
      | String _ _, String _ _ =>
          if bool_decide (is_Some (stat (fs w) head)) then fs_mkdir name mode w
          else
            match fs_makedirs fuel' head mode w with
            | inl errno =>
                (* be happy if someone already created the path *)
                if (errno =? EEXIST)%Z then
                  (if String.eqb tail "." then inr w else fs_mkdir name mode w)
                else inl errno
            | inr w' =>
                if String.eqb tail "." then inr w' else fs_mkdir name mode w'
            end
      | _, _ => fs_mkdir name mode w
      end
  end.

Definition os_error {A} (r : Z + A) : result A :=
  match r with inl errno => inl (OSError errno) | inr a => inr a end.

(** [time.time()]. *)
Definition time_time : M Q := fun w => (Val (clock w), w).

(** [time.sleep(secs)]. *)
Definition time_sleep (secs : Q) : M unit :=
  emit (Sys (Sleep secs));;
  modify (fun w => set_clock (Qred (clock w + secs)) w).

(** [os.umask(mask)]: sets the process umask, returns the previous one. *)
Definition os_umask (mask : Z) : M Z :=
  emit (Sys (Umask mask));;
  act (fun w => (Val (proc_umask w), set_proc_umask mask w)).

(** [os.path.exists(p)]. *)
Definition os_path_exists (p : string) : M bool :=
  fun w => (Val (bool_decide (is_Some (stat (fs w) p))), w).

(** [os.stat(p).st_mtime]. *)
Definition os_stat_mtime (p : string) : M Q := fun w =>
  match stat (fs w) p with
  | Some n => (Val (node_mtime n), w)
  | None => (Exn (OSError ENOENT), w)
  end.

(** [open(p, 'rb').read()]. *)
Definition open_read (p : string) : M string := fun w =>
  match stat (fs w) p with
  | Some (File data _ _) => (Val data, w)
  | Some (Dir _ _) => (Exn (IOError EISDIR), w)
  | None => (Exn (IOError ENOENT), w)
  end.

(** [os.makedirs(p, mode)]. *)
Definition os_makedirs (p : string) (mode : Z) : M unit :=
  emit (Sys (Makedirs p mode));;
  act (fun w => match fs_makedirs (String.length p) p mode w with
           | inl errno => (Exn (OSError errno), w)
           | inr w' => (Val tt, w')
           end).

(** [os.rmdir(p)]: only an empty directory goes. *)
Definition os_rmdir (p : string) : M unit :=
  emit (Sys (Rmdir p));;
  act (fun w => match fs w !! p with
           | None => (Exn (OSError ENOENT), w)
           | Some (File _ _ _) => (Exn (OSError ENOTDIR), w)
           | Some (Dir _ _) =>
               if has_entries (fs w) p then (Exn (OSError ENOTEMPTY), w)
               else (Val tt, set_fs (delete p (fs w)) w)
           end).

(** [os.unlink(p)], [os.remove(p)]: only a file goes. *)
Definition fs_unlink (p : string) : M unit := fun w =>
  match fs w !! p with
  | None => (Exn (OSError ENOENT), w)
  | Some (Dir _ _) => (Exn (OSError EISDIR), w)
  | Some (File _ _ _) => (Val tt, set_fs (delete p (fs w)) w)
  end.
Definition os_unlink (p : string) : M unit := emit (Sys (Unlink p));; fs_unlink p.
Definition os_remove (p : string) : M unit := emit (Sys (Remove p));; fs_unlink p.

(** [os.open(p, O_RDWR | O_CREAT | O_EXCL, 0600)] as [tempfile] calls it. *)
Definition fs_open_excl (p : string) (w : World) : Z + (Z * World) :=
  match create_error (fs w) p with
  | Some errno => inl errno
  | None =>
      let fd := next_fd w in
      inr (fd, set_fds (<[fd := p]> (fds w)) (fd + 1)
                 (set_fs (<[p := File EmptyString (mask_mode 384 (proc_umask w)) (clock w)]> (fs w)) w))
  end.

(** [tempfile.mkstemp(dir=dir, suffix=suffix)]: candidate names are tried
    until one can be created exclusively; after [TMP_MAX] collisions the
    library raises [IOError].  Paths are kept as they are written (no
    [abspath]): the model names a file by the string that reaches it from
    the working directory. *)
Definition TMP_MAX : nat := Z.to_nat 10000.

Fixpoint mkstemp_inner (tries : nat) (dir suffix : string) (w : World)
  : outcome (Z * string) * World :=
  match tries with
  | O => (Exn (IOError EEXIST), w)
  | S tries' =>
      let name := tmp_names w (tmp_pos w) in
      let file := PyStr.pathjoin dir ("tmp" +:+ name +:+ suffix) in
      let w1 := set_tmp_pos (S (tmp_pos w)) w in
      match fs_open_excl file w1 with
      | inr (fd, w2) => (Val (fd, file), w2)
      | inl errno =>
          if (errno =? EEXIST)%Z then mkstemp_inner tries' dir suffix w1
          else (Exn (OSError errno), w1)
      end
  end.

Definition mkstemp (dir suffix : string) : M (Z * string) :=
  emit (Sys (Mkstemp dir suffix));; mkstemp_inner TMP_MAX dir suffix.

Definition EBADF : Z := 9.
Definition EXDEV : Z := 18.

(** [os.write(fd, data)]: appends at the descriptor's position (the
    descriptors of the modelled code are fresh and written once). *)
Definition os_write (fd : Z) (data : string) : M unit :=
  emit (Sys (Write fd data));;
  act (fun w => match fds w !! fd with
           | None => (Exn (OSError EBADF), w)
           | Some p =>
               match fs w !! p with
               | Some (File old mode _) =>
                   (Val tt, set_fs (<[p := File (old +:+ data) mode (clock w)]> (fs w)) w)
               | _ => (Exn (OSError EBADF), w)
               end
           end).

(** [os.close(fd)]. *)
Definition os_close (fd : Z) : M unit :=
  emit (Sys (Close fd));;
  act (fun w => match fds w !! fd with
           | None => (Exn (OSError EBADF), w)
           | Some _ => (Val tt, set_fds (delete fd (fds w)) (next_fd w) w)
           end).

(** [os.rename(src, dst)] for a regular file [src] (the modelled code
    renames nothing else; a directory source is refused).  Where
    [rename_replaces] holds an existing file at [dst] is replaced
    atomically; elsewhere an existing [dst] is an error. *)
Definition os_rename (src dst : string) : M unit :=
  emit (Sys (Rename src dst));;
  act (fun w => match fs w !! src with
           | None => (Exn (OSError ENOENT), w)
           | Some (Dir _ _) => (Exn (OSError EXDEV), w)
           | Some (File data mode mtime) =>
               let moved := <[dst := File data mode mtime]> (delete src (fs w)) in
               match dst with
               | EmptyString => (Exn (OSError ENOENT), w)
               | _ =>
                 match stat (fs w) dst with
                 | None =>
                     match parent_error (fs w) dst with
                     | Some errno => (Exn (OSError errno), w)
                     | None => (Val tt, set_fs moved w)
                     end
                 | Some (Dir _ _) =>
                     (Exn (OSError (if rename_replaces w then EISDIR else EEXIST)), w)
                 | Some (File _ _ _) =>
                     if rename_replaces w then (Val tt, set_fs moved w)
                     else (Exn (OSError EEXIST), w)
                 end
               end
           end).

(** [os.chmod(p, mode)]. *)
Definition os_chmod (p : string) (mode : Z) : M unit :=
  emit (Sys (Chmod p mode));;
  act (fun w => match fs w !! p with
           | None => (Exn (OSError ENOENT), w)
           | Some (File data _ mtime) => (Val tt, set_fs (<[p := File data mode mtime]> (fs w)) w)
           | Some (Dir _ mtime) => (Val tt, set_fs (<[p := Dir mode mtime]> (fs w)) w)
           end).

(* ===================================================================== *)
(** * Caches/StaticMapCache.py                                             *)
(* ===================================================================== *)

Module Disk.

(** [Disk.__init__(path, umask=0022)]. *)
Definition __init__ (path : string) (umask : Z) : Disk := mkDisk path umask.
Definition default_umask : Z := 18.      (* 0022 *)

(** [Disk._filepath].  Python evaluates [x] (longitude) before [y]
    (latitude); both raise [AttributeError] when [center] is [None]. *)
Definition _filepath (layer : Layer) (staticmap : StaticMaps) (format : string)
  : result string :=
  let l := layer_name layer in
  let z := PyStr.str (zoom staticmap) in
  let e := PyStr.lower format in
  match center_attr "lon" lon (center staticmap) with
  | inl err => inl err
  | inr clon =>
    let x := PyStr.str (int_of_float ((clon + 180) * 10000)) in
    match center_attr "lat" lat (center staticmap) with
    | inl err => inl err
    | inr clat =>
      let y := PyStr.str (int_of_float ((clat + 90) * 10000)) in
      let size := PyStr.str (width staticmap) +:+ "x" +:+ PyStr.str (height staticmap) in
      match marker staticmap with
      | Some m =>
          let icon := PyStr.replace "." "-" (PyStr.basename (icon m)) in
          inr (PyStr.sep_join [l; z; x; y +:+ "_" +:+ size +:+ "_" +:+ icon +:+ "." +:+ e])
      | None =>
          match path staticmap with
          | Some _ => inr (PyStr.sep_join [l; z; x; y +:+ "_" +:+ size +:+ "." +:+ e])
          | None => inr (PyStr.sep_join [l; z; x; y +:+ "_" +:+ size +:+ "." +:+ e])
          end
      end
    end
  end.

(** [Disk._fullpath]. *)
Definition _fullpath (self : Disk) (layer : Layer) (staticmap : StaticMaps) (format : string)
  : result string :=
  match _filepath layer staticmap format with
  | inl err => inl err
  | inr filepath => inr (PyStr.pathjoin (cachepath self) filepath)
  end.

(** [Disk._lockpath]. *)
Definition _lockpath (self : Disk) (layer : Layer) (staticmap : StaticMaps) (format : string)
  : result string :=
  match _fullpath self layer staticmap format with
  | inl err => inl err
  | inr fullpath => inr (fullpath +:+ ".lock")
  end.

(** One round of the [while True] loop of [Disk.lock]: [true] stands for
    [break] (the directory was made: the lock is held), [false] for the
    end of the [except] clause (the directory exists: slept, go round
    again).  [umask_old] is bound by the first statement of the [try]
    block, which cannot raise, so it is bound before the [try] here. *)
Definition lock_attempt (self : Disk) (lockpath : string) (due : Q) : M bool :=
  umask_old ← os_umask (umask self);
  try_finally
    (try_except
       (now ← time_time;
        (if Qltb due now then
           (* someone left the door locked. *)
           try_except (os_rmdir lockpath)
             (fun e => match e with
                       | OSError _ => mret tt    (* Oh - no they didn't. *)
                       | _ => raise e
                       end)
         else mret tt);;
        os_makedirs lockpath (mask_mode 511 (umask self));;
        mret true)
       (fun e => match e with
                 | OSError errno =>
                     if negb (errno =? 17)%Z then raise e
                     else time_sleep (1 # 5);; mret false
                 | _ => raise e
                 end))
    (os_umask umask_old;; mret tt).

(** The loop itself; it has no bound in the source, [fuel] counts its
    rounds. *)
Fixpoint lock_loop (fuel : nat) (self : Disk) (lockpath : string) (due : Q) : M unit :=
  match fuel with
  | O => out_of_fuel
  | S fuel' =>
      acquired ← lock_attempt self lockpath due;
      if (acquired : bool) then mret tt else lock_loop fuel' self lockpath due
  end.

(** [Disk.lock]: acquire a cache lock for this tile; blocks until the lock
    has been acquired. *)
Definition lock (fuel : nat) (self : Disk) (layer : Layer) (staticmap : StaticMaps)
    (format : string) : M unit :=
  emit (CacheCall MLock staticmap format);;
  lockpath ← lift (_lockpath self layer staticmap format);
  now ← time_time;
  let due := (now + inject_Z (stale_lock_timeout layer))%Q in
  lock_loop fuel self lockpath due.

(** [Disk.unlock]: release a cache lock for this tile. *)
Definition unlock (self : Disk) (layer : Layer) (staticmap : StaticMaps) (format : string)
  : M unit :=
  emit (CacheCall MUnlock staticmap format);;
  lockpath ← lift (_lockpath self layer staticmap format);
  try_except (os_rmdir lockpath)
    (fun e => match e with
              | OSError _ => mret tt    (* Ok, someone else deleted it already *)
              | _ => raise e
              end).

(** [Disk.remove]: remove a cached tile. *)
Definition remove (self : Disk) (layer : Layer) (staticmap : StaticMaps) (format : string)
  : M unit :=
  emit (CacheCall MRemove staticmap format);;
  fullpath ← lift (_fullpath self layer staticmap format);
  try_except (os_remove fullpath)
    (fun e => match e with
              | OSError errno =>
                  (* errno=2 means that the file does not exist, which is fine *)
                  if negb (errno =? 2)%Z then raise e else mret tt
              | _ => raise e
              end).

(** Truth value of [layer.cache_lifespan and age > layer.cache_lifespan]. *)
Definition expired (lifespan : option Z) (age : Q) : bool :=
  match lifespan with
  | None => false
  | Some n => negb (n =? 0)%Z && Qltb (inject_Z n) age
  end.

(** [Disk.read]: read a cached tile. *)
Definition read (self : Disk) (layer : Layer) (staticmap : StaticMaps) (format : string)
  : M (option string) :=
  emit (CacheCall MRead staticmap format);;
  fullpath ← lift (_fullpath self layer staticmap format);
  found ← os_path_exists fullpath;
  if negb found then mret None
  else
    now ← time_time;
    mtime ← os_stat_mtime fullpath;
    let age := (now - mtime)%Q in
    if expired (cache_lifespan layer) age then mret None
    else
      body ← open_read fullpath;
      mret (Some body).

(** [Disk.save]: save a cached tile.  As in [lock_attempt], [umask_old] is
    bound before the [try] whose [finally] restores it. *)
Definition save (self : Disk) (body : string) (layer : Layer) (staticmap : StaticMaps)
    (format : string) : M unit :=
  emit (CacheCall MSave staticmap format);;
  fullpath ← lift (_fullpath self layer staticmap format);
  umask_old ← os_umask (umask self);
  try_finally
    (try_except
       (os_makedirs (PyStr.dirname fullpath) (mask_mode 511 (umask self)))
       (fun e => match e with
                 | OSError errno => if negb (errno =? 17)%Z then raise e else mret tt
                 | _ => raise e
                 end))
    (os_umask umask_old;; mret tt);;
  let suffix := "." +:+ PyStr.lower format in
  '(fh, tmp_path) ← mkstemp (cachepath self) suffix;
  os_write fh body;;
  os_close fh;;
  try_except (os_rename tmp_path fullpath)
    (fun e => match e with
              | OSError _ => os_unlink fullpath;; os_rename tmp_path fullpath
              | _ => raise e
              end);;
  os_chmod fullpath (mask_mode 438 (umask self)).

End Disk.

(* ===================================================================== *)
(** * StaticMapServer.py                                                   *)
(* ===================================================================== *)

(** A local variable that a branch may leave unassigned. *)
Inductive local (A : Type) : Type :=
| Unbound
| Bound (a : A).
Arguments Unbound {A}.
Arguments Bound {A} a.

(** Reading the local variable [name]. *)
Definition load {A} (name : string) (v : local A) : M A :=
  match v with
  | Bound a => mret a
  | Unbound => raise (UnboundLocalError name)
  end.

(** [layer.render(layer.staticmap.getCoord(), format)] inside
    [try ... except Core.NoTileLeftBehind]: the tile and the [save] flag. *)
Definition render_tile (layer : Layer) (format : string) : M (Tile * bool) :=
  coord ← lift (StaticMaps.getCoord (staticmap layer));
  emit (RenderCall coord format);;
  match render layer coord format with
  | Rendered tile => mret (tile, true)
  | NoTileLeftBehind tile => mret (tile, false)
  | RenderRaises e => raise e
  end.

(** [getStaticMap(layer, extension='png', ignore_cached=False)]: get a type
    string and binary for a given request layer.  [fuel] bounds the loop of
    [cache.lock].  [lockStaticMap] is decided by [layer.write_cache] before
    any statement of the [try] block can raise, so the [finally] clause tests
    the same value. *)
Definition getStaticMap (fuel : nat) (layer : Layer) (extension : string)
    (ignore_cached : bool) : M (string * string) :=
  start_time ← time_time;
  '(mimetype, format) ← lift (getTypeByExtension layer extension);
  let cache := cache layer in
  body ← (if negb ignore_cached then
            (* Start by checking for a tile in the cache. *)
            b ← Disk.read cache layer (staticmap layer) format;
            mret (Bound b)
          else
            mret Unbound);
  (* If no tile was found, dig deeper *)
  body0 ← load "body" body;
  body ← match body0 with
         | Some b => mret b
         | None =>
             let lockStaticMap :=
               if write_cache layer then Some (staticmap layer) else None in
             try_finally
               ((match lockStaticMap with
                 | Some sm =>
                     (* We may need to write a new tile, so acquire a lock. *)
                     Disk.lock fuel cache layer sm format
                 | None => mret tt
                 end);;
                body1 ← (if negb ignore_cached then
                           (* some other process may have written the tile
                              while the lock was being acquired. *)
                           Disk.read cache layer (staticmap layer) format
                         else mret body0);
                match body1 with
                | Some b => mret b
                | None =>
                    (* No one else wrote the tile, do it here. *)
                    '(tile, save) ← render_tile layer format;
                    let save := if negb (write_cache layer) then false else save in
                    let save_kwargs :=
                      if String.eqb (PyStr.lower format) "jpeg" then jpeg_options layer
                      else if String.eqb (PyStr.lower format) "png" then png_options layer
                      else [] in
                    b ← lift (tile_save tile format save_kwargs);
                    (if (save : bool) then Disk.save cache b layer (staticmap layer) format
                     else mret tt);;
                    mret b
                end)
               (match lockStaticMap with
                | Some sm =>
                    (* Always clean up a lock when it's no longer being used. *)
                    Disk.unlock cache layer sm format
                | None => mret tt
                end)
         end;
  (* the arguments of logging.info *)
  _ ← lift (center_attr "lon" lon (center (staticmap layer)));
  _ ← lift (center_attr "lat" lat (center (staticmap layer)));
  mret (mimetype, body).

(** ** The WSGI entry point *)

(** The query string after [parse_qsl] and after the [split], [int] and
    [float] calls that the handler applies to its values: [size=WxH],
    [zoom=<int>], [center=lat,lon], [markers=icon:<uri>|lat,lon],
    [path=color:<c>|weight:<w>|lat,lon|...]. *)
Inductive marker_part : Type :=
| MarkerIcon (uri : string)             (* m.startswith('icon:') *)
| MarkerPoint (lat lon : Q)             (* len(m.split(',')) == 2 *)
| MarkerOther.

Inductive path_part : Type :=
| PathParam (key value : string)        (* m.find(':') > 0 *)
| PathPoint (lat lon : Q)               (* m.find(',') > 0 *)
| PathOther.

Record Query : Type := mkQuery {
  q_size : option (Z * Z);
  q_zoom : option Z;
  q_markers : option (list marker_part);
  q_path : option (list path_part);
  q_center : option (Q * Q)
}.

Record Environ : Type := mkEnviron {
  QUERY_STRING : option Query;
  PATH_INFO : option string
}.

Inductive header : Type :=
| ContentType (v : string)
| AccessControlAllowOrigin (v : string)
| Expires (at_time : Q)
| CacheControlMaxAge (seconds : Z).

Record Response : Type := mkResponse {
  status : string;
  headers : list header;
  content : string
}.

Definition set_staticmap (sm : StaticMaps) (l : Layer) : Layer :=
  mkLayer (layer_name l) (cache l) sm (cache_lifespan l) (stale_lock_timeout l)
          (write_cache l) (getTypeByExtension l) (render l) (jpeg_options l)
          (png_options l) (allowed_origin l) (max_cache_age l) (has_renderStaticMap l).

(** [environ['PATH_INFO'].strip('/')]. *)
Fixpoint lstrip_sep (s : string) : string :=
  match s with
  | String c r => if Ascii.eqb c "/" then lstrip_sep r else s
  | EmptyString => EmptyString
  end.
Definition strip_sep (s : string) : string := PyStr.rstrip_sep (lstrip_sep s).

(** The double quote of the messages, and ['Missing "%s" ...' % var]. *)
Definition dquote : string := String (ascii_of_nat 34) EmptyString.
Definition missing (what kind : string) : exn :=
  KnownUnknown ("Missing " +:+ dquote +:+ what +:+ dquote +:+ " " +:+ kind).

Module WSGIServer.

Section Call.

Variable ll2px : Q -> Q -> Z -> result (Z * Z).
Variable px2ll : Z -> Z -> Z -> result (Q * Q).

(** The loop over [query['markers'].split('|')]: the last icon and the
    last point seen. *)
Definition scan_markers (parts : list marker_part)
  : local string * local (Q * Q) :=
  fold_left
    (fun acc m =>
       match m with
       | MarkerIcon uri => (Bound uri, snd acc)
       | MarkerPoint la lo => (fst acc, Bound (la, lo))
       | MarkerOther => acc
       end)
    parts (Unbound, Unbound).

(** The points of [static_path['points']]. *)
Definition path_points (parts : list path_part) : list (Q * Q) :=
  flat_map (fun m => match m with PathPoint la lo => [(la, lo)] | _ => [] end) parts.

(** The body of the [try] block of [WSGIServer.__call__]. *)
Definition handle (fuel : nat) (layers : gmap string Layer) (environ : Environ)
  : M Response :=
  query ← match QUERY_STRING environ with
          | Some q => mret q
          | None => raise (missing "QUERY_STRING" "environment variable")
          end;
  path_info ← match PATH_INFO environ with
              | Some p => mret p
              | None => raise (missing "PATH_INFO" "environment variable")
              end;
  size ← match q_size query with
         | Some s => mret s
         | None => raise (missing "size" "parameter")
         end;
  zoom ← match q_zoom query with
         | Some z => mret z
         | None => raise (missing "zoom" "parameter")
         end;
  let name := strip_sep path_info in
  layer ← match layers !! name with
          | Some l => mret l
          | None => raise (KeyError name)
          end;
  (if negb (has_renderStaticMap layer) then
     raise (KnownUnknown ("Layer " +:+ dquote +:+ layer_name layer +:+ dquote
                            +:+ " provider has no renderStaticMap() method"))
   else mret tt);;
  let '(w, h) := size in
  let layer := set_staticmap (StaticMaps.__init__ w h zoom) layer in
  layer ← match q_markers query with
          | Some parts =>
              let '(icon, point) := scan_markers parts in
              '(lat, _) ← load "lat" point;
              '(_, lon) ← load "lon" point;
              icon ← load "icon" icon;
              sm ← lift (StaticMaps.addMarker ll2px px2ll (staticmap layer) lat lon icon);
              mret (set_staticmap sm layer)
          | None => mret layer
          end;
  layer ← match q_path query with
          | Some parts =>
              sm ← lift (StaticMaps.addPath (staticmap layer) (path_points parts));
              mret (set_staticmap sm layer)
          | None => mret layer
          end;
  (match path (staticmap layer), marker (staticmap layer) with
   | None, None =>
       (* lat, lon = [float(p) for p in query['center'].split(',')] *)
       match q_center query with
       | Some (lat, lon) => mret tt
       | None => raise (KeyError "center")
       end
   | _, _ => mret tt
   end);;
  '(mimetype, content) ← getStaticMap fuel layer "png" false;
  let headers := [ContentType "image/png"] in
  let headers :=
    match allowed_origin layer with
    | Some origin => headers ++ [AccessControlAllowOrigin origin]
    | None => headers
    end in
  now ← time_time;
  let headers :=
    match max_cache_age layer with
    | Some age => headers ++ [Expires (now + inject_Z age); CacheControlMaxAge age]
    | None => headers
    end in
  mret (mkResponse "200 OK" headers content).

(** [WSGIServer.__call__(environ, start_response)]: a [KnownUnknown] is
    answered with status 400, any other exception leaves the handler. *)
Definition __call__ (fuel : nat) (layers : gmap string Layer) (environ : Environ)
  : M Response :=
  try_except (handle fuel layers environ)
    (fun e => match e with
              | KnownUnknown msg => mret (mkResponse "400 Bad Request" [ContentType "text/plain"] msg)
              | _ => raise e
              end).

End Call.

End WSGIServer.

(* ===================================================================== *)
(** * The specification's reading of the cache key and of the zoom         *)
(* ===================================================================== *)

Module Spec.

(** Quantization to 1/10000 degree: [floor((v + offset) * 10000)]. *)
Definition quantize (v offset : Q) : Z := Qfloor ((v + offset) * 10000).

(** The marker icon's base filename with [.] replaced by [-]. *)
Definition icon_slug (icon : string) : string :=
  PyStr.replace "." "-" (PyStr.basename icon).

(** [layer_id/zoom/quantized_lon/quantized_lat_WxH[_icon_slug].format]. *)
Definition cache_key (layer_id : string) (zoom : Z) (c : _Loc) (width height : Z)
    (icon : option string) (format : string) : string :=
  layer_id +:+ "/" +:+ PyStr.str zoom +:+ "/" +:+ PyStr.str (quantize (lon c) 180)
    +:+ "/" +:+ PyStr.str (quantize (lat c) 90) +:+ "_"
    +:+ PyStr.str width +:+ "x" +:+ PyStr.str height
    +:+ match icon with
        | Some i => "_" +:+ icon_slug i
        | None => EmptyString
        end
    +:+ "." +:+ PyStr.lower format.

(** [k = floor(log2(x))]: [2^k <= x < 2^(k+1)]. *)
Definition is_floor_log2 (k : Z) (x : Q) : Prop :=
  (2 ^ k <= x)%Q /\ (x < 2 ^ (k + 1))%Q.

(** [k] is [log2(x)] cut toward zero: the floor when [x >= 1], the
    ceiling ([2^(k-1) < x <= 2^k]) when [x < 1]. *)
Definition is_trunc_log2 (k : Z) (x : Q) : Prop :=
  ((1 <= x)%Q /\ is_floor_log2 k x)
  \/ ((x < 1)%Q /\ (2 ^ (k - 1) < x)%Q /\ (x <= 2 ^ k)%Q).

(** [floor(log2(x))] for [x > 0], computed. *)
Definition floor_log2 (x : Q) : Z :=
  if Qle_bool 1 x then Z.log2 (Qfloor x) else (- Z.log2_up (Qceiling (/ x)))%Z.

(** The extent of one axis projected into pixels, and the zoom chosen for
    that axis. *)
Definition projected_extent (extent : Q) (dimension : Z) : Q :=
  extent * math_pi * 85445659.44705395 / (180 * inject_Z dimension).

Definition axis_zoom (extent : Q) (dimension : Z) : Z :=
  21 - floor_log2 (projected_extent extent dimension).

(** [m] is the least (greatest) element of [l]. *)
Definition is_min (m : Q) (l : list Q) : Prop :=
  In m l /\ forall x, In x l -> (m <= x)%Q.
Definition is_max (m : Q) (l : list Q) : Prop :=
  In m l /\ forall x, In x l -> (x <= m)%Q.

(** The degrees of longitude that one pixel spans at [zoom]. *)
Definition pixel_degrees (zoom : Z) : R :=
  (/ Projection.index Projection.CEK zoom 0)%R.

(** [px2ll(x, y, zoom)] at [(x, y) = ll2px(lat, lng, zoom)]. *)
Definition round_trip (lat lng : R) (zoom : Z) : result (R * R) :=
  match Projection.ll2px lat lng zoom with
  | inr (x, y) => Projection.px2ll x y zoom
  | inl e => inl e
  end.

(** The round trip returns a point within one pixel of [(lat, lng)]. *)
Definition within_pixel (lat lng : R) (zoom : Z) : Prop :=
  exists lat' lng',
    round_trip lat lng zoom = inr (lat', lng')
    /\ (Rabs (lat' - lat) <= pixel_degrees zoom)%R
    /\ (Rabs (lng' - lng) <= pixel_degrees zoom)%R.

End Spec.
(* ===================================================================== *)
(** * Properties                                                           *)
(* ===================================================================== *)

(** ** Strings and numbers *)

Lemma string_app_cons (ch : ascii) (a b : string) :
  String ch a +:+ b = String ch (a +:+ b).
Proof. reflexivity. Qed.

Lemma string_app_nil_l (a : string) : EmptyString +:+ a = a.
Proof. reflexivity. Qed.

Lemma string_app_assoc (a b c : string) : (a +:+ b) +:+ c = a +:+ (b +:+ c).
Proof.
  induction a as [|ch a IH]; [reflexivity |].
  rewrite !string_app_cons. now rewrite IH.
Qed.

Lemma string_app_nil_r (a : string) : a +:+ EmptyString = a.
Proof.
  induction a as [|ch a IH]; [reflexivity |].
  rewrite string_app_cons. now rewrite IH.
Qed.

Ltac string_norm :=
  repeat (rewrite ?string_app_assoc, ?string_app_cons, ?string_app_nil_l, ?string_app_nil_r).

(** On non-negative floats [int()] is [floor]. *)
Lemma int_of_float_floor (x : Q) : (0 <= x)%Q -> int_of_float x = Qfloor x.
Proof.
  destruct x as [n d]. unfold int_of_float, Qfloor, Qle. simpl.
  intros H. apply Z.quot_div_nonneg; lia.
Qed.

(** Below zero [int()] is not [floor]: it cuts toward zero. *)
Example int_of_float_negative : int_of_float (- (1 # 2)) = 0%Z /\ Qfloor (- (1 # 2)) = (-1)%Z.
Proof. split; reflexivity. Qed.

Lemma Qltb_lt (x y : Q) : Qltb x y = true <-> (x < y)%Q.
Proof.
  unfold Qltb. rewrite negb_true_iff.
  destruct (Qle_bool y x) eqn:E.
  - apply Qle_bool_iff in E. split; [discriminate | intros H; exfalso; lra].
  - split; [intros _ | reflexivity].
    destruct (Qlt_le_dec x y) as [H|H]; [exact H |].
    apply Qle_bool_iff in H. congruence.
Qed.

Lemma Qltb_ge (x y : Q) : Qltb x y = false <-> (y <= x)%Q.
Proof.
  destruct (Qltb x y) eqn:E.
  - apply Qltb_lt in E. split; [discriminate | intros H; exfalso; lra].
  - split; [intros _ | reflexivity].
    destruct (Qlt_le_dec x y) as [H|H]; [| exact H].
    apply Qltb_lt in H. congruence.
Qed.

(** ** The cache key (Disk._filepath) *)

Definition example_tile : Tile := mkTile (fun _ _ => inr "PNG-bytes").

Definition example_layer (sm : StaticMaps) : Layer :=
  mkLayer "markers" (mkDisk "cache" 18) sm (Some 60%Z) 15 true
          (fun _ => inr ("image/png", "PNG")) (fun _ _ => Rendered example_tile)
          [] [] None None true.

(** layer 'markers', size 600x300, zoom 8, center (12.0, -35.0), no
    overlay. *)
Definition example_map : StaticMaps :=
  mkStaticMaps 600 300 8 (Some (mk_Loc 12 (-35))) None None.

Definition set_path (p : option _Path) (sm : StaticMaps) : StaticMaps :=
  mkStaticMaps (width sm) (height sm) (zoom sm) (center sm) (marker sm) p.

(** C4 (as amended).  For every static map whose center is set, with
    longitude at least -180 and latitude at least -90 (where [int()] is
    [floor]), [Disk._filepath] returns
    [layer/zoom/floor((lon+180)*10000)/floor((lat+90)*10000)_WxH[_slug].format]
    with the format lowercased and the icon segment present exactly when a
    marker is; the path of the request never changes the key. *)
Theorem filepath_is_cache_key (layer : Layer) (sm : StaticMaps) (c : _Loc) (format : string) :
  center sm = Some c ->
  (-180 <= lon c)%Q ->
  (-90 <= lat c)%Q ->
  Disk._filepath layer sm format
    = inr (Spec.cache_key (layer_name layer) (zoom sm) c (width sm) (height sm)
                          (option_map icon (marker sm)) format)
  /\ forall p, Disk._filepath layer (set_path p sm) format = Disk._filepath layer sm format.
Proof.
  intros Hc Hlon Hlat. split.
  - unfold Disk._filepath, Spec.cache_key, Spec.quantize. rewrite Hc. simpl.
    rewrite !int_of_float_floor by nra.
    unfold PyStr.sep_join, Spec.icon_slug.
    destruct (marker sm) as [m|]; simpl; [| destruct (path sm)];
      string_norm; reflexivity.
  - intros p. unfold Disk._filepath, set_path. simpl.
    destruct (center_attr "lon" lon (center sm)); [reflexivity |].
    destruct (center_attr "lat" lat (center sm)); [reflexivity |].
    destruct (marker sm); [reflexivity |].
    destruct p, (path sm); reflexivity.
Qed.

(** The scenario of the specification, through the theorem: the key is
    [markers/8/1450000/1020000_600x300.png]. *)
Lemma filepath_is_cache_key_witness :
  Disk._filepath (example_layer example_map) example_map "PNG"
    = inr "markers/8/1450000/1020000_600x300.png"
  /\ Disk._filepath (example_layer example_map)
       (set_path (Some (mk_Path None "F00" 1 [])) example_map) "PNG"
     = inr "markers/8/1450000/1020000_600x300.png".
Proof.
  destruct (filepath_is_cache_key (example_layer example_map) example_map
              (mk_Loc 12 (-35)) "PNG") as [H1 H2].
  - reflexivity.
  - simpl. lra.
  - simpl. lra.
  - split.
    + rewrite H1. vm_compute. reflexivity.
    + rewrite H2, H1. vm_compute. reflexivity.
Defined.

(** C4, the scenario as the specification prints it: the latitude 12.0 is
    quantized to 1020000, not to 1220000. *)
Lemma filepath_scenario_not_1220000 :
  Disk._filepath (example_layer example_map) example_map "png"
    <> inr "markers/8/1450000/1220000_600x300.png".
Proof. vm_compute. discriminate. Qed.

(** ** Running computations *)

(** [wp m w Q]: running [m] in the world [w] ends in an outcome and a world
    that satisfy [Q]. *)
Definition wp {A} (m : M A) (w : World) (Q : outcome A -> World -> Prop) : Prop :=
  Q (fst (m w)) (snd (m w)).

(** The continuation of a bind, of a handler, of a finaliser. *)
Definition after_bind {A B} (f : A -> M B) (Q : outcome B -> World -> Prop)
  : outcome A -> World -> Prop :=
  fun r w' => match r with
              | Val a => wp (f a) w' Q
              | Exn e => Q (Exn e) w'
              | OutOfFuel => Q OutOfFuel w'
              end.

Definition after_except {A} (h : exn -> M A) (Q : outcome A -> World -> Prop)
  : outcome A -> World -> Prop :=
  fun r w' => match r with
              | Exn e => wp (h e) w' Q
              | _ => Q r w'
              end.

Definition after_finally {A} (f : M unit) (Q : outcome A -> World -> Prop)
  : outcome A -> World -> Prop :=
  fun r w' => match r with
              | OutOfFuel => Q OutOfFuel w'
              | _ => wp f w' (fun r2 w'' =>
                                match r2 with
                                | Val _ => Q r w''
                                | Exn e => Q (Exn e) w''
                                | OutOfFuel => Q OutOfFuel w''
                                end)
              end.

Section WP.

Context {A B : Type}.

Lemma wp_run (m : M A) (w : World) (Q : outcome A -> World -> Prop) r w' :
  m w = (r, w') -> Q r w' -> wp m w Q.
Proof. unfold wp. intros ->. auto. Qed.

Lemma wp_conseq (m : M A) (w : World) (Q Q' : outcome A -> World -> Prop) :
  wp m w Q -> (forall r w', Q r w' -> Q' r w') -> wp m w Q'.
Proof. unfold wp. auto. Qed.

Lemma wp_ret (a : A) (w : World) (Q : outcome A -> World -> Prop) :
  Q (Val a) w -> wp (mret a) w Q.
Proof. auto. Qed.

Lemma wp_raise (e : exn) (w : World) (Q : outcome A -> World -> Prop) :
  Q (Exn e) w -> wp (raise e) w Q.
Proof. auto. Qed.

Lemma wp_act (f : World -> outcome A * World) (w : World) Q :
  Q (fst (f w)) (snd (f w)) -> wp (act f) w Q.
Proof. auto. Qed.

Lemma wp_lift (r : result A) (w : World) (Q : outcome A -> World -> Prop) :
  match r with inl e => Q (Exn e) w | inr a => Q (Val a) w end -> wp (lift r) w Q.
Proof. destruct r; auto. Qed.

Lemma wp_bind (m : M A) (f : A -> M B) (w : World) (Q : outcome B -> World -> Prop) :
  wp m w (after_bind f Q) -> wp (m ≫= f) w Q.
Proof.
  unfold after_bind, wp, mbind, M_bind.
  destruct (m w) as [[a|e|] w']; auto.
Qed.

Lemma wp_try_except (m : M A) (h : exn -> M A) (w : World) Q :
  wp m w (after_except h Q) -> wp (try_except m h) w Q.
Proof.
  unfold after_except, wp, try_except.
  destruct (m w) as [[a|e|] w']; auto.
Qed.

Lemma wp_try_finally (m : M A) (f : M unit) (w : World) Q :
  wp m w (after_finally f Q) -> wp (try_finally m f) w Q.
Proof.
  unfold after_finally, wp, try_finally.
  destruct (m w) as [[a|e|] w']; simpl; auto;
    destruct (f w') as [[u|e'|] w'']; simpl; auto.
Qed.

End WP.

Lemma wp_emit (e : event) (w : World) (Q : outcome unit -> World -> Prop) :
  Q (Val tt) (add_event e w) -> wp (emit e) w Q.
Proof. auto. Qed.

Lemma wp_load {A} (name : string) (v : local A) (w : World) Q :
  match v with Bound a => Q (Val a) w | Unbound => Q (Exn (UnboundLocalError name)) w end ->
  wp (load name v) w Q.
Proof. destruct v; auto. Qed.

Lemma wp_elim {A} (m : M A) (w : World) (Q : outcome A -> World -> Prop) :
  wp m w Q -> exists r w', m w = (r, w') /\ Q r w'.
Proof. unfold wp. intros H. exists (fst (m w)), (snd (m w)). now destruct (m w). Qed.

(** One step of symbolic execution. *)
Ltac wp_step :=
  lazymatch goal with
  | |- wp (mbind _ _) _ _ => apply wp_bind
  | |- wp (mret _) _ _ => apply wp_ret
  | |- wp (raise _) _ _ => apply wp_raise
  | |- wp (emit _) _ _ => apply wp_emit
  | |- wp (lift _) _ _ => apply wp_lift
  | |- wp (load _ _) _ _ => apply wp_load
  | |- wp (try_except _ _) _ _ => apply wp_try_except
  | |- wp (try_finally _ _) _ _ => apply wp_try_finally
  | |- wp (act _) _ _ => apply wp_act
  | |- after_bind _ _ _ _ => unfold after_bind at 1
  | |- after_except _ _ _ _ => unfold after_except at 1
  | |- after_finally _ _ _ _ => unfold after_finally at 1
  end.

Ltac wp_steps := repeat (wp_step; cbn beta iota).

(** ** Expiry on read (Disk.read) *)

(** The life span is set (not [None], not 0) and the age exceeds it. *)
Definition lifespan_exceeded (layer : Layer) (age : Q) : Prop :=
  exists n, cache_lifespan layer = Some n /\ n <> 0%Z /\ (inject_Z n < age)%Q.

Lemma expired_iff (layer : Layer) (age : Q) :
  Disk.expired (cache_lifespan layer) age = true <-> lifespan_exceeded layer age.
Proof.
  unfold Disk.expired, lifespan_exceeded.
  destruct (cache_lifespan layer) as [n|].
  - rewrite andb_true_iff, negb_true_iff, Z.eqb_neq, Qltb_lt. split.
    + intros [H1 H2]. eauto.
    + intros (n' & [= <-] & H1 & H2). auto.
  - split; [discriminate | intros (n & H & _); discriminate].
Qed.

(** What a read does, in one equation. *)
Lemma read_run (self : Disk) (layer : Layer) (sm : StaticMaps)
    (format fullpath : string) (w : World) :
  Disk._fullpath self layer sm format = inr fullpath ->
  Disk.read self layer sm format w
  = (match stat (fs w) fullpath with
     | None => Val None
     | Some n =>
         if Disk.expired (cache_lifespan layer) (clock w - node_mtime n) then Val None
         else match n with
              | File data _ _ => Val (Some data)
              | Dir _ _ => Exn (IOError EISDIR)
              end
     end, add_event (CacheCall MRead sm format) w).
Proof.
  intros Hp. unfold Disk.read. rewrite Hp.
  unfold os_path_exists, time_time, os_stat_mtime, open_read,
    mbind, mret, M_bind, M_ret, emit, modify, act, lift. simpl.
  destruct (stat (fs w) fullpath) as [n|] eqn:Hst; simpl; rewrite ?Hst; [| reflexivity].
  destruct (Disk.expired _ _); simpl; rewrite ?Hst; [reflexivity |].
  destruct n; reflexivity.
Qed.

(** C5.  [Disk.read] returns [None] exactly when nothing is stored at the
    key's path or when [cache_lifespan] is non-zero and the age of what is
    stored exceeds it; otherwise it returns the complete stored bytes of the
    artifact file; and a read, expired or not, leaves the file system as it
    was. *)
Theorem read_expiry (self : Disk) (layer : Layer) (sm : StaticMaps)
    (format fullpath : string) (w : World) :
  Disk._fullpath self layer sm format = inr fullpath ->
  let r := fst (Disk.read self layer sm format w) in
  let w' := snd (Disk.read self layer sm format w) in
  (r = Val None <->
     stat (fs w) fullpath = None
     \/ exists n, stat (fs w) fullpath = Some n
                  /\ lifespan_exceeded layer (clock w - node_mtime n))
  /\ (forall data mode mtime,
        stat (fs w) fullpath = Some (File data mode mtime) ->
        ~ lifespan_exceeded layer (clock w - mtime) ->
        r = Val (Some data))
  /\ fs w' = fs w.
Proof.
  intros Hp. rewrite (read_run _ _ _ _ _ _ Hp). simpl.
  destruct (stat (fs w) fullpath) as [n|] eqn:Hst.
  - destruct (Disk.expired (cache_lifespan layer) (clock w - node_mtime n)) eqn:Hex.
    + apply expired_iff in Hex. repeat split; eauto.
      intros d m t [= ->] Hno. simpl in *. contradiction.
    + assert (Hno : ~ lifespan_exceeded layer (clock w - node_mtime n)).
      { intros H. apply expired_iff in H. congruence. }
      repeat split.
      * destruct n; discriminate.
      * intros [H | (n' & [= <-] & H)]; [discriminate | contradiction].
      * intros d m t [= ->] _. reflexivity.
  - repeat split; eauto. intros; discriminate.
Qed.

(** A cached artifact written at clock reading [mtime], read at 1000. *)
Definition world_with_artifact (mtime : Q) : World :=
  mkWorld {[ "cache/markers/8/1450000/1020000_600x300.png" := File "PNG-bytes" 420 mtime ]}
          ∅ 3 1000 18 true (fun n => PyStr.str (Z.of_nat n)) 0 [].

(** With [cache_lifespan = 60]: at age 59 the entry is returned, at age 61
    the read returns [None] and the file is still there. *)
Lemma read_expiry_witness :
  fst (Disk.read (mkDisk "cache" 18) (example_layer example_map) example_map "PNG"
         (world_with_artifact 941)) = Val (Some "PNG-bytes")
  /\ fst (Disk.read (mkDisk "cache" 18) (example_layer example_map) example_map "PNG"
            (world_with_artifact 939)) = Val None
  /\ fs (snd (Disk.read (mkDisk "cache" 18) (example_layer example_map) example_map "PNG"
                (world_with_artifact 939)))
       !! "cache/markers/8/1450000/1020000_600x300.png"
     = Some (File "PNG-bytes" 420 939).
Proof.
  assert (Hp : Disk._fullpath (mkDisk "cache" 18) (example_layer example_map) example_map "PNG"
               = inr "cache/markers/8/1450000/1020000_600x300.png") by (vm_compute; reflexivity).
  destruct (read_expiry _ _ _ _ _ (world_with_artifact 941) Hp) as (_ & H59 & _).
  destruct (read_expiry _ _ _ _ _ (world_with_artifact 939) Hp) as (H61 & _ & Hfs).
  split; [| split].
  - apply (H59 "PNG-bytes" 420%Z 941%Q); [vm_compute; reflexivity |].
    intros (n & [= <-] & _ & Hlt). vm_compute in Hlt. discriminate.
  - apply H61. right. exists (File "PNG-bytes" 420 939). split; [vm_compute; reflexivity |].
    exists 60%Z. split; [reflexivity | split; [discriminate | vm_compute; reflexivity]].
  - rewrite Hfs. vm_compute. reflexivity.
Defined.

(** ** getStaticMap with ignore_cached *)

(** C10.  With [ignore_cached=True] the branch that skips the first cache
    read leaves [body] unassigned, and [if body is None] raises
    [UnboundLocalError]: the call ends there, in the world it started in (no
    cache method was called, no lock taken, nothing rendered). *)
Theorem getStaticMap_ignore_cached_unbound (fuel : nat) (layer : Layer)
    (extension mimetype format : string) (w : World) :
  getTypeByExtension layer extension = inr (mimetype, format) ->
  getStaticMap fuel layer extension true w = (Exn (UnboundLocalError "body"), w).
Proof.
  intros Ht. unfold getStaticMap, mbind, M_bind, time_time. rewrite Ht. reflexivity.
Qed.

Definition empty_world : World :=
  mkWorld ∅ ∅ 3 1000 18 true (fun n => PyStr.str (Z.of_nat n)) 0 [].

Lemma getStaticMap_ignore_cached_unbound_witness :
  getStaticMap 100 (example_layer example_map) "png" true empty_world
  = (Exn (UnboundLocalError "body"), empty_world).
Proof.
  apply (getStaticMap_ignore_cached_unbound 100 (example_layer example_map)
           "png" "image/png" "PNG" empty_world).
  reflexivity.
Defined.

(** ** A request with neither marker nor path *)

(** [GET /markers?size=600x300&zoom=8&center=12,-35]. *)
Definition center_only_request : Environ :=
  mkEnviron (Some (mkQuery (Some (600, 300)%Z) (Some 8%Z) None None (Some (12, -35)%Q)))
            (Some "/markers").

(** C7 (the code at the failing input).  The handler parses [center] and
    drops it: the static map keeps [center = None], and the first use of the
    center, in the cache key of the first cache read, raises
    [AttributeError]; nothing is rendered. *)
Theorem center_only_request_fails (ll2px : Q -> Q -> Z -> result (Z * Z))
    (px2ll : Z -> Z -> Z -> result (Q * Q)) (fuel : nat) (w : World) :
  WSGIServer.__call__ ll2px px2ll fuel
    {[ "markers" := example_layer (StaticMaps.__init__ 0 0 0) ]} center_only_request w
  = (Exn (AttributeError "'NoneType' object has no attribute 'lon'"),
     add_event (CacheCall MRead (StaticMaps.__init__ 600 300 8) "PNG") w).
Proof. reflexivity. Qed.

(** With the center stored, the same request is served: the defect is the
    missing assignment, not the cache or the renderer. *)
Example center_stored_request_served :
  fst (getStaticMap 100 (example_layer example_map) "png" false empty_world)
  = Val ("image/png", "PNG-bytes").
Proof. vm_compute. reflexivity. Qed.

(** ** Base-2 logarithms of rationals *)

Lemma Qpower2_inject (k : Z) : (0 <= k)%Z -> (2 ^ k == inject_Z (2 ^ k))%Q.
Proof. intros Hk. symmetry. apply (Zpower_Qpower 2 k Hk). Qed.

Lemma Qfloor_ge_1 (x : Q) : (1 <= x)%Q -> (1 <= Qfloor x)%Z.
Proof. intros H. change 1%Z with (Qfloor 1). now apply Qfloor_resp_le. Qed.

(** For [x >= 1] the leading bit of the integer part is [floor(log2 x)]. *)
Lemma log2_floor_bounds (x : Q) :
  (1 <= x)%Q -> Spec.is_floor_log2 (Z.log2 (Qfloor x)) x.
Proof.
  intros Hx. pose proof (Qfloor_ge_1 x Hx) as Hn.
  pose proof (Z.log2_spec (Qfloor x) ltac:(lia)) as [Hlo Hhi].
  pose proof (Z.log2_nonneg (Qfloor x)) as Hk.
  unfold Spec.is_floor_log2.
  rewrite !Qpower2_inject by lia. split.
  - apply Qle_trans with (inject_Z (Qfloor x)); [| apply Qfloor_le].
    rewrite <- Zle_Qle. exact Hlo.
  - apply Qlt_le_trans with (inject_Z (Qfloor x + 1)); [apply Qlt_floor |].
    rewrite <- Zle_Qle. replace (Z.log2 (Qfloor x) + 1)%Z with (Z.succ (Z.log2 (Qfloor x))) by lia.
    lia.
Qed.

Lemma Qinv_gt_1 (x : Q) : (0 < x)%Q -> (x < 1)%Q -> (1 < / x)%Q.
Proof.
  intros H0 H1. apply Qlt_shift_inv_l; [exact H0 | lra].
Qed.

Lemma Qpower2_pos (k : Z) : (0 < 2 ^ k)%Q.
Proof. apply Qpower_0_lt. reflexivity. Qed.

Section InverseBounds.

Variables x p : Q.
Hypothesis Hx : (0 < x)%Q.
Hypothesis Hp : (0 < p)%Q.

Let Hxi : (x * / x == 1)%Q.
Proof. apply Qmult_inv_r. lra. Qed.
Let Hpi : (p * / p == 1)%Q.
Proof. apply Qmult_inv_r. lra. Qed.
Let Hip : (0 < / p)%Q.
Proof. apply Qinv_lt_0_compat. lra. Qed.
Let Hix : (0 < / x)%Q.
Proof. apply Qinv_lt_0_compat. lra. Qed.

Lemma inv_lt_above : (/ x < p)%Q -> (/ p < x)%Q.
Proof using Hx Hp Hxi Hpi Hip Hix. intros H. nra. Qed.

Lemma inv_le_above : (/ x <= p)%Q -> (/ p <= x)%Q.
Proof using Hx Hp Hxi Hpi Hip Hix. intros H. nra. Qed.

Lemma inv_lt_below : (p < / x)%Q -> (x < / p)%Q.
Proof using Hx Hp Hxi Hpi Hip Hix. intros H. nra. Qed.

Lemma inv_le_below : (p <= / x)%Q -> (x <= / p)%Q.
Proof using Hx Hp Hxi Hpi Hip Hix. intros H. nra. Qed.

End InverseBounds.

(** [int_log2] is the base-2 logarithm cut toward zero. *)
Lemma int_log2_spec (x : Q) : (0 < x)%Q -> Spec.is_trunc_log2 (int_log2 x) x.
Proof.
  intros H0. unfold int_log2, Spec.is_trunc_log2.
  destruct (Qle_bool 1 x) eqn:E.
  - apply Qle_bool_iff in E. left. split; [exact E | now apply log2_floor_bounds].
  - assert (H1 : (x < 1)%Q).
    { destruct (Qlt_le_dec x 1) as [H|H]; [exact H |].
      apply Qle_bool_iff in H. congruence. }
    right. split; [exact H1 |].
    pose proof (Qinv_gt_1 x H0 H1) as Hy.
    destruct (log2_floor_bounds (/ x) ltac:(lra)) as [Hlo Hhi].
    set (j := Z.log2 (Qfloor (/ x))) in *.
    split.
    + replace (- j - 1)%Z with (- (j + 1))%Z by lia.
      rewrite Qpower_opp.
      apply inv_lt_above; [exact H0 | apply Qpower2_pos | exact Hhi].
    + rewrite Qpower_opp.
      apply inv_le_below; [exact H0 | apply Qpower2_pos | exact Hlo].
Qed.

(** Where the projected extent is at least one pixel unit, cutting toward
    zero is the floor. *)
Lemma trunc_log2_floor (k : Z) (x : Q) :
  Spec.is_trunc_log2 k x -> (1 <= x)%Q -> Spec.is_floor_log2 k x.
Proof. intros [[_ H] | [H _]] Hx; [exact H | lra]. Qed.

Lemma Qceiling_gt_1 (y : Q) : (1 < y)%Q -> (1 < Qceiling y)%Z.
Proof.
  intros H. pose proof (Qle_ceiling y) as Hc.
  rewrite Zlt_Qlt. change (inject_Z 1) with 1%Q. lra.
Qed.

(** [Spec.floor_log2] is the floor of the logarithm. *)
Lemma floor_log2_spec (x : Q) : (0 < x)%Q -> Spec.is_floor_log2 (Spec.floor_log2 x) x.
Proof.
  intros H0. unfold Spec.floor_log2.
  destruct (Qle_bool 1 x) eqn:E.
  - apply Qle_bool_iff in E. now apply log2_floor_bounds.
  - assert (H1 : (x < 1)%Q).
    { destruct (Qlt_le_dec x 1) as [H|H]; [exact H |].
      apply Qle_bool_iff in H. congruence. }
    pose proof (Qinv_gt_1 x H0 H1) as Hy.
    pose proof (Qceiling_gt_1 _ Hy) as Hc.
    pose proof (Z.log2_up_spec (Qceiling (/ x)) Hc) as [Hlo Hhi].
    pose proof (Z.log2_up_pos (Qceiling (/ x)) Hc) as Hu.
    set (u := Z.log2_up (Qceiling (/ x))) in *.
    assert (Hup : (/ x <= 2 ^ u)%Q).
    { rewrite Qpower2_inject by lia.
      apply Qle_trans with (inject_Z (Qceiling (/ x))); [apply Qle_ceiling |].
      rewrite <- Zle_Qle. exact Hhi. }
    assert (Hdn : (2 ^ (u - 1) < / x)%Q).
    { rewrite Qpower2_inject by lia.
      apply Qle_lt_trans with (inject_Z (Qceiling (/ x) - 1)).
      - rewrite <- Zle_Qle. replace (u - 1)%Z with (Z.pred u) by lia. lia.
      - apply Qceiling_lt. }
    unfold Spec.is_floor_log2. split.
    + rewrite Qpower_opp.
      apply inv_le_above; [exact H0 | apply Qpower2_pos | exact Hup].
    + replace (- u + 1)%Z with (- (u - 1))%Z by lia.
      rewrite Qpower_opp.
      apply inv_lt_below; [exact H0 | apply Qpower2_pos | exact Hdn].
Qed.

Lemma int_log2_comp (x y : Q) : (x == y)%Q -> int_log2 x = int_log2 y.
Proof.
  intros H. unfold int_log2.
  rewrite (Qleb_comp 1%Q 1%Q (Qeq_refl 1%Q) x y H).
  rewrite (Qfloor_comp x y H).
  rewrite (Qfloor_comp (/ x) (/ y)); [reflexivity | now rewrite H].
Qed.

Lemma Qltb_comp (a x y : Q) : (x == y)%Q -> Qltb a x = Qltb a y.
Proof.
  intros H. unfold Qltb. now rewrite (Qleb_comp x y H a a (Qeq_refl a)).
Qed.

Lemma math_log2_int_comp (x y : Q) : (x == y)%Q -> math_log2_int x = math_log2_int y.
Proof.
  intros H. unfold math_log2_int.
  rewrite (Qltb_comp 0 x y H), (int_log2_comp x y H). reflexivity.
Qed.

Lemma math_log2_int_pos (x : Q) : (0 < x)%Q -> math_log2_int x = inr (int_log2 x).
Proof. intros H. unfold math_log2_int. apply Qltb_lt in H. now rewrite H. Qed.

Lemma math_log2_int_nonpos (x : Q) :
  (x <= 0)%Q -> math_log2_int x = inl (ValueError "math domain error").
Proof. intros H. unfold math_log2_int. apply Qltb_ge in H. now rewrite H. Qed.

(** ** Bounding boxes *)

Lemma fold_min_step_spec (r : list Q) (x : Q) :
  In (fold_left min_step r x) (x :: r)
  /\ forall y, In y (x :: r) -> (fold_left min_step r x <= y)%Q.
Proof.
  revert x. induction r as [|a r IH]; intros x; simpl.
  - split; [now left | intros y [<- | []]; lra].
  - destruct (IH (min_step x a)) as [Hin Hle]. split.
    + destruct Hin as [Hin | Hin]; [| now right; right].
      rewrite <- Hin. unfold min_step. destruct (Qltb a x); auto.
    + intros y Hy.
      assert (Hm : (min_step x a <= x)%Q /\ (min_step x a <= a)%Q).
      { unfold min_step. destruct (Qltb a x) eqn:E.
        - apply Qltb_lt in E. lra.
        - apply Qltb_ge in E. lra. }
      pose proof (Hle (min_step x a) (or_introl eq_refl)) as H0.
      destruct Hy as [<- | [<- | Hy]]; [lra | lra |].
      apply Hle. now right.
Qed.

Lemma fold_max_step_spec (r : list Q) (x : Q) :
  In (fold_left max_step r x) (x :: r)
  /\ forall y, In y (x :: r) -> (y <= fold_left max_step r x)%Q.
Proof.
  revert x. induction r as [|a r IH]; intros x; simpl.
  - split; [now left | intros y [<- | []]; lra].
  - destruct (IH (max_step x a)) as [Hin Hle]. split.
    + destruct Hin as [Hin | Hin]; [| now right; right].
      rewrite <- Hin. unfold max_step. destruct (Qltb x a); auto.
    + intros y Hy.
      assert (Hm : (x <= max_step x a)%Q /\ (a <= max_step x a)%Q).
      { unfold max_step. destruct (Qltb x a) eqn:E.
        - apply Qltb_lt in E. lra.
        - apply Qltb_ge in E. lra. }
      pose proof (Hle (max_step x a) (or_introl eq_refl)) as H0.
      destruct Hy as [<- | [<- | Hy]]; [lra | lra |].
      apply Hle. now right.
Qed.

Lemma list_min_spec (l : list Q) (m : Q) :
  Spec.is_min m l -> exists m', list_min l = inr m' /\ (m' == m)%Q.
Proof.
  intros [Hin Hle]. destruct l as [|x r]; [destruct Hin |].
  exists (fold_left min_step r x). split; [reflexivity |].
  destruct (fold_min_step_spec r x) as [Hin' Hle'].
  apply Qle_antisym; auto.
Qed.

Lemma list_max_spec (l : list Q) (m : Q) :
  Spec.is_max m l -> exists m', list_max l = inr m' /\ (m' == m)%Q.
Proof.
  intros [Hin Hle]. destruct l as [|x r]; [destruct Hin |].
  exists (fold_left max_step r x). split; [reflexivity |].
  destruct (fold_max_step_spec r x) as [Hin' Hle'].
  apply Qle_antisym; auto.
Qed.

(** ** StaticMaps.addPath *)

Definition set_zoom (z : Z) (sm : StaticMaps) : StaticMaps :=
  mkStaticMaps (width sm) (height sm) z (center sm) (marker sm) (path sm).

Lemma float_div_extent (extent extent' : Q) (dim : Z) :
  (0 < dim)%Z -> (extent' == extent)%Q ->
  exists x, float_div (extent' * StaticMaps.merc_radius * math_pi) (180 * dim) = inr x
            /\ (x == Spec.projected_extent extent dim)%Q.
Proof.
  intros Hd He. unfold float_div.
  destruct (180 * dim =? 0)%Z eqn:E; [apply Z.eqb_eq in E; lia |].
  eexists. split; [reflexivity |].
  unfold Spec.projected_extent, StaticMaps.merc_radius.
  rewrite inject_Z_mult, He. change (inject_Z 180) with 180%Q.
  assert (Hne : ~ (inject_Z dim == 0)%Q).
  { unfold Qeq. simpl. lia. }
  field. exact Hne.
Qed.

Lemma projected_extent_pos (extent : Q) (dim : Z) :
  (0 < extent)%Q -> (0 < dim)%Z -> (0 < Spec.projected_extent extent dim)%Q.
Proof.
  intros He Hd. unfold Spec.projected_extent.
  assert (Hq : (0 < inject_Z dim)%Q) by (change 0%Q with (inject_Z 0); now rewrite <- Zlt_Qlt).
  apply Qlt_shift_div_l; [lra |].
  unfold math_pi. nra.
Qed.

(** C6 (as amended).  For every path request whose bounding box has a
    positive extent on both axes, on an image of positive width and height,
    [StaticMaps.addPath] sets the center to the midpoint of the bounding box
    and the zoom to [min(zoomLat, zoomLon) - 180], where each per-axis zoom
    is [21 - k] and [k] is [log2(x)] cut toward zero ([int()], not [floor]),
    [x] being the axis' extent in degrees times pi times 85445659.44705395
    over 180 times the image dimension of that axis; the zoom the caller
    supplied plays no part. *)
Theorem addPath_center_and_zoom (self : StaticMaps) (points : list (Q * Q))
    (minLat maxLat minLon maxLon : Q) :
  Spec.is_min minLat (map fst points) ->
  Spec.is_max maxLat (map fst points) ->
  Spec.is_min minLon (map snd points) ->
  Spec.is_max maxLon (map snd points) ->
  (minLat < maxLat)%Q ->
  (minLon < maxLon)%Q ->
  (0 < width self)%Z ->
  (0 < height self)%Z ->
  exists sm' c kLat kLon,
    StaticMaps.addPath self points = inr sm'
    /\ center sm' = Some c
    /\ (lat c == (minLat + maxLat) / 2)%Q
    /\ (lon c == (minLon + maxLon) / 2)%Q
    /\ Spec.is_trunc_log2 kLat (Spec.projected_extent (maxLat - minLat) (height self))
    /\ Spec.is_trunc_log2 kLon (Spec.projected_extent (maxLon - minLon) (width self))
    /\ zoom sm' = (Z.min (21 - kLon) (21 - kLat) - 180)%Z
    /\ forall z, exists sm2,
         StaticMaps.addPath (set_zoom z self) points = inr sm2 /\ zoom sm2 = zoom sm'.
Proof.
  intros HminLat HmaxLat HminLon HmaxLon Hlat Hlon Hw Hh.
  destruct (list_min_spec _ _ HminLat) as (a & Ha & Ea).
  destruct (list_max_spec _ _ HmaxLat) as (b & Hb & Eb).
  destruct (list_min_spec _ _ HminLon) as (c & Hc & Ec).
  destruct (list_max_spec _ _ HmaxLon) as (d & Hd & Ed).
  destruct (float_div_extent (maxLat - minLat) (b - a) (height self) Hh) as (x & Hx & Ex).
  { now rewrite Ea, Eb. }
  destruct (float_div_extent (maxLon - minLon) (d - c) (width self) Hw) as (y & Hy & Ey).
  { now rewrite Ec, Ed. }
  assert (Px : (0 < x)%Q).
  { rewrite Ex. apply projected_extent_pos; [lra | exact Hh]. }
  assert (Py : (0 < y)%Q).
  { rewrite Ey. apply projected_extent_pos; [lra | exact Hw]. }
  assert (Hrun : forall s, width s = width self -> height s = height self ->
            StaticMaps.addPath s points
            = inr (mkStaticMaps (width s) (height s)
                     (Z.min (21 - int_log2 y) (21 - int_log2 x) - 180)
                     (Some (mk_Loc ((a + b) / 2) ((c + d) / 2))) (marker s)
                     (Some (fold_left (fun pa p => StaticMaps.addLoc pa (fst p) (snd p))
                                      points (mk_Path None "F00" 1 []))))).
  { intros s Ews Ehs. unfold StaticMaps.addPath.
    rewrite Ha, Hb, Hc, Hd, Ews, Ehs, Hx, (math_log2_int_pos x Px), Hy,
      (math_log2_int_pos y Py).
    reflexivity. }
  eexists _, _, (int_log2 x), (int_log2 y).
  split; [apply (Hrun self); reflexivity |]. simpl.
  split; [reflexivity |]. simpl.
  split; [now rewrite Ea, Eb |].
  split; [now rewrite Ec, Ed |].
  split.
  { pose proof (int_log2_spec x Px) as H. unfold Spec.is_trunc_log2, Spec.is_floor_log2 in *.
    rewrite <- Ex. exact H. }
  split.
  { pose proof (int_log2_spec y Py) as H. unfold Spec.is_trunc_log2, Spec.is_floor_log2 in *.
    rewrite <- Ey. exact H. }
  split; [reflexivity |].
  intros z. eexists. split; [apply (Hrun (set_zoom z self)); reflexivity | reflexivity].
Qed.

(** The 2 x 2 degree box of the specification on a 600 x 300 image, asked
    with zoom 8 and with zoom 3: the zoom becomes -172 either way. *)
Lemma addPath_center_and_zoom_witness :
  exists sm' sm2,
    StaticMaps.addPath (StaticMaps.__init__ 600 300 8) [(0, 0); (2, 2)]%Q = inr sm'
    /\ StaticMaps.addPath (StaticMaps.__init__ 600 300 3) [(0, 0); (2, 2)]%Q = inr sm2
    /\ zoom sm' = (-172)%Z /\ zoom sm2 = (-172)%Z
    /\ center sm' = Some (mk_Loc ((0 + 2) / 2) ((0 + 2) / 2)).
Proof.
  destruct (addPath_center_and_zoom (StaticMaps.__init__ 600 300 8) [(0, 0); (2, 2)]%Q
              0 2 0 2) as (sm' & c & kLat & kLon & Hrun & Hc & _ & _ & _ & _ & Hz & Hany).
  - split; [simpl; auto | intros x [<- | [<- | []]]; simpl; lra].
  - split; [simpl; auto | intros x [<- | [<- | []]]; simpl; lra].
  - split; [simpl; auto | intros x [<- | [<- | []]]; simpl; lra].
  - split; [simpl; auto | intros x [<- | [<- | []]]; simpl; lra].
  - reflexivity.
  - reflexivity.
  - reflexivity.
  - reflexivity.
  - destruct (Hany 3%Z) as (sm2 & Hrun2 & Hz2).
    exists sm', sm2. split; [exact Hrun |]. split; [exact Hrun2 |].
    assert (E : sm' = mkStaticMaps 600 300 (-172) (Some (mk_Loc ((0 + 2) / 2) ((0 + 2) / 2)))
                        None (path sm')).
    { vm_compute in Hrun. injection Hrun as <-. reflexivity. }
    rewrite Hz2. rewrite E. simpl. auto.
Defined.

(** C6, as the claim states it: on a box of 0.000126 x 0.000252 degrees the
    projected extents are below 1, [int()] cuts their logarithms toward zero,
    and the zoom is -159 where [21 - floor(log2(x))] gives -158. *)
Lemma addPath_zoom_is_not_floor :
  exists sm',
    StaticMaps.addPath (StaticMaps.__init__ 600 300 8) [(0, 0); (0.000126, 0.000252)]%Q
      = inr sm'
    /\ zoom sm' = (-159)%Z
    /\ (Z.min (Spec.axis_zoom (0.000252 - 0) 600) (Spec.axis_zoom (0.000126 - 0) 300) - 180
        = -158)%Z.
Proof. eexists. split; [vm_compute; reflexivity |]. split; vm_compute; reflexivity. Qed.

(** C9 (the code at the failing inputs).  A single point, two points on one
    latitude, two points on one longitude: the extent of an axis is 0 and
    [math.log(0.0, 2)] raises [ValueError]. *)
Theorem addPath_zero_extent_raises :
  StaticMaps.addPath (StaticMaps.__init__ 600 300 8) [(10, 20)]%Q
    = inl (ValueError "math domain error")
  /\ StaticMaps.addPath (StaticMaps.__init__ 600 300 8) [(10, 20); (10, 21)]%Q
    = inl (ValueError "math domain error")
  /\ StaticMaps.addPath (StaticMaps.__init__ 600 300 8) [(10, 20); (11, 20)]%Q
    = inl (ValueError "math domain error").
Proof. repeat split; vm_compute; reflexivity. Qed.

(** The same for every path: with no extent in latitude the call raises. *)
Lemma addPath_flat_latitude_raises (self : StaticMaps) (points : list (Q * Q)) (la : Q) :
  Spec.is_min la (map fst points) ->
  Spec.is_max la (map fst points) ->
  exists e, StaticMaps.addPath self points = inl e.
Proof.
  intros Hmin Hmax.
  destruct (list_min_spec _ _ Hmin) as (a & Ha & Ea).
  destruct (list_max_spec _ _ Hmax) as (b & Hb & Eb).
  unfold StaticMaps.addPath. rewrite Ha, Hb.
  destruct (list_min (map snd points)) as [e|c]; [eauto |].
  destruct (list_max (map snd points)) as [e|d]; [eauto |].
  unfold float_div at 1.
  destruct (180 * height self =? 0)%Z; [eauto |].
  rewrite math_log2_int_nonpos; [eauto |].
  assert (E : (b - a == 0)%Q) by (rewrite Ea, Eb; ring).
  rewrite E. unfold Qdiv. rewrite !Qmult_0_l. lra.
Qed.

(** ** Paths *)

Lemma string_length_app (a b : string) :
  String.length (a +:+ b) = (String.length a + String.length b)%nat.
Proof.
  induction a as [|c a IH]; [reflexivity |].
  rewrite string_app_cons. simpl. now rewrite IH.
Qed.

(** The two halves of [rsplit_sep] make up the path. *)
Lemma rsplit_sep_app (p : string) :
  fst (PyStr.rsplit_sep p) +:+ snd (PyStr.rsplit_sep p) = p.
Proof.
  induction p as [|c p IH]; [reflexivity |].
  simpl. destruct (PyStr.rsplit_sep p) as [h t]. simpl in IH.
  destruct h as [|c' h'].
  - rewrite string_app_nil_l in IH. subst t.
    destruct (Ascii.eqb c "/"); reflexivity.
  - simpl. rewrite !string_app_cons in *. now rewrite IH.
Qed.

Lemma rstrip_sep_length (s : string) :
  (String.length (PyStr.rstrip_sep s) <= String.length s)%nat.
Proof.
  induction s as [|c s IH]; [reflexivity |].
  simpl. destruct (PyStr.rstrip_sep s) as [|c' s'].
  - destruct (Ascii.eqb c "/"); simpl; lia.
  - simpl in *. lia.
Qed.

(** A path with a last component is longer than its directory. *)
Lemma dirname_shorter (p : string) :
  snd (PyStr.rsplit_sep p) <> EmptyString ->
  (String.length (PyStr.dirname p) < String.length p)%nat.
Proof.
  intros Ht. unfold PyStr.dirname, PyStr.split.
  pose proof (rsplit_sep_app p) as Happ.
  destruct (PyStr.rsplit_sep p) as [h t]. simpl in *.
  assert (Hlen : (String.length h < String.length p)%nat).
  { rewrite <- Happ, string_length_app. destruct t; [congruence | simpl; lia]. }
  destruct h as [|c h']; [simpl in *; lia |].
  destruct (PyStr.all_sep (String c h')); [exact Hlen |].
  pose proof (rstrip_sep_length (String c h')). lia.
Qed.

Lemma dirname_neq (p : string) :
  snd (PyStr.rsplit_sep p) <> EmptyString -> PyStr.dirname p <> p.
Proof.
  intros Ht E. apply dirname_shorter in Ht. rewrite E in Ht. lia.
Qed.

Fixpoint no_sep (s : string) : bool :=
  match s with
  | EmptyString => true
  | String c r => negb (Ascii.eqb c "/") && no_sep r
  end.

Lemma rsplit_sep_no_sep (t : string) :
  no_sep t = true -> PyStr.rsplit_sep t = (EmptyString, t).
Proof.
  induction t as [|c t IH]; [reflexivity |].
  simpl. intros [Hc Ht]%andb_true_iff. rewrite (IH Ht).
  apply negb_true_iff in Hc. now rewrite Hc.
Qed.

(** A path that ends in a separator-free suffix has a last component. *)
Lemma rsplit_sep_suffix (s t : string) :
  no_sep t = true -> t <> EmptyString ->
  snd (PyStr.rsplit_sep (s +:+ t)) <> EmptyString.
Proof.
  intros Hns Hne.
  assert (H : exists u, snd (PyStr.rsplit_sep (s +:+ t)) = u +:+ t).
  { induction s as [|c s IH].
    - exists EmptyString. rewrite string_app_nil_l, rsplit_sep_no_sep by exact Hns. reflexivity.
    - destruct IH as [u Hu]. rewrite string_app_cons. simpl.
      destruct (PyStr.rsplit_sep (s +:+ t)) as [h t']. simpl in Hu. subst t'.
      destruct h as [|c' h'].
      + pose proof (rsplit_sep_app (s +:+ t)) as Happ.
        destruct (Ascii.eqb c "/"); simpl.
        * exists s. reflexivity.
        * exists (String c s). reflexivity.
      + exists u. reflexivity. }
  destruct H as [u Hu]. rewrite Hu.
  destruct u; [now rewrite string_app_nil_l | rewrite string_app_cons; discriminate].
Qed.

Lemma all_sep_suffix (s t : string) :
  no_sep t = true -> t <> EmptyString -> PyStr.all_sep (s +:+ t) = false.
Proof.
  intros Hns Hne. induction s as [|c s IH].
  - rewrite string_app_nil_l. destruct t as [|c t]; [congruence |].
    simpl in *. apply andb_true_iff in Hns as [Hc _].
    apply negb_true_iff in Hc. now rewrite Hc.
  - rewrite string_app_cons. simpl. rewrite IH. apply andb_false_r.
Qed.

(** What matters of a lock path: it has a last component and is not the
    root. *)
Definition proper_path (p : string) : Prop :=
  snd (PyStr.rsplit_sep p) <> EmptyString /\ is_root p = false.

Lemma lockpath_proper (self : Disk) (layer : Layer) (sm : StaticMaps) (format lockpath : string) :
  Disk._lockpath self layer sm format = inr lockpath -> proper_path lockpath.
Proof.
  unfold Disk._lockpath. destruct (Disk._fullpath self layer sm format) as [e|fullpath];
    [discriminate |].
  intros [= <-]. split.
  - apply rsplit_sep_suffix; [reflexivity | discriminate].
  - unfold is_root. rewrite all_sep_suffix; [| reflexivity | discriminate].
    destruct (fullpath +:+ ".lock"); reflexivity.
Qed.

Lemma proper_path_nonempty (p : string) : proper_path p -> p <> EmptyString.
Proof. intros [H _] ->. now apply H. Qed.

Lemma proper_path_stat (f : gmap string node) (p : string) :
  proper_path p -> stat f p = f !! p.
Proof. intros [_ H]. unfold stat. now rewrite H. Qed.

(** ** Making and removing directories *)

Lemma split_tail (p : string) : snd (PyStr.split p) = snd (PyStr.rsplit_sep p).
Proof. unfold PyStr.split. now destruct (PyStr.rsplit_sep p). Qed.

Lemma fs_mkdir_exists (p : string) (mode : Z) (w : World) (n : node) :
  proper_path p -> fs w !! p = Some n -> fs_mkdir p mode w = inl EEXIST.
Proof.
  intros Hp Hn. unfold fs_mkdir, create_error.
  rewrite (proper_path_stat _ _ Hp), Hn.
  destruct p; [now apply proper_path_nonempty in Hp | reflexivity].
Qed.

Lemma fs_mkdir_fresh (p : string) (mode : Z) (w : World) :
  proper_path p -> fs w !! p = None -> is_dir (fs w) (PyStr.dirname p) = true ->
  fs_mkdir p mode w
  = inr (set_fs (<[p := Dir (mask_mode mode (proc_umask w)) (clock w)]> (fs w)) w).
Proof.
  intros Hp Hn Hd. unfold fs_mkdir, create_error, parent_error.
  rewrite (proper_path_stat _ _ Hp), Hn, Hd.
  destruct p; [now apply proper_path_nonempty in Hp | reflexivity].
Qed.

(** With the parent directory in place [os.makedirs] is one [mkdir]. *)
Lemma fs_makedirs_parent_ready (fuel : nat) (name : string) (mode : Z) (w : World) :
  proper_path name -> is_dir (fs w) (PyStr.dirname name) = true ->
  fs_makedirs fuel name mode w = fs_mkdir name mode w.
Proof.
  intros [Ht _] Hd. destruct fuel as [|fuel]; [reflexivity |]. simpl.
  unfold PyStr.dirname in Hd. rewrite <- split_tail in Ht.
  destruct (PyStr.split name) as [head tail]. simpl in *.
  destruct tail as [|c tail]; [congruence |].
  destruct head as [|c' head]; [reflexivity |].
  unfold is_dir in Hd.
  destruct (stat (fs w) (String c' head)) as [[|]|] eqn:Hs; try discriminate.
  rewrite bool_decide_true by eauto. reflexivity.
Qed.

Lemma is_dir_insert_other (f : gmap string node) (p d : string) (n : node) :
  d <> p -> is_dir (<[p := n]> f) d = is_dir f d.
Proof.
  intros Hne. unfold is_dir, stat. destruct d; [reflexivity |].
  destruct (is_root _); [reflexivity |]. now rewrite lookup_insert_ne.
Qed.

Lemma is_dir_delete_other (f : gmap string node) (p d : string) :
  d <> p -> is_dir (delete p f) d = is_dir f d.
Proof.
  intros Hne. unfold is_dir, stat. destruct d; [reflexivity |].
  destruct (is_root _); [reflexivity |]. now rewrite lookup_delete_ne.
Qed.

(** ** One round of Disk.lock *)

Definition lock_mode (self : Disk) : Z := mask_mode 511 (umask self).

(** The world after a round that found the marker and slept. *)
Definition slept (self : Disk) (lockpath : string) (w : World) : World :=
  mkWorld (fs w) (fds w) (next_fd w) (Qred (clock w + (1 # 5))) (proc_umask w)
          (rename_replaces w) (tmp_names w) (tmp_pos w)
          (trace w ++ [Sys (Umask (umask self)); Sys (Makedirs lockpath (lock_mode self));
                       Sys (Sleep (1 # 5)); Sys (Umask (proc_umask w))]).

(** The world after a round that removed the marker and made its own. *)
Definition reclaimed (self : Disk) (lockpath : string) (w : World) : World :=
  mkWorld (<[lockpath := Dir (mask_mode (lock_mode self) (umask self)) (clock w)]> (fs w))
          (fds w) (next_fd w) (clock w) (proc_umask w)
          (rename_replaces w) (tmp_names w) (tmp_pos w)
          (trace w ++ [Sys (Umask (umask self)); Sys (Rmdir lockpath);
                       Sys (Makedirs lockpath (lock_mode self)); Sys (Umask (proc_umask w))]).

(** The world after a round that found no marker and made its own. *)
Definition acquired (self : Disk) (lockpath : string) (w : World) : World :=
  mkWorld (<[lockpath := Dir (mask_mode (lock_mode self) (umask self)) (clock w)]> (fs w))
          (fds w) (next_fd w) (clock w) (proc_umask w)
          (rename_replaces w) (tmp_names w) (tmp_pos w)
          (trace w ++ [Sys (Umask (umask self));
                       Sys (Makedirs lockpath (lock_mode self)); Sys (Umask (proc_umask w))]).

Ltac world_simpl :=
  cbv beta;
  cbn [fs fds next_fd clock proc_umask rename_replaces tmp_names tmp_pos trace fst snd].

Ltac unfold_os :=
  unfold os_umask, os_makedirs, os_rmdir, time_time, time_sleep, os_path_exists,
    os_stat_mtime, open_read, os_unlink, os_remove, fs_unlink, os_write, os_close,
    os_rename, os_chmod, mkstemp,
    mbind, mret, M_bind, M_ret, emit, modify, act, lift, raise, try_except, try_finally;
  unfold add_event, set_proc_umask, set_fs, set_clock, set_fds, set_tmp_pos;
  world_simpl.

Lemma app_events (t : list event) (a b c d : event) :
  (((t ++ [a]) ++ [b]) ++ [c]) ++ [d] = t ++ [a; b; c; d].
Proof. now rewrite <- !app_assoc. Qed.

Lemma app_events3 (t : list event) (a b c : event) :
  ((t ++ [a]) ++ [b]) ++ [c] = t ++ [a; b; c].
Proof. now rewrite <- !app_assoc. Qed.

(** While the acquirer's clock has not passed [due], an existing marker
    stays, whatever its age: the round sleeps 200 ms. *)
Lemma lock_attempt_held (self : Disk) (lockpath : string) (due : Q) (w : World) (n : node) :
  proper_path lockpath ->
  fs w !! lockpath = Some n ->
  is_dir (fs w) (PyStr.dirname lockpath) = true ->
  (clock w <= due)%Q ->
  Disk.lock_attempt self lockpath due w = (Val false, slept self lockpath w).
Proof.
  intros Hp Hn Hd Hdue. apply Qltb_ge in Hdue.
  unfold Disk.lock_attempt. unfold_os. rewrite Hdue. world_simpl.
  rewrite fs_makedirs_parent_ready by (simpl; assumption).
  rewrite (fs_mkdir_exists _ _ _ n) by (simpl; assumption).
  simpl. unfold slept, lock_mode.
  now rewrite app_events.
Qed.

(** Once the acquirer's clock has passed [due], an existing (empty) marker
    is removed and made anew by the acquirer, whatever its age. *)
Lemma lock_attempt_reclaims (self : Disk) (lockpath : string) (due : Q) (w : World)
    (mode : Z) (mtime : Q) :
  proper_path lockpath ->
  fs w !! lockpath = Some (Dir mode mtime) ->
  has_entries (fs w) lockpath = false ->
  is_dir (fs w) (PyStr.dirname lockpath) = true ->
  (due < clock w)%Q ->
  Disk.lock_attempt self lockpath due w = (Val true, reclaimed self lockpath w).
Proof.
  intros Hp Hn He Hd Hdue. apply Qltb_lt in Hdue.
  unfold Disk.lock_attempt. unfold_os. rewrite Hdue. world_simpl.
  rewrite Hn, He. world_simpl.
  rewrite fs_makedirs_parent_ready; simpl; [| assumption |].
  2:{ rewrite is_dir_delete_other; [assumption | apply dirname_neq, Hp]. }
  rewrite fs_mkdir_fresh; simpl; [| assumption | apply lookup_delete_eq |].
  2:{ rewrite is_dir_delete_other; [assumption | apply dirname_neq, Hp]. }
  unfold reclaimed, set_fs, lock_mode. simpl.
  rewrite insert_delete_eq, app_events. reflexivity.
Qed.

(** Without a marker the first round makes it. *)
Lemma lock_attempt_free (self : Disk) (lockpath : string) (due : Q) (w : World) :
  proper_path lockpath ->
  fs w !! lockpath = None ->
  is_dir (fs w) (PyStr.dirname lockpath) = true ->
  (clock w <= due)%Q ->
  Disk.lock_attempt self lockpath due w = (Val true, acquired self lockpath w).
Proof.
  intros Hp Hn Hd Hdue. apply Qltb_ge in Hdue.
  unfold Disk.lock_attempt. unfold_os. rewrite Hdue. world_simpl.
  rewrite fs_makedirs_parent_ready by (simpl; assumption).
  rewrite fs_mkdir_fresh by (simpl; assumption).
  simpl. unfold acquired, set_fs, lock_mode. simpl.
  now rewrite app_events3.
Qed.

(** ** Disk.lock: the whole loop *)

(** [k] rounds that found the marker and slept. *)
Fixpoint slept_rounds (k : nat) (self : Disk) (lockpath : string) (w : World) : World :=
  match k with
  | O => w
  | S k' => slept_rounds k' self lockpath (slept self lockpath w)
  end.

Definition is_sleep (e : event) : bool :=
  match e with Sys (Sleep _) => true | _ => false end.

Definition count_sleeps (t : list event) : nat := length (filter is_sleep t).

Lemma slept_rounds_fs (k : nat) (self : Disk) (lockpath : string) (w : World) :
  fs (slept_rounds k self lockpath w) = fs w.
Proof. revert w. induction k as [|k IH]; intros w; simpl; [reflexivity | now rewrite IH]. Qed.

Lemma slept_rounds_clock (k : nat) (self : Disk) (lockpath : string) (w : World) :
  (clock (slept_rounds k self lockpath w) == clock w + inject_Z (Z.of_nat k) * (1 # 5))%Q.
Proof.
  revert w. induction k as [|k IH]; intros w.
  - simpl. change (inject_Z 0) with 0%Q. ring.
  - cbn [slept_rounds]. rewrite IH. unfold slept. cbn [clock].
    rewrite Qred_correct, Nat2Z.inj_succ. unfold Z.succ. rewrite inject_Z_plus.
    change (inject_Z 1) with 1%Q. ring.
Qed.

Lemma count_sleeps_app (t u : list event) :
  count_sleeps (t ++ u) = (count_sleeps t + count_sleeps u)%nat.
Proof. unfold count_sleeps. now rewrite filter_app, length_app. Qed.

Lemma slept_rounds_sleeps (k : nat) (self : Disk) (lockpath : string) (w : World) :
  count_sleeps (trace (slept_rounds k self lockpath w)) = (count_sleeps (trace w) + k)%nat.
Proof.
  revert w. induction k as [|k IH]; intros w; simpl; [lia |].
  rewrite IH. unfold slept. cbn [trace]. rewrite count_sleeps_app.
  change (count_sleeps [_; _; _; _]) with 1%nat. lia.
Qed.

(** As long as the deadline has not passed, the loop goes round. *)
Lemma lock_loop_sleeps (k fuel : nat) (self : Disk) (lockpath : string) (due : Q)
    (w : World) (n : node) :
  proper_path lockpath ->
  fs w !! lockpath = Some n ->
  is_dir (fs w) (PyStr.dirname lockpath) = true ->
  (clock w + inject_Z (Z.of_nat k) * (1 # 5) <= due + (1 # 5))%Q ->
  Disk.lock_loop (k + fuel) self lockpath due w
  = Disk.lock_loop fuel self lockpath due (slept_rounds k self lockpath w).
Proof.
  intros Hp. revert w. induction k as [|k IH]; intros w Hn Hd Hdue; [reflexivity |].
  rewrite Nat2Z.inj_succ in Hdue. unfold Z.succ in Hdue. rewrite inject_Z_plus in Hdue.
  change (inject_Z 1) with 1%Q in Hdue.
  assert (H0 : (0 <= inject_Z (Z.of_nat k))%Q).
  { change 0%Q with (inject_Z 0). rewrite <- Zle_Qle. lia. }
  cbn [Nat.add Disk.lock_loop slept_rounds].
  unfold mbind at 1, M_bind at 1.
  rewrite (lock_attempt_held self lockpath due w n Hp Hn Hd) by lra.
  apply IH; [exact Hn | exact Hd |].
  unfold slept. cbn [clock]. rewrite Qred_correct. lra.
Qed.

Lemma lock_loop_out_of_fuel (k : nat) (self : Disk) (lockpath : string) (due : Q)
    (w : World) (n : node) :
  proper_path lockpath ->
  fs w !! lockpath = Some n ->
  is_dir (fs w) (PyStr.dirname lockpath) = true ->
  (clock w + inject_Z (Z.of_nat k) * (1 # 5) <= due + (1 # 5))%Q ->
  Disk.lock_loop k self lockpath due w = (OutOfFuel, slept_rounds k self lockpath w).
Proof.
  intros Hp Hn Hd Hdue.
  replace k with (k + 0)%nat at 1 by lia.
  rewrite (lock_loop_sleeps k 0 self lockpath due w n Hp Hn Hd Hdue). reflexivity.
Qed.

Lemma lock_run (fuel : nat) (self : Disk) (layer : Layer) (sm : StaticMaps)
    (format lockpath : string) (w : World) :
  Disk._lockpath self layer sm format = inr lockpath ->
  Disk.lock fuel self layer sm format w
  = Disk.lock_loop fuel self lockpath (clock w + inject_Z (stale_lock_timeout layer))
      (add_event (CacheCall MLock sm format) w).
Proof. intros Hl. unfold Disk.lock. rewrite Hl. reflexivity. Qed.

(** Rounds that are enough for an acquirer whose clock moves by its own
    sleeps only; a clock that also moves between the calls needs fewer. *)
Definition waiting_rounds (layer : Layer) : nat := Z.to_nat (5 * stale_lock_timeout layer + 1).

(** With an empty marker in place that nobody else removes, the loop
    returns only from a round whose clock reading has passed [due], and
    what it leaves at the lock path is the directory made in that round. *)
Lemma lock_loop_returns_late (fuel : nat) (self : Disk) (lockpath : string) (due : Q)
    (w w' : World) (mode : Z) (mtime : Q) :
  proper_path lockpath ->
  fs w !! lockpath = Some (Dir mode mtime) ->
  has_entries (fs w) lockpath = false ->
  is_dir (fs w) (PyStr.dirname lockpath) = true ->
  Disk.lock_loop fuel self lockpath due w = (Val tt, w') ->
  (due < clock w')%Q
  /\ fs w' = <[lockpath := Dir (mask_mode (lock_mode self) (umask self)) (clock w')]> (fs w).
Proof.
  intros Hp. revert w. induction fuel as [|fuel IH]; intros w Hn He Hd; [discriminate |].
  cbn [Disk.lock_loop]. unfold mbind, M_bind.
  destruct (Qlt_le_dec due (clock w)) as [Hlate | Hearly].
  - rewrite (lock_attempt_reclaims self lockpath due w mode mtime Hp Hn He Hd Hlate).
    intros [= <-]. unfold reclaimed. cbn [clock fs]. auto.
  - rewrite (lock_attempt_held self lockpath due w (Dir mode mtime) Hp Hn Hd Hearly).
    intros Hrun. apply IH in Hrun; [exact Hrun | exact Hn | exact He | exact Hd].
Qed.

(** C1 (as amended).  [Disk.lock] never looks at the age of the marker: what
    decides is the acquirer's own deadline [due], its arrival time plus
    [stale_lock_timeout].  In a round whose clock has not passed [due] an
    existing marker stays and the acquirer sleeps 200 ms; in a round whose
    clock has passed [due] an existing (empty) marker is removed and made
    anew by the acquirer; both whatever the marker's age.  So an acquirer that
    arrives at a marker that nobody removes, however old the marker is,
    never holds the lock before its own clock has passed [due] (it waits out
    its own full timeout); it does get the lock then, and holds it because
    its own directory creation succeeded.  How many sleeps that takes depends
    on how fast the clock moves, and is not stated. *)
Theorem lock_waits_its_own_timeout (self : Disk) (layer : Layer) (sm : StaticMaps)
    (format lockpath : string) (w : World) (mode : Z) (mtime : Q) :
  Disk._lockpath self layer sm format = inr lockpath ->
  fs w !! lockpath = Some (Dir mode mtime) ->
  has_entries (fs w) lockpath = false ->
  is_dir (fs w) (PyStr.dirname lockpath) = true ->
  (0 <= stale_lock_timeout layer)%Z ->
  (forall due w1 n,
      fs w1 !! lockpath = Some n -> is_dir (fs w1) (PyStr.dirname lockpath) = true ->
      (clock w1 <= due)%Q ->
      Disk.lock_attempt self lockpath due w1 = (Val false, slept self lockpath w1))
  /\ (forall due w1 mode1 mtime1,
      fs w1 !! lockpath = Some (Dir mode1 mtime1) -> has_entries (fs w1) lockpath = false ->
      is_dir (fs w1) (PyStr.dirname lockpath) = true ->
      (due < clock w1)%Q ->
      Disk.lock_attempt self lockpath due w1 = (Val true, reclaimed self lockpath w1))
  /\ (forall fuel w',
      Disk.lock fuel self layer sm format w = (Val tt, w') ->
      (clock w + inject_Z (stale_lock_timeout layer) < clock w')%Q
      /\ fs w' = <[lockpath := Dir (mask_mode (lock_mode self) (umask self)) (clock w')]> (fs w))
  /\ exists fuel w', Disk.lock fuel self layer sm format w = (Val tt, w').
Proof.
  intros Hl Hn He Hd HT.
  pose proof (lockpath_proper _ _ _ _ _ Hl) as Hp.
  set (T := stale_lock_timeout layer) in *.
  set (w0 := add_event (CacheCall MLock sm format) w).
  split; [| split; [| split]].
  - intros due w1 n Hn1 Hd1 Hc. now apply (lock_attempt_held _ _ _ _ n).
  - intros due w1 m1 t1 Hn1 He1 Hd1 Hc. now apply (lock_attempt_reclaims _ _ _ _ m1 t1).
  - intros fuel w' Hrun. rewrite (lock_run _ _ _ _ _ _ _ Hl) in Hrun. fold T w0 in Hrun.
    exact (lock_loop_returns_late fuel self lockpath _ w0 w' mode mtime Hp Hn He Hd Hrun).
  - assert (Hk : (inject_Z (Z.of_nat (waiting_rounds layer)) == 5 * inject_Z T + 1)%Q).
    { unfold waiting_rounds. fold T. rewrite Z2Nat.id by lia.
      rewrite inject_Z_plus, inject_Z_mult. reflexivity. }
    assert (Hdue : (clock w0 + inject_Z (Z.of_nat (waiting_rounds layer)) * (1 # 5)
                    <= clock w + inject_Z T + (1 # 5))%Q).
    { rewrite Hk. simpl. lra. }
    exists (S (waiting_rounds layer)).
    rewrite (lock_run _ _ _ _ _ _ _ Hl). fold T w0.
    replace (S (waiting_rounds layer)) with (waiting_rounds layer + 1)%nat by lia.
    rewrite (lock_loop_sleeps _ 1 self lockpath _ w0 (Dir mode mtime) Hp Hn Hd Hdue).
    set (wk := slept_rounds (waiting_rounds layer) self lockpath w0).
    assert (Hck : (clock wk == clock w + inject_Z T + (1 # 5))%Q).
    { unfold wk. rewrite slept_rounds_clock, Hk. simpl. field. }
    cbn [Disk.lock_loop]. unfold mbind, M_bind.
    rewrite (lock_attempt_reclaims self lockpath _ wk mode mtime Hp);
      [| unfold wk; rewrite slept_rounds_fs; assumption ..| rewrite Hck; lra].
    eexists. reflexivity.
Qed.

(** A lock marker made at clock reading [made], seen at clock reading 1000;
    the directories of the cache are in place. *)
Definition example_lockpath : string := "cache/markers/8/1450000/1020000_600x300.png.lock".

Definition world_with_marker (made : Q) : World :=
  mkWorld {[ "cache" := Dir 493 0;
             "cache/markers" := Dir 493 0;
             "cache/markers/8" := Dir 493 0;
             "cache/markers/8/1450000" := Dir 493 0;
             example_lockpath := Dir 493 made ]}
          ∅ 3 1000 18 true (fun n => PyStr.str (Z.of_nat n)) 0 [].

(** [stale_lock_timeout = 15] and a marker that is 1000 s old, met at clock
    reading 1000: a call that returns does so after its clock has passed
    1015, with its own marker in place; and the call does return. *)
Lemma lock_waits_its_own_timeout_witness :
  (forall fuel w',
      Disk.lock fuel (mkDisk "cache" 18) (example_layer example_map) example_map "PNG"
        (world_with_marker 0) = (Val tt, w') ->
      (clock (world_with_marker 0) + inject_Z 15 < clock w')%Q
      /\ fs w' = <[example_lockpath := Dir (mask_mode (lock_mode (mkDisk "cache" 18)) 18)
                                          (clock w')]> (fs (world_with_marker 0)))
  /\ exists fuel w',
      Disk.lock fuel (mkDisk "cache" 18) (example_layer example_map) example_map "PNG"
        (world_with_marker 0) = (Val tt, w').
Proof.
  destruct (lock_waits_its_own_timeout (mkDisk "cache" 18) (example_layer example_map)
              example_map "PNG" example_lockpath (world_with_marker 0) 493 0)
    as (_ & _ & Hlate & Hret).
  - vm_compute. reflexivity.
  - vm_compute. reflexivity.
  - vm_compute. reflexivity.
  - vm_compute. reflexivity.
  - vm_compute. discriminate.
  - split; [exact Hlate | exact Hret].
Defined.

(** C1, as the claim states it.  With [stale_lock_timeout = 15]:
    an acquirer that arrives at a marker already 1000 s old does not take
    it over: its first round leaves the marker and sleeps, and no call on
    that marker returns before the acquirer's own clock has passed 1015;
    an acquirer whose own deadline has passed removes a marker that is
    0.1 s old. *)
Lemma lock_ignores_marker_age :
  (15 < clock (world_with_marker 0) - 0)%Q
  /\ Disk.lock_attempt (mkDisk "cache" 18) example_lockpath (1000 + 15) (world_with_marker 0)
     = (Val false, slept (mkDisk "cache" 18) example_lockpath (world_with_marker 0))
  /\ (forall fuel w',
        Disk.lock fuel (mkDisk "cache" 18) (example_layer example_map) example_map "PNG"
          (world_with_marker 0) = (Val tt, w') ->
        (1015 < clock w')%Q)
  /\ (clock (world_with_marker (9999 # 10)) - (9999 # 10) <= 15)%Q
  /\ Disk.lock_attempt (mkDisk "cache" 18) example_lockpath (9995 # 10)
       (world_with_marker (9999 # 10))
     = (Val true, reclaimed (mkDisk "cache" 18) example_lockpath
                    (world_with_marker (9999 # 10))).
Proof.
  assert (Hp : proper_path example_lockpath).
  { apply (lockpath_proper (mkDisk "cache" 18) (example_layer example_map) example_map "PNG").
    vm_compute. reflexivity. }
  split; [vm_compute; reflexivity |]. split; [| split; [| split]].
  - apply (lock_attempt_held _ _ _ _ (Dir 493 0) Hp); vm_compute; try reflexivity.
    discriminate.
  - intros fuel w' Hrun.
    rewrite (lock_run _ _ _ _ _ example_lockpath) in Hrun by (vm_compute; reflexivity).
    apply (lock_loop_returns_late fuel _ _ _ _ w' 493 0 Hp) in Hrun;
      [| vm_compute; reflexivity ..].
    destruct Hrun as [Hlate _]. exact Hlate.
  - vm_compute. discriminate.
  - apply (lock_attempt_reclaims _ _ _ _ 493 (9999 # 10) Hp); vm_compute; reflexivity.
Qed.


(** ** Disk.save *)

Lemma create_error_none (f : gmap string node) (p : string) :
  create_error f p = None -> f !! p = None /\ parent_error f p = None.
Proof.
  unfold create_error, stat. destruct p as [|c p]; [discriminate |].
  destruct (is_root (String c p)); [discriminate |].
  destruct (f !! String c p); [discriminate | auto].
Qed.

(** [mkdir] and [makedirs] only add entries. *)
Lemma fs_mkdir_extends (p : string) (mode : Z) (w w' : World) :
  fs_mkdir p mode w = inr w' ->
  fs w ⊆ fs w' /\ fds w' = fds w /\ next_fd w' = next_fd w /\ clock w' = clock w
  /\ proc_umask w' = proc_umask w /\ rename_replaces w' = rename_replaces w
  /\ tmp_names w' = tmp_names w /\ tmp_pos w' = tmp_pos w /\ trace w' = trace w.
Proof.
  unfold fs_mkdir. destruct (create_error (fs w) p) eqn:E; [discriminate |].
  intros [= <-]. apply create_error_none in E as [E _]. simpl.
  split; [now apply insert_subseteq | repeat split].
Qed.

Lemma fs_makedirs_extends (fuel : nat) (name : string) (mode : Z) (w w' : World) :
  fs_makedirs fuel name mode w = inr w' ->
  fs w ⊆ fs w' /\ fds w' = fds w /\ next_fd w' = next_fd w /\ clock w' = clock w
  /\ proc_umask w' = proc_umask w /\ rename_replaces w' = rename_replaces w
  /\ tmp_names w' = tmp_names w /\ tmp_pos w' = tmp_pos w /\ trace w' = trace w.
Proof.
  revert name w w'. induction fuel as [|fuel IH]; intros name w w'; simpl.
  - apply fs_mkdir_extends.
  - destruct (PyStr.split name) as [head tail].
    destruct (match tail with
              | EmptyString => PyStr.split head
              | String _ _ => (head, tail)
              end) as [head' tail'].
    destruct head' as [|c h]; [apply fs_mkdir_extends |].
    destruct tail' as [|c' t]; [apply fs_mkdir_extends |].
    destruct (bool_decide _); [apply fs_mkdir_extends |].
    destruct (fs_makedirs fuel (String c h) mode w) as [errno|w1] eqn:E1.
    + destruct (errno =? EEXIST)%Z; [| discriminate].
      destruct (String.eqb _ _); [| apply fs_mkdir_extends].
      intros [= <-]. repeat split; reflexivity.
    + apply IH in E1 as (S1 & F1 & N1 & C1 & U1 & R1 & T1 & P1 & X1).
      destruct (String.eqb _ _).
      * intros [= <-]. repeat split; assumption.
      * intros H. apply fs_mkdir_extends in H as (S2 & F2 & N2 & C2 & U2 & R2 & T2 & P2 & X2).
        repeat split; try congruence. now transitivity (fs w1).
Qed.

(** The directory step of [Disk.save]. *)
Definition ensure_dirs (self : Disk) (fullpath : string) : M unit :=
  umask_old ← os_umask (umask self);
  try_finally
    (try_except
       (os_makedirs (PyStr.dirname fullpath) (mask_mode 511 (umask self)))
       (fun e => match e with
                 | OSError errno => if negb (errno =? 17)%Z then raise e else mret tt
                 | _ => raise e
                 end))
    (os_umask umask_old;; mret tt).

(** The publishing step of [Disk.save]: temporary file, rename, mode. *)
Definition publish (self : Disk) (body format fullpath : string) : M unit :=
  let suffix := "." +:+ PyStr.lower format in
  '(fh, tmp_path) ← mkstemp (cachepath self) suffix;
  os_write fh body;;
  os_close fh;;
  try_except (os_rename tmp_path fullpath)
    (fun e => match e with
              | OSError _ => os_unlink fullpath;; os_rename tmp_path fullpath
              | _ => raise e
              end);;
  os_chmod fullpath (mask_mode 438 (umask self)).

Lemma save_steps (self : Disk) (body : string) (layer : Layer) (sm : StaticMaps)
    (format fullpath : string) :
  Disk._fullpath self layer sm format = inr fullpath ->
  Disk.save self body layer sm format
  = (emit (CacheCall MSave sm format);;
     ensure_dirs self fullpath;;
     publish self body format fullpath).
Proof. intros Hp. unfold Disk.save. rewrite Hp. reflexivity. Qed.

Definition dirs_calls (self : Disk) (fullpath : string) (w : World) : list syscall :=
  [Umask (umask self);
   Makedirs (PyStr.dirname fullpath) (mask_mode 511 (umask self));
   Umask (proc_umask w)].

Lemma ensure_dirs_spec (self : Disk) (fullpath : string) (w : World) :
  exists r w',
    ensure_dirs self fullpath w = (r, w')
    /\ trace w' = trace w ++ map Sys (dirs_calls self fullpath w)
    /\ r <> OutOfFuel
    /\ (r = Val tt ->
        fs w ⊆ fs w' /\ proc_umask w' = proc_umask w /\ clock w' = clock w
        /\ rename_replaces w' = rename_replaces w).
Proof.
  unfold ensure_dirs, dirs_calls. unfold_os.
  destruct (fs_makedirs _ _ _ _) as [errno|w1] eqn:E.
  - destruct (errno =? 17)%Z eqn:E17; world_simpl; cbn [negb].
    + eexists _, _. split; [reflexivity |]. world_simpl. rewrite app_events3.
      repeat split; try discriminate; reflexivity.
    + eexists _, _. split; [reflexivity |]. world_simpl. rewrite app_events3.
      repeat split; try discriminate; reflexivity.
  - apply fs_makedirs_extends in E as (S1 & F1 & N1 & C1 & U1 & R1 & T1 & P1 & X1).
    simpl in *.
    eexists _, _. split; [reflexivity |]. world_simpl. rewrite X1, app_events3.
    repeat split; try discriminate; try assumption; reflexivity.
Qed.

(** A temporary name of [mkstemp] in the storage root. *)
Definition temp_in (self : Disk) (format tmp : string) : Prop :=
  exists name,
    tmp = PyStr.pathjoin (cachepath self) ("tmp" +:+ name +:+ "." +:+ PyStr.lower format).

Lemma mkstemp_inner_spec (tries : nat) (dir suffix : string) (w : World) :
  match mkstemp_inner tries dir suffix w with
  | (Val (fd, file), w') =>
      (exists name, file = PyStr.pathjoin dir ("tmp" +:+ name +:+ suffix))
      /\ fs w !! file = None
      /\ fs w' = <[file := File EmptyString (mask_mode 384 (proc_umask w)) (clock w)]> (fs w)
      /\ fds w' !! fd = Some file
      /\ trace w' = trace w /\ clock w' = clock w
      /\ rename_replaces w' = rename_replaces w
  | (Exn e, w') => trace w' = trace w
  | (OutOfFuel, _) => False
  end.
Proof.
  revert w. induction tries as [|tries IH]; intros w; simpl; [reflexivity |].
  unfold fs_open_excl. cbn [fs set_tmp_pos].
  destruct (create_error (fs w) _) as [errno|] eqn:E.
  - destruct (errno =? EEXIST)%Z; [| reflexivity].
    specialize (IH (set_tmp_pos (S (tmp_pos w)) w)).
    destruct (mkstemp_inner tries dir suffix _) as [[[fd file]|e|] w']; exact IH.
  - apply create_error_none in E as [E _]. simpl.
    repeat split; eauto. apply lookup_insert_eq.
Qed.

Definition save_mode (self : Disk) : Z := mask_mode 438 (umask self).

(** The ways the publishing step can go from the world [w]: the system
    calls it makes, how it ends, and what is at the key's path then. *)
Inductive publish_run (self : Disk) (body format fullpath : string) (w : World)
  : outcome unit -> World -> list syscall -> Prop :=
| publish_no_temp (e : exn) (w' : World) :
    publish_run self body format fullpath w (Exn e) w'
      [Mkstemp (cachepath self) ("." +:+ PyStr.lower format)]
| publish_renamed (fd : Z) (tmp : string) (mtime : Q) (w' : World) :
    temp_in self format tmp ->
    fs w !! tmp = None ->
    fs w' !! fullpath = Some (File body (save_mode self) mtime) ->
    (tmp <> fullpath -> fs w' !! tmp = None) ->
    publish_run self body format fullpath w (Val tt) w'
      [Mkstemp (cachepath self) ("." +:+ PyStr.lower format);
       Write fd body; Close fd; Rename tmp fullpath;
       Chmod fullpath (save_mode self)]
| publish_renamed_on_retry (fd : Z) (tmp : string) (mtime : Q) (w' : World) :
    temp_in self format tmp ->
    fs w !! tmp = None ->
    fs w' !! fullpath = Some (File body (save_mode self) mtime) ->
    (tmp <> fullpath -> fs w' !! tmp = None) ->
    publish_run self body format fullpath w (Val tt) w'
      [Mkstemp (cachepath self) ("." +:+ PyStr.lower format);
       Write fd body; Close fd; Rename tmp fullpath;
       Unlink fullpath; Rename tmp fullpath;
       Chmod fullpath (save_mode self)]
| publish_unlink_fails (fd : Z) (tmp : string) (e : exn) (w' : World) :
    temp_in self format tmp ->
    fs w !! tmp = None ->
    publish_run self body format fullpath w (Exn e) w'
      [Mkstemp (cachepath self) ("." +:+ PyStr.lower format);
       Write fd body; Close fd; Rename tmp fullpath; Unlink fullpath]
| publish_retry_fails (fd : Z) (tmp : string) (e : exn) (w' : World) :
    temp_in self format tmp ->
    fs w !! tmp = None ->
    publish_run self body format fullpath w (Exn e) w'
      [Mkstemp (cachepath self) ("." +:+ PyStr.lower format);
       Write fd body; Close fd; Rename tmp fullpath;
       Unlink fullpath; Rename tmp fullpath].

(** Running a bind whose first computation is known. *)
Lemma bind_val {A B} (m : M A) (f : A -> M B) (w w' : World) (a : A) :
  m w = (Val a, w') -> (m ≫= f) w = f a w'.
Proof. intros H. unfold mbind, M_bind. now rewrite H. Qed.

Lemma bind_exn {A B} (m : M A) (f : A -> M B) (w w' : World) (e : exn) :
  m w = (Exn e, w') -> (m ≫= f) w = (Exn e, w').
Proof. intros H. unfold mbind, M_bind. now rewrite H. Qed.

Lemma try_except_val {A} (m : M A) (h : exn -> M A) (w w' : World) (a : A) :
  m w = (Val a, w') -> try_except m h w = (Val a, w').
Proof. intros H. unfold try_except. now rewrite H. Qed.

Lemma try_except_exn {A} (m : M A) (h : exn -> M A) (w w' : World) (e : exn) :
  m w = (Exn e, w') -> try_except m h w = h e w'.
Proof. intros H. unfold try_except. now rewrite H. Qed.

Lemma bind_try_except_exn {A B} (m : M A) (h : exn -> M A) (f : A -> M B)
    (w w' : World) (e : exn) :
  m w = (Exn e, w') -> (try_except m h ≫= f) w = (h e ≫= f) w'.
Proof. intros H. unfold mbind, M_bind, try_except. now rewrite H. Qed.

Lemma bind_assoc_run {A B C} (m : M A) (g : A -> M B) (f : B -> M C) (w : World) :
  ((m ≫= g) ≫= f) w = (m ≫= (fun a => g a ≫= f)) w.
Proof. unfold mbind, M_bind. destruct (m w) as [[a|e|] w']; reflexivity. Qed.

(** The system calls of the publishing step, one by one. *)
Lemma os_write_run (fd : Z) (data p old : string) (mode : Z) (t : Q) (w : World) :
  fds w !! fd = Some p ->
  fs w !! p = Some (File old mode t) ->
  os_write fd data w
  = (Val tt, set_fs (<[p := File (old +:+ data) mode (clock w)]> (fs w))
               (add_event (Sys (Write fd data)) w)).
Proof. intros Hfd Hp. unfold os_write. unfold_os. now rewrite Hfd, Hp. Qed.

Lemma os_close_run (fd : Z) (p : string) (w : World) :
  fds w !! fd = Some p ->
  os_close fd w
  = (Val tt, set_fds (delete fd (fds w)) (next_fd w) (add_event (Sys (Close fd)) w)).
Proof. intros Hfd. unfold os_close. unfold_os. now rewrite Hfd. Qed.

Lemma os_rename_cases (src dst : string) (w : World) :
  (exists data mode mtime,
      fs w !! src = Some (File data mode mtime)
      /\ os_rename src dst w
         = (Val tt, set_fs (<[dst := File data mode mtime]> (delete src (fs w)))
                      (add_event (Sys (Rename src dst)) w)))
  \/ (exists errno,
        os_rename src dst w = (Exn (OSError errno), add_event (Sys (Rename src dst)) w)).
Proof.
  unfold os_rename. unfold_os.
  destruct (fs w !! src) as [[data mode mtime|mode mtime]|] eqn:Hs; [| right; eauto ..].
  destruct dst as [|c dst]; [right; eauto |].
  destruct (stat (fs w) (String c dst)) as [[d m t|m t]|].
  - destruct (rename_replaces w); [left; eauto 6 | right; eauto].
  - right; eauto.
  - destruct (parent_error _ _); [right; eauto | left; eauto 6].
Qed.

Lemma os_unlink_cases (p : string) (w : World) :
  os_unlink p w = (Val tt, set_fs (delete p (fs w)) (add_event (Sys (Unlink p)) w))
  \/ (exists errno, os_unlink p w = (Exn (OSError errno), add_event (Sys (Unlink p)) w)).
Proof.
  unfold os_unlink. unfold_os.
  destruct (fs w !! p) as [[d m t|m t]|]; [left; reflexivity | right; eauto ..].
Qed.

Lemma os_chmod_file (p data : string) (mode m : Z) (t : Q) (w : World) :
  fs w !! p = Some (File data m t) ->
  os_chmod p mode w
  = (Val tt, set_fs (<[p := File data mode t]> (fs w)) (add_event (Sys (Chmod p mode)) w)).
Proof. intros Hp. unfold os_chmod. unfold_os. now rewrite Hp. Qed.

Lemma mkstemp_cases (dir suffix : string) (w : World) :
  (exists fd file w',
      mkstemp dir suffix w = (Val (fd, file), w')
      /\ (exists name, file = PyStr.pathjoin dir ("tmp" +:+ name +:+ suffix))
      /\ fs w !! file = None
      /\ fs w' = <[file := File EmptyString (mask_mode 384 (proc_umask w)) (clock w)]> (fs w)
      /\ fds w' !! fd = Some file
      /\ trace w' = trace w ++ [Sys (Mkstemp dir suffix)])
  \/ (exists e w',
        mkstemp dir suffix w = (Exn e, w')
        /\ trace w' = trace w ++ [Sys (Mkstemp dir suffix)]).
Proof.
  unfold mkstemp. unfold_os.
  match goal with |- context [mkstemp_inner ?t ?d ?s ?w0] =>
    pose proof (mkstemp_inner_spec t d s w0) as H;
    destruct (mkstemp_inner t d s w0) as [[[fd file]|e|] w']
  end; [| | destruct H].
  - left. destruct H as (Hn & Hf & Hfs & Hfd & Ht & _). simpl in *. eauto 12.
  - right. simpl in H. eauto.
Qed.

Lemma app_event_one (t : list event) (u : list event) (e : event) :
  (t ++ u) ++ [e] = t ++ (u ++ [e]).
Proof. now rewrite <- app_assoc. Qed.

Lemma publish_spec (self : Disk) (body format fullpath : string) (w : World) :
  exists r w' calls,
    publish self body format fullpath w = (r, w')
    /\ trace w' = trace w ++ map Sys calls
    /\ publish_run self body format fullpath w r w' calls.
Proof.
  unfold publish.
  destruct (mkstemp_cases (cachepath self) ("." +:+ PyStr.lower format) w)
    as [(fd & tmp & w1 & Hmk & Hname & Hfree & Hfs1 & Hfd1 & Htr1) | (e & w1 & Hmk & Htr1)].
  2:{ rewrite (bind_exn _ _ _ _ _ Hmk).
      exists (Exn e), w1, [Mkstemp (cachepath self) ("." +:+ PyStr.lower format)].
      split; [reflexivity |]. split; [exact Htr1 | apply publish_no_temp]. }
  rewrite (bind_val _ _ _ _ _ Hmk). cbv beta iota.
  assert (Hf1 : fs w1 !! tmp = Some (File EmptyString (mask_mode 384 (proc_umask w)) (clock w)))
    by (rewrite Hfs1; apply lookup_insert_eq).
  rewrite (bind_val _ _ _ _ _ (os_write_run fd body tmp _ _ _ w1 Hfd1 Hf1)).
  rewrite string_app_nil_l.
  set (w2 := set_fs _ (add_event (Sys (Write fd body)) w1)).
  rewrite (bind_val _ _ _ _ _ (os_close_run fd tmp w2 Hfd1)).
  set (w3 := set_fds _ _ _).
  assert (Hf3 : fs w3 !! tmp = Some (File body (mask_mode 384 (proc_umask w)) (clock w1)))
    by apply lookup_insert_eq.
  assert (Htr3 : trace w3 = trace w ++ map Sys [Mkstemp (cachepath self) ("." +:+ PyStr.lower format);
                                              Write fd body; Close fd]).
  { simpl. rewrite Htr1, <- !app_assoc. reflexivity. }
  assert (Hfs3 : forall p, p <> tmp -> fs w3 !! p = fs w !! p).
  { intros p Hp. simpl. rewrite lookup_insert_ne, Hfs1, lookup_insert_ne by congruence.
    reflexivity. }
  clearbody w3.
  assert (Hchmod : forall w4 t4 calls4,
             fs w4 !! fullpath = Some (File body (mask_mode 384 (proc_umask w)) t4) ->
             (tmp <> fullpath -> fs w4 !! tmp = None) ->
             trace w4 = trace w ++ map Sys calls4 ->
             exists w',
               os_chmod fullpath (mask_mode 438 (umask self)) w4 = (Val tt, w')
               /\ trace w' = trace w ++ map Sys (calls4 ++ [Chmod fullpath (save_mode self)])
               /\ fs w' !! fullpath = Some (File body (save_mode self) t4)
               /\ (tmp <> fullpath -> fs w' !! tmp = None)).
  { intros w4 t4 calls4 H4 Hg4 Ht4. eexists. split; [eapply os_chmod_file, H4 |].
    simpl. rewrite Ht4, map_app, <- app_assoc. split; [reflexivity |].
    split; [apply lookup_insert_eq |].
    intros Hne. rewrite lookup_insert_ne by congruence. auto. }
  destruct (os_rename_cases tmp fullpath w3)
    as [(d & m & t & Hsrc & Hren) | (errno & Hren)].
  - (* the first rename goes through *)
    rewrite Hf3 in Hsrc. injection Hsrc as <- <- <-.
    rewrite (bind_val _ _ _ _ _ (try_except_val _ _ _ _ _ Hren)).
    match type of Hren with _ = (_, ?w4) =>
      destruct (Hchmod w4 (clock w1)
                  [Mkstemp (cachepath self) ("." +:+ PyStr.lower format);
                   Write fd body; Close fd; Rename tmp fullpath])
        as (w' & Hch & Htr & Hfull & Hgone)
    end.
    { simpl. apply lookup_insert_eq. }
    { intros Hne. simpl. rewrite lookup_insert_ne by congruence. apply lookup_delete_eq. }
    { simpl. rewrite Htr3, <- app_assoc. reflexivity. }
    eexists _, _, _. split; [exact Hch |]. split; [exact Htr |].
    now apply (publish_renamed _ _ _ _ _ fd tmp (clock w1)).
  - (* the first rename raises: remove the destination, rename again *)
    rewrite (bind_try_except_exn _ _ _ _ _ _ Hren). cbv beta iota.
    rewrite bind_assoc_run.
    set (w4 := add_event (Sys (Rename tmp fullpath)) w3) in *.
    destruct (os_unlink_cases fullpath w4) as [Hun | (errno' & Hun)].
    2:{ rewrite (bind_exn _ _ _ _ _ Hun).
        eexists _, _, [Mkstemp (cachepath self) ("." +:+ PyStr.lower format); Write fd body; Close fd; Rename tmp fullpath; Unlink fullpath].
        split; [reflexivity |]. split.
        - simpl. rewrite Htr3, <- !app_assoc. reflexivity.
        - now apply (publish_unlink_fails _ _ _ _ _ fd tmp). }
    rewrite (bind_val _ _ _ _ _ Hun).
    set (w5 := set_fs (delete fullpath (fs w4)) _).
    assert (Htr5 : trace w5 = trace w ++ map Sys [Mkstemp (cachepath self) ("." +:+ PyStr.lower format);
                                                Write fd body; Close fd; Rename tmp fullpath;
                                                Unlink fullpath]).
    { simpl. rewrite Htr3, <- !app_assoc. reflexivity. }
    destruct (os_rename_cases tmp fullpath w5)
      as [(d & m & t & Hsrc & Hren2) | (errno2 & Hren2)].
    + simpl in Hsrc.
      assert (Hne : fullpath <> tmp).
      { intros ->. rewrite lookup_delete_eq in Hsrc. discriminate. }
      rewrite lookup_delete_ne, Hf3 in Hsrc by exact Hne. injection Hsrc as <- <- <-.
      rewrite (bind_val _ _ _ _ _ Hren2).
      match type of Hren2 with _ = (_, ?w6) =>
        destruct (Hchmod w6 (clock w1)
                    [Mkstemp (cachepath self) ("." +:+ PyStr.lower format);
                     Write fd body; Close fd; Rename tmp fullpath;
                     Unlink fullpath; Rename tmp fullpath])
          as (w' & Hch & Htr & Hfull & Hgone)
      end.
      { simpl. apply lookup_insert_eq. }
      { intros _. simpl. rewrite lookup_insert_ne by exact Hne. apply lookup_delete_eq. }
      { simpl. rewrite Htr3, <- !app_assoc. reflexivity. }
      eexists _, _, _. split; [exact Hch |]. split; [exact Htr |].
      now apply (publish_renamed_on_retry _ _ _ _ _ fd tmp (clock w1)).
    + rewrite (bind_exn _ _ _ _ _ Hren2).
      eexists _, _, [Mkstemp (cachepath self) ("." +:+ PyStr.lower format); Write fd body; Close fd; Rename tmp fullpath;
                     Unlink fullpath; Rename tmp fullpath].
      split; [reflexivity |]. split.
      * simpl. rewrite Htr3, <- !app_assoc. reflexivity.
      * now apply (publish_retry_fails _ _ _ _ _ fd tmp).
Qed.

Lemma publish_run_weaken (self : Disk) (body format fullpath : string) (w w1 w' : World)
    (r : outcome unit) (calls : list syscall) :
  fs w ⊆ fs w1 ->
  publish_run self body format fullpath w1 r w' calls ->
  publish_run self body format fullpath w r w' calls.
Proof.
  intros Hsub Hrun.
  destruct Hrun as [e w' | fd tmp mtime w' Ht Hf Hfull Hgone | fd tmp mtime w' Ht Hf Hfull Hgone
                    | fd tmp e w' Ht Hf | fd tmp e w' Ht Hf];
    [ apply publish_no_temp
    | apply (publish_renamed _ _ _ _ _ fd tmp mtime)
    | apply (publish_renamed_on_retry _ _ _ _ _ fd tmp mtime)
    | apply (publish_unlink_fails _ _ _ _ _ fd tmp)
    | apply (publish_retry_fails _ _ _ _ _ fd tmp) ];
    try assumption; eapply lookup_weaken_None; eassumption.
Qed.

(** C3.  [Disk.save] makes the parent directories of the key's path
    ([os.makedirs] under the configured umask, an existing directory being
    fine), creates a uniquely named temporary file in the cache storage
    root, writes the body to it and closes it, then renames it onto the
    key's path; when that rename raises an OS error it unlinks the
    destination and renames once more, and no further; at the end it sets
    the mode of the artifact to [0666 & ~umask].  Every run of [save] is one
    of the runs of [publish_run] after the three directory calls, or stops at
    the directory step. *)
Theorem save_protocol (self : Disk) (body : string) (layer : Layer) (sm : StaticMaps)
    (format fullpath : string) (w : World) :
  Disk._fullpath self layer sm format = inr fullpath ->
  exists r w' calls,
    Disk.save self body layer sm format w = (r, w')
    /\ trace w' = trace w ++ CacheCall MSave sm format
                          :: map Sys (dirs_calls self fullpath w ++ calls)
    /\ ((exists e, r = Exn e /\ calls = [])
        \/ publish_run self body format fullpath w r w' calls).
Proof.
  intros Hp. rewrite (save_steps _ _ _ _ _ _ Hp).
  rewrite (bind_val _ _ _ _ _ (eq_refl : emit (CacheCall MSave sm format) w = (Val tt, _))).
  set (w0 := add_event (CacheCall MSave sm format) w).
  destruct (ensure_dirs_spec self fullpath w0) as (r1 & w1 & Hrun1 & Htr1 & Hfuel1 & Hok1).
  change (dirs_calls self fullpath w0) with (dirs_calls self fullpath w) in Htr1.
  assert (Htr1' : trace w1 = trace w ++ CacheCall MSave sm format
                                   :: map Sys (dirs_calls self fullpath w)).
  { rewrite Htr1. unfold w0, add_event. cbn [trace]. now rewrite <- app_assoc. }
  destruct r1 as [[]|e|]; [| | congruence].
  - rewrite (bind_val _ _ _ _ _ Hrun1).
    destruct (Hok1 eq_refl) as (Hsub & _).
    destruct (publish_spec self body format fullpath w1) as (r & w' & calls & Hrun & Htr & Hcase).
    exists r, w', calls. split; [exact Hrun |]. split.
    + rewrite Htr, Htr1', map_app, <- app_assoc. reflexivity.
    + right. eapply publish_run_weaken; [| exact Hcase]. exact Hsub.
  - rewrite (bind_exn _ _ _ _ _ Hrun1).
    exists (Exn e), w1, []. split; [reflexivity |]. split.
    + rewrite Htr1', app_nil_r. reflexivity.
    + left. eauto.
Qed.

Lemma save_protocol_witness :
  exists r w' calls,
    Disk.save (mkDisk "cache" 18) "PNG-bytes" (example_layer example_map) example_map "PNG"
      empty_world = (r, w')
    /\ trace w' = trace empty_world ++ CacheCall MSave example_map "PNG"
         :: map Sys (dirs_calls (mkDisk "cache" 18)
                       "cache/markers/8/1450000/1020000_600x300.png" empty_world ++ calls)
    /\ ((exists e, r = Exn e /\ calls = [])
        \/ publish_run (mkDisk "cache" 18) "PNG-bytes" "PNG"
             "cache/markers/8/1450000/1020000_600x300.png" empty_world r w' calls).
Proof.
  apply (save_protocol (mkDisk "cache" 18) "PNG-bytes" (example_layer example_map)
           example_map "PNG" "cache/markers/8/1450000/1020000_600x300.png" empty_world).
  vm_compute. reflexivity.
Defined.

(** A world with an artifact already in place, where [os.rename] does not
    replace an existing file. *)
Definition world_without_replace : World :=
  mkWorld {[ "cache" := Dir 493 0;
             "cache/markers" := Dir 493 0;
             "cache/markers/8" := Dir 493 0;
             "cache/markers/8/1450000" := Dir 493 0;
             "cache/markers/8/1450000/1020000_600x300.png" := File "old" 420 0 ]}
          ∅ 3 1000 18 false (fun n => PyStr.str (Z.of_nat n)) 0 [].

(** The two runs that end well: in an empty cache the directories are made
    and the first rename goes through; where rename does not replace, the
    destination is unlinked and the second rename goes through. *)
Example save_in_empty_cache :
  let r := Disk.save (mkDisk "cache" 18) "PNG-bytes" (example_layer example_map) example_map
             "PNG" empty_world in
  fst r = Val tt
  /\ trace (snd r)
     = [CacheCall MSave example_map "PNG";
        Sys (Umask 18); Sys (Makedirs "cache/markers/8/1450000" 493); Sys (Umask 18);
        Sys (Mkstemp "cache" ".png"); Sys (Write 3 "PNG-bytes"); Sys (Close 3);
        Sys (Rename "cache/tmp0.png" "cache/markers/8/1450000/1020000_600x300.png");
        Sys (Chmod "cache/markers/8/1450000/1020000_600x300.png" 420)]
  /\ fs (snd r) !! "cache/markers/8/1450000/1020000_600x300.png"
     = Some (File "PNG-bytes" 420 1000)
  /\ fs (snd r) !! "cache/markers/8/1450000" = Some (Dir 493 1000)
  /\ fs (snd r) !! "cache/tmp0.png" = None.
Proof. vm_compute. repeat split; reflexivity. Qed.

Example save_without_replace :
  let r := Disk.save (mkDisk "cache" 18) "PNG-bytes" (example_layer example_map) example_map
             "PNG" world_without_replace in
  fst r = Val tt
  /\ trace (snd r)
     = [CacheCall MSave example_map "PNG";
        Sys (Umask 18); Sys (Makedirs "cache/markers/8/1450000" 493); Sys (Umask 18);
        Sys (Mkstemp "cache" ".png"); Sys (Write 3 "PNG-bytes"); Sys (Close 3);
        Sys (Rename "cache/tmp0.png" "cache/markers/8/1450000/1020000_600x300.png");
        Sys (Unlink "cache/markers/8/1450000/1020000_600x300.png");
        Sys (Rename "cache/tmp0.png" "cache/markers/8/1450000/1020000_600x300.png");
        Sys (Chmod "cache/markers/8/1450000/1020000_600x300.png" 420)]
  /\ fs (snd r) !! "cache/markers/8/1450000/1020000_600x300.png"
     = Some (File "PNG-bytes" 420 1000).
Proof. vm_compute. repeat split; reflexivity. Qed.

(** ** The lock is released once (getStaticMap) *)

Definition is_lock_call (e : event) : bool :=
  match e with
  | CacheCall MLock _ _ | CacheCall MUnlock _ _ => true
  | _ => false
  end.

(** The calls of [cache.lock] and [cache.unlock] in a trace, in order. *)
Definition lock_calls (t : list event) : list event := List.filter is_lock_call t.

Lemma lock_calls_app (t u : list event) : lock_calls (t ++ u) = lock_calls t ++ lock_calls u.
Proof. apply List.filter_app. Qed.

Lemma lock_calls_sys (calls : list syscall) : lock_calls (map Sys calls) = [].
Proof. induction calls as [|c calls IH]; [reflexivity | exact IH]. Qed.

(** A computation that ends (returns or raises) and calls neither
    [cache.lock] nor [cache.unlock]. *)
Definition quiet {A} (m : M A) : Prop :=
  forall w, exists r w' t,
    m w = (r, w') /\ r <> OutOfFuel /\ trace w' = trace w ++ t /\ lock_calls t = [].

Lemma quiet_ret {A} (a : A) : quiet (mret a).
Proof.
  intros w. exists (Val a), w, []. repeat split; [discriminate | now rewrite app_nil_r].
Qed.

Lemma quiet_raise {A} (e : exn) : quiet (raise e : M A).
Proof.
  intros w. exists (Exn e), w, []. repeat split; [discriminate | now rewrite app_nil_r].
Qed.

Lemma quiet_lift {A} (r : result A) : quiet (lift r).
Proof. destruct r; [apply quiet_raise | apply quiet_ret]. Qed.

Lemma quiet_emit (e : event) : is_lock_call e = false -> quiet (emit e).
Proof.
  intros He w. exists (Val tt), (add_event e w), [e].
  repeat split; [discriminate |]. unfold lock_calls. simpl. now rewrite He.
Qed.

Lemma quiet_bind {A B} (m : M A) (f : A -> M B) :
  quiet m -> (forall a, quiet (f a)) -> quiet (m ≫= f).
Proof.
  intros Hm Hf w. destruct (Hm w) as (r & w1 & t1 & Hrun & Hfuel & Htr & Hq).
  destruct r as [a|e|]; [| | congruence].
  - destruct (Hf a w1) as (r2 & w2 & t2 & Hrun2 & Hfuel2 & Htr2 & Hq2).
    exists r2, w2, (t1 ++ t2). rewrite (bind_val _ _ _ _ _ Hrun).
    repeat split; [exact Hrun2 | exact Hfuel2 | |].
    + now rewrite Htr2, Htr, app_assoc.
    + now rewrite lock_calls_app, Hq, Hq2.
  - exists (Exn e), w1, t1. rewrite (bind_exn _ _ _ _ _ Hrun).
    repeat split; [discriminate | exact Htr | exact Hq].
Qed.

Lemma quiet_raise_bind {A B} (e : exn) (f : A -> M B) : quiet (raise e ≫= f).
Proof.
  intros w. exists (Exn e), w, []. repeat split; [discriminate | now rewrite app_nil_r].
Qed.

Lemma quiet_read (self : Disk) (layer : Layer) (sm : StaticMaps) (format : string) :
  quiet (Disk.read self layer sm format).
Proof.
  destruct (Disk._fullpath self layer sm format) as [e|fullpath] eqn:Hp.
  - unfold Disk.read. rewrite Hp.
    apply quiet_bind; [now apply quiet_emit | intros _].
    apply quiet_raise_bind.
  - intros w. rewrite (read_run _ _ _ _ _ _ Hp).
    eexists _, _, [CacheCall MRead sm format]. split; [reflexivity |].
    repeat split.
    destruct (stat (fs w) fullpath) as [n|]; [| discriminate].
    destruct (Disk.expired _ _); [discriminate |].
    destruct n; discriminate.
Qed.

Lemma quiet_render_tile (layer : Layer) (format : string) : quiet (render_tile layer format).
Proof.
  unfold render_tile.
  apply quiet_bind; [apply quiet_lift | intros coord].
  apply quiet_bind; [now apply quiet_emit | intros _].
  destruct (render layer coord format); [apply quiet_ret | apply quiet_ret | apply quiet_raise].
Qed.

Lemma quiet_save (self : Disk) (body : string) (layer : Layer) (sm : StaticMaps)
    (format : string) :
  quiet (Disk.save self body layer sm format).
Proof.
  destruct (Disk._fullpath self layer sm format) as [e|fullpath] eqn:Hp.
  - unfold Disk.save. rewrite Hp.
    apply quiet_bind; [now apply quiet_emit | intros _].
    apply quiet_raise_bind.
  - rewrite (save_steps _ _ _ _ _ _ Hp).
    apply quiet_bind; [now apply quiet_emit | intros _].
    apply quiet_bind.
    + intros w. destruct (ensure_dirs_spec self fullpath w) as (r & w' & Hrun & Htr & Hfuel & _).
      exists r, w', (map Sys (dirs_calls self fullpath w)).
      split; [exact Hrun | split; [exact Hfuel | split; [exact Htr | apply lock_calls_sys]]].
    + intros _ w. destruct (publish_spec self body format fullpath w)
        as (r & w' & calls & Hrun & Htr & Hcase).
      exists r, w', (map Sys calls).
      split; [exact Hrun | split; [| split; [exact Htr | apply lock_calls_sys]]].
      destruct Hcase; discriminate.
Qed.

(** What [Disk.unlock] does: the marker directory goes if it is there and
    empty; every [OSError] of [rmdir] is passed over. *)
Lemma unlock_run (self : Disk) (layer : Layer) (sm : StaticMaps) (format lockpath : string)
    (w : World) :
  Disk._lockpath self layer sm format = inr lockpath ->
  exists w',
    Disk.unlock self layer sm format w = (Val tt, w')
    /\ trace w' = trace w ++ [CacheCall MUnlock sm format; Sys (Rmdir lockpath)]
    /\ (fs w !! lockpath = None -> fs w' = fs w)
    /\ (forall mode mtime, fs w !! lockpath = Some (Dir mode mtime) ->
        has_entries (fs w) lockpath = false -> fs w' = delete lockpath (fs w)).
Proof.
  intros Hl. unfold Disk.unlock. rewrite Hl. unfold lift. unfold_os.
  destruct (fs w !! lockpath) as [[d m t|m t]|] eqn:Hn; world_simpl.
  - eexists. split; [reflexivity |]. world_simpl. rewrite <- app_assoc.
    repeat split; intros; discriminate.
  - destruct (has_entries (fs w) lockpath) eqn:He; world_simpl.
    + eexists. split; [reflexivity |]. world_simpl. rewrite <- app_assoc.
      repeat split; intros; discriminate.
    + eexists. split; [reflexivity |]. world_simpl. rewrite <- app_assoc.
      repeat split; intros; try discriminate; reflexivity.
  - eexists. split; [reflexivity |]. world_simpl. rewrite <- app_assoc.
    repeat split; intros; try discriminate; reflexivity.
Qed.

(** A computation whose events are all system calls. *)
Definition is_sys (e : event) : bool := match e with Sys _ => true | _ => false end.

Definition sys_only {A} (m : M A) : Prop :=
  forall w, exists r w' t, m w = (r, w') /\ trace w' = trace w ++ t /\ forallb is_sys t = true.

Lemma sys_only_silent {A} (f : World -> outcome A * World) :
  (forall w, trace (snd (f w)) = trace w) -> sys_only (act f).
Proof.
  intros H w. exists (fst (f w)), (snd (f w)), [].
  split; [unfold act; now destruct (f w) |]. split; [now rewrite app_nil_r, H | reflexivity].
Qed.

Lemma sys_only_ret {A} (a : A) : sys_only (mret a).
Proof. apply (sys_only_silent (fun w => (Val a, w))). reflexivity. Qed.

Lemma sys_only_raise {A} (e : exn) : sys_only (raise e : M A).
Proof. apply (sys_only_silent (fun w => (Exn e, w))). reflexivity. Qed.

Lemma sys_only_emit (c : syscall) : sys_only (emit (Sys c)).
Proof. intros w. exists (Val tt), (add_event (Sys c) w), [Sys c]. repeat split. Qed.

Lemma sys_only_bind {A B} (m : M A) (f : A -> M B) :
  sys_only m -> (forall a, sys_only (f a)) -> sys_only (m ≫= f).
Proof.
  intros Hm Hf w. destruct (Hm w) as (r & w1 & t1 & Hrun & Htr & Hq).
  destruct r as [a|e|].
  - destruct (Hf a w1) as (r2 & w2 & t2 & Hrun2 & Htr2 & Hq2).
    exists r2, w2, (t1 ++ t2). rewrite (bind_val _ _ _ _ _ Hrun).
    split; [exact Hrun2 |]. split; [now rewrite Htr2, Htr, app_assoc |].
    now rewrite forallb_app, Hq, Hq2.
  - exists (Exn e), w1, t1. rewrite (bind_exn _ _ _ _ _ Hrun). auto.
  - exists OutOfFuel, w1, t1. unfold mbind, M_bind. rewrite Hrun. auto.
Qed.

Lemma sys_only_try_except {A} (m : M A) (h : exn -> M A) :
  sys_only m -> (forall e, sys_only (h e)) -> sys_only (try_except m h).
Proof.
  intros Hm Hh w. destruct (Hm w) as (r & w1 & t1 & Hrun & Htr & Hq).
  unfold try_except. rewrite Hrun. destruct r as [a|e|]; [eauto 8 | | eauto 8].
  destruct (Hh e w1) as (r2 & w2 & t2 & Hrun2 & Htr2 & Hq2).
  exists r2, w2, (t1 ++ t2). split; [exact Hrun2 |].
  split; [now rewrite Htr2, Htr, app_assoc | now rewrite forallb_app, Hq, Hq2].
Qed.

Lemma sys_only_try_finally {A} (m : M A) (f : M unit) :
  sys_only m -> sys_only f -> sys_only (try_finally m f).
Proof.
  intros Hm Hf w. destruct (Hm w) as (r & w1 & t1 & Hrun & Htr & Hq).
  unfold try_finally. rewrite Hrun.
  destruct (Hf w1) as (r2 & w2 & t2 & Hrun2 & Htr2 & Hq2).
  assert (Ht : trace w2 = trace w ++ (t1 ++ t2)) by now rewrite Htr2, Htr, app_assoc.
  assert (Hs : forallb is_sys (t1 ++ t2) = true) by now rewrite forallb_app, Hq, Hq2.
  destruct r as [a|e|]; [| | eauto 8]; rewrite Hrun2; destruct r2 as [u|e2|]; eauto 8.
Qed.

Lemma sys_only_lock_attempt (self : Disk) (lockpath : string) (due : Q) :
  sys_only (Disk.lock_attempt self lockpath due).
Proof.
  unfold Disk.lock_attempt, os_umask, os_rmdir, os_makedirs, time_sleep, modify.
  apply sys_only_bind; [| intros umask_old].
  { apply sys_only_bind; [apply sys_only_emit | intros _]. now apply sys_only_silent. }
  apply sys_only_try_finally.
  2:{ apply sys_only_bind; [| intros; apply sys_only_ret].
      apply sys_only_bind; [apply sys_only_emit | intros _]. now apply sys_only_silent. }
  apply sys_only_try_except.
  - apply sys_only_bind; [apply (sys_only_silent (fun w => (Val (clock w), w))); reflexivity |].
    intros now. apply sys_only_bind; [| intros _].
    + destruct (Qltb due now); [| apply sys_only_ret].
      apply sys_only_try_except.
      * apply sys_only_bind; [apply sys_only_emit | intros _].
        apply sys_only_silent. intros w.
        destruct (fs w !! lockpath) as [[| ]|]; try reflexivity.
        destruct (has_entries _ _); reflexivity.
      * intros [ | | | | | | | | | ]; try apply sys_only_raise. apply sys_only_ret.
    + apply sys_only_bind; [| intros; apply sys_only_ret].
      apply sys_only_bind; [apply sys_only_emit | intros _].
      apply sys_only_silent. intros w.
      destruct (fs_makedirs _ _ _ _) eqn:E; [reflexivity |].
      now apply fs_makedirs_extends in E.
  - intros [ | | | | | | errno | | | ]; try apply sys_only_raise.
    destruct (negb _); [apply sys_only_raise |].
    apply sys_only_bind; [| intros; apply sys_only_ret].
    apply sys_only_bind; [apply sys_only_emit | intros _].
    apply (sys_only_silent (fun w => (Val tt, set_clock (Qred (clock w + (1 # 5))) w))).
    reflexivity.
Qed.

Lemma sys_only_lock_loop (fuel : nat) (self : Disk) (lockpath : string) (due : Q) :
  sys_only (Disk.lock_loop fuel self lockpath due).
Proof.
  induction fuel as [|fuel IH]; simpl.
  - apply (sys_only_silent (fun w => (OutOfFuel, w))). reflexivity.
  - apply sys_only_bind; [apply sys_only_lock_attempt | intros [|]];
      [apply sys_only_ret | exact IH].
Qed.

Lemma sys_only_lock_calls (t : list event) : forallb is_sys t = true -> lock_calls t = [].
Proof.
  induction t as [|e t IH]; [reflexivity |]. simpl.
  intros [He Ht]%andb_true_iff. destruct e; try discriminate. simpl. auto.
Qed.

(** A call of [Disk.lock] that returns has made one call of [lock] and no
    call of [unlock], and the lock path is defined. *)
Lemma lock_returns (fuel : nat) (self : Disk) (layer : Layer) (sm : StaticMaps)
    (format : string) (w w' : World) :
  Disk.lock fuel self layer sm format w = (Val tt, w') ->
  (exists lockpath, Disk._lockpath self layer sm format = inr lockpath)
  /\ exists t, trace w' = trace w ++ t /\ lock_calls t = [CacheCall MLock sm format].
Proof.
  destruct (Disk._lockpath self layer sm format) as [e|lockpath] eqn:Hl.
  - unfold Disk.lock. rewrite Hl. discriminate.
  - rewrite (lock_run _ _ _ _ _ _ _ Hl). intros Hrun. split; [eauto |].
    destruct (sys_only_lock_loop fuel self lockpath
                (clock w + inject_Z (stale_lock_timeout layer))
                (add_event (CacheCall MLock sm format) w))
      as (r & w2 & t & Hrun2 & Htr & Hsys).
    rewrite Hrun in Hrun2. injection Hrun2 as <- <-.
    exists (CacheCall MLock sm format :: t). split.
    + rewrite Htr. unfold add_event. cbn [trace]. now rewrite <- app_assoc.
    + change (lock_calls (CacheCall MLock sm format :: t))
        with (CacheCall MLock sm format :: lock_calls t).
      now rewrite (sys_only_lock_calls t Hsys).
Qed.

Lemma wp_quiet {A} (m : M A) (w : World) (Q : outcome A -> World -> Prop) :
  quiet m ->
  (forall r w' t, r <> OutOfFuel -> trace w' = trace w ++ t -> lock_calls t = [] -> Q r w') ->
  wp m w Q.
Proof.
  intros Hq HQ. destruct (Hq w) as (r & w' & t & Hrun & Hfuel & Htr & Hlc).
  apply (wp_run _ _ _ _ _ Hrun). eauto.
Qed.

Lemma wp_time_time (w : World) (Q : outcome Q -> World -> Prop) :
  Q (Val (clock w)) w -> wp time_time w Q.
Proof. auto. Qed.

Lemma read_returns (self : Disk) (layer : Layer) (sm : StaticMaps) (format : string)
    (w w' : World) (b : option string) :
  Disk.read self layer sm format w = (Val b, w') ->
  (exists fullpath, Disk._fullpath self layer sm format = inr fullpath)
  /\ w' = add_event (CacheCall MRead sm format) w.
Proof.
  destruct (Disk._fullpath self layer sm format) as [e|fullpath] eqn:Hp.
  - unfold Disk.read. rewrite Hp. discriminate.
  - rewrite (read_run _ _ _ _ _ _ Hp). intros [= _ <-]. eauto.
Qed.

(** Where the cache key is defined, the center is set. *)
Lemma fullpath_center (self : Disk) (layer : Layer) (sm : StaticMaps) (format fullpath : string) :
  Disk._fullpath self layer sm format = inr fullpath -> exists c, center sm = Some c.
Proof.
  unfold Disk._fullpath, Disk._filepath.
  destruct (center sm) as [c|]; [eauto | discriminate].
Qed.

(** What [getStaticMap] does after the lock is taken and before it is
    released calls neither [lock] nor [unlock], and ends. *)
Lemma quiet_render_and_save (layer : Layer) (format : string) (write_cache : bool) :
  quiet (body1 ← Disk.read (cache layer) layer (staticmap layer) format;
         match body1 with
         | Some b => mret b
         | None =>
             '(tile, save) ← render_tile layer format;
             let save := if negb write_cache then false else save in
             let save_kwargs :=
               if String.eqb (PyStr.lower format) "jpeg" then jpeg_options layer
               else if String.eqb (PyStr.lower format) "png" then png_options layer
               else [] in
             b ← lift (tile_save tile format save_kwargs);
             (if (save : bool) then Disk.save (cache layer) b layer (staticmap layer) format
              else mret tt);;
             mret b
         end).
Proof.
  apply quiet_bind; [apply quiet_read | intros [b|]]; [apply quiet_ret |].
  apply quiet_bind; [apply quiet_render_tile | intros [tile save]].
  apply quiet_bind; [apply quiet_lift | intros b].
  apply quiet_bind; [| intros _; apply quiet_ret].
  destruct (if negb write_cache then false else save);
    [apply quiet_save | apply quiet_ret].
Qed.

(** C2.  In every execution of [getStaticMap] that takes the cache lock
    (the first read misses, [write_cache] holds, [cache.lock] returns),
    whatever the renderer, the encoder and [cache.save] do afterwards, the
    calls of [lock] and [unlock] are exactly one [lock] followed by one
    [unlock], on the same static map and format; [Disk.unlock] on a key
    whose marker is absent returns and leaves the file system as it is; and
    when the first read hits, the bytes are returned with no call of [lock]
    or [unlock]. *)
Theorem getStaticMap_unlocks_once (fuel : nat) (layer : Layer)
    (extension mimetype format : string) :
  getTypeByExtension layer extension = inr (mimetype, format) ->
  (forall w w1 w2,
      write_cache layer = true ->
      Disk.read (cache layer) layer (staticmap layer) format w = (Val None, w1) ->
      Disk.lock fuel (cache layer) layer (staticmap layer) format w1 = (Val tt, w2) ->
      exists r w' t,
        getStaticMap fuel layer extension false w = (r, w')
        /\ r <> OutOfFuel
        /\ trace w' = trace w ++ t
        /\ lock_calls t = [CacheCall MLock (staticmap layer) format;
                           CacheCall MUnlock (staticmap layer) format])
  /\ (forall self layer' sm format' lockpath w,
      Disk._lockpath self layer' sm format' = inr lockpath ->
      fs w !! lockpath = None ->
      exists w', Disk.unlock self layer' sm format' w = (Val tt, w') /\ fs w' = fs w)
  /\ (forall w w1 body,
      Disk.read (cache layer) layer (staticmap layer) format w = (Val (Some body), w1) ->
      getStaticMap fuel layer extension false w = (Val (mimetype, body), w1)
      /\ exists t, trace w1 = trace w ++ t /\ lock_calls t = []).
Proof.
  intros Ht. split; [| split].
  - intros w w1 w2 Hwc Hread Hlock.
    destruct (lock_returns _ _ _ _ _ _ _ Hlock) as ([lockpath Hl] & tl & Htl & Hql).
    destruct (read_returns _ _ _ _ _ _ _ Hread) as ([fullpath Hp] & Hw1).
    destruct (fullpath_center _ _ _ _ _ Hp) as [c Hc].
    assert (Htr1 : trace w1 = trace w ++ [CacheCall MRead (staticmap layer) format])
      by now rewrite Hw1.
    cut (wp (getStaticMap fuel layer extension false) w
           (fun r w' =>
              r <> OutOfFuel
              /\ exists t, trace w' = trace w ++ t
                   /\ lock_calls t = [CacheCall MLock (staticmap layer) format;
                                      CacheCall MUnlock (staticmap layer) format])).
    { intros H. apply wp_elim in H as (r & w' & Hrun & Hf & t & Htr & Hq). eauto 10. }
    unfold getStaticMap. rewrite Ht, Hwc, Hc. cbn [negb].
    wp_step. apply wp_time_time. wp_steps.
    apply (wp_run _ _ _ _ _ Hread). wp_steps.
    apply (wp_run _ _ _ _ _ Hlock). wp_step. cbn beta iota.
    apply wp_quiet; [apply (quiet_render_and_save layer format true) |].
    intros r w3 t3 Hfuel3 Htr3 Hq3.
    destruct (unlock_run _ _ _ _ _ w3 Hl) as (w4 & Hun & Htr4 & _).
    assert (Htr : trace w4 = trace w ++ ([CacheCall MRead (staticmap layer) format] ++ tl ++ t3
                                          ++ [CacheCall MUnlock (staticmap layer) format;
                                              Sys (Rmdir lockpath)]))
      by now rewrite Htr4, Htr3, Htl, Htr1, <- !app_assoc.
    assert (Hq : lock_calls ([CacheCall MRead (staticmap layer) format] ++ tl ++ t3
                             ++ [CacheCall MUnlock (staticmap layer) format;
                                 Sys (Rmdir lockpath)])
                 = [CacheCall MLock (staticmap layer) format;
                    CacheCall MUnlock (staticmap layer) format]).
    { rewrite !lock_calls_app, Hql, Hq3. reflexivity. }
    unfold after_finally.
    destruct r as [b|e|]; [| | congruence]; apply (wp_run _ _ _ _ _ Hun); wp_steps;
      (split; [discriminate | eauto]).
  - intros self layer' sm format' lockpath w Hl Hn.
    destruct (unlock_run _ _ _ _ _ w Hl) as (w' & Hun & _ & Hfs & _). eauto.
  - intros w w1 body Hread.
    destruct (read_returns _ _ _ _ _ _ _ Hread) as ([fullpath Hp] & Hw1).
    destruct (fullpath_center _ _ _ _ _ Hp) as [c Hc].
    split.
    + unfold getStaticMap. rewrite Ht, Hc. cbn [negb lift center_attr].
      rewrite (bind_val _ _ w w (clock w)) by reflexivity.
      rewrite (bind_val _ _ w w (mimetype, format)) by reflexivity.
      rewrite bind_assoc_run, (bind_val _ _ _ _ _ Hread). reflexivity.
    + exists [CacheCall MRead (staticmap layer) format]. now rewrite Hw1.
Qed.

Lemma getStaticMap_unlocks_once_witness :
  exists r w' t,
    getStaticMap 10 (example_layer example_map) "png" false empty_world = (r, w')
    /\ r <> OutOfFuel
    /\ trace w' = trace empty_world ++ t
    /\ lock_calls t = [CacheCall MLock example_map "PNG"; CacheCall MUnlock example_map "PNG"].
Proof.
  destruct (getStaticMap_unlocks_once 10 (example_layer example_map) "png" "image/png" "PNG"
              eq_refl) as (H & _ & _).
  apply (H empty_world
           (snd (Disk.read (mkDisk "cache" 18) (example_layer example_map) example_map "PNG"
                   empty_world))
           (snd (Disk.lock 10 (mkDisk "cache" 18) (example_layer example_map) example_map "PNG"
                   (snd (Disk.read (mkDisk "cache" 18) (example_layer example_map) example_map
                           "PNG" empty_world))))).
  - reflexivity.
  - vm_compute. reflexivity.
  - vm_compute. reflexivity.
Defined.

(** The four outcomes after the lock: the tile is rendered and saved; the
    renderer raises [NoTileLeftBehind]; the renderer raises something else;
    [cache.save] fails (a directory sits at the key's path).  Each time one
    [lock], then one [unlock]. *)
Definition layer_rendering (outcome : render_outcome) : Layer :=
  mkLayer "markers" (mkDisk "cache" 18) example_map (Some 60%Z) 15 true
          (fun _ => inr ("image/png", "PNG")) (fun _ _ => outcome) [] [] None None true.

Definition world_with_blocked_key : World :=
  mkWorld {[ "cache" := Dir 493 0;
             "cache/markers" := Dir 493 0;
             "cache/markers/8" := Dir 493 0;
             "cache/markers/8/1450000" := Dir 493 0;
             "cache/markers/8/1450000/1020000_600x300.png" := Dir 493 0 ]}
          ∅ 3 1000 18 true (fun n => PyStr.str (Z.of_nat n)) 0 [].

Definition lock_calls_of {A} (r : outcome A * World) : list event := lock_calls (trace (snd r)).

Example unlock_after_every_outcome :
  let once := [CacheCall MLock example_map "PNG"; CacheCall MUnlock example_map "PNG"] in
  let run l w := getStaticMap 10 l "png" false w in
  (fst (run (layer_rendering (Rendered example_tile)) empty_world) = Val ("image/png", "PNG-bytes")
   /\ lock_calls_of (run (layer_rendering (Rendered example_tile)) empty_world) = once)
  /\ (fst (run (layer_rendering (NoTileLeftBehind example_tile)) empty_world)
      = Val ("image/png", "PNG-bytes")
      /\ lock_calls_of (run (layer_rendering (NoTileLeftBehind example_tile)) empty_world) = once)
  /\ (fst (run (layer_rendering (RenderRaises (RenderError "boom"))) empty_world)
      = Exn (RenderError "boom")
      /\ lock_calls_of (run (layer_rendering (RenderRaises (RenderError "boom"))) empty_world)
         = once)
  /\ (fst (run (layer_rendering (Rendered example_tile)) world_with_blocked_key)
      = Exn (OSError EISDIR)
      /\ lock_calls_of (run (layer_rendering (Rendered example_tile)) world_with_blocked_key)
         = once).
Proof. vm_compute. repeat split; reflexivity. Qed.

(* ===================================================================== *)
(** * The projection: [px2ll] after [ll2px]                                *)
(* ===================================================================== *)

Section RoundTrip.

Import Projection.
Local Open Scope R_scope.

(** [int(round(x))] is within a half of [x]. *)
Lemma int_round_near (x : R) : Rabs (IZR (int_round x) - x) <= / 2.
Proof.
  unfold int_round. destruct (Rle_dec 0 x) as [Hx | Hx].
  - destruct (base_Int_part (x + / 2)) as [Hl Hu]. apply Rabs_le. lra.
  - rewrite opp_IZR. destruct (base_Int_part (- x + / 2)) as [Hl Hu].
    apply Rabs_le. lra.
Qed.

(** A pixel offset [c + v * k], rounded and scaled back, is within
    [1 / (2k)] of [v]. *)
Lemma scaled_round_near (c : Z) (v k : R) :
  0 < k ->
  Rabs (IZR (int_round (IZR c + v * k) - c) / k - v) <= / (2 * k).
Proof.
  intros Hk. pose proof (int_round_near (IZR c + v * k)) as Hr.
  rewrite minus_IZR.
  set (n := IZR (int_round (IZR c + v * k))) in *.
  replace ((n - IZR c) / k - v) with ((n - (IZR c + v * k)) * / k) by (field; lra).
  rewrite Rabs_mult, (Rabs_pos_eq (/ k)).
  - replace (/ (2 * k)) with (/ 2 * / k) by (field; lra).
    apply Rmult_le_compat_r; [| exact Hr].
    left. now apply Rinv_0_lt_compat.
  - left. now apply Rinv_0_lt_compat.
Qed.

(** The tables at a zoom from 0 to 30: the factors are positive, and a
    pixel of latitude at the equator is no more than a pixel of longitude. *)
Lemma tables_at (zoom : Z) :
  (0 <= zoom <= 30)%Z ->
  0 < index CEK zoom 0 /\ 0 < index CFK zoom 0
  /\ 90 * index CEK zoom 0 <= 3 * index CFK zoom 0.
Proof.
  intros Hz. unfold index.
  assert (Hn : (Z.to_nat zoom <= 30)%nat) by lia.
  revert Hn. generalize (Z.to_nat zoom) as n. intros n Hn.
  do 31 (destruct n as [| n]; [simpl; lra |]).
  lia.
Qed.

(** The inverse of the Mercator ordinate: for [-PI/2 < phi < PI/2],
    [2 * atan (exp (0.5 * ln ((1 + sin phi) / (1 - sin phi)))) - PI/2]
    is [phi]. *)
Lemma mercator_inverse (phi : R) :
  - (PI / 2) < phi < PI / 2 ->
  2 * atan (exp (0.5 * ln ((1 + sin phi) / (1 - sin phi)))) - PI / 2 = phi.
Proof.
  intros Hphi. set (t := PI / 4 + phi / 2).
  assert (Ht : 0 < t < PI / 2) by (unfold t; lra).
  assert (Hc : 0 < cos t) by (apply cos_gt_0; lra).
  assert (Htan : 0 < tan t) by (apply tan_gt_0; lra).
  assert (Hsin : sin phi = sin t * sin t - cos t * cos t).
  { rewrite (sin_cos phi). replace (PI / 2 + phi) with (2 * t) by (unfold t; lra).
    rewrite cos_2a. lra. }
  pose proof (sin2_cos2 t) as H1. unfold Rsqr in H1.
  assert (Hratio : (1 + sin phi) / (1 - sin phi) = tan t * tan t).
  { rewrite Hsin.
    replace (1 + (sin t * sin t - cos t * cos t)) with (2 * (sin t * sin t)) by lra.
    replace (1 - (sin t * sin t - cos t * cos t)) with (2 * (cos t * cos t)) by lra.
    unfold tan. field. lra. }
  rewrite Hratio, ln_mult by assumption.
  replace (0.5 * (ln (tan t) + ln (tan t))) with (ln (tan t)) by lra.
  rewrite exp_ln by assumption. rewrite atan_tan by lra.
  unfold t. lra.
Qed.

(** [b |-> atan (exp b)] moves no faster than half its argument. *)
Lemma atan_exp_lipschitz (a b : R) :
  Rabs (atan (exp b) - atan (exp a)) <= / 2 * Rabs (b - a).
Proof.
  destruct (MVT_abs (comp atan exp) (fun c => / (1 + exp c ^ 2) * exp c) a b)
    as [c [Hc _]].
  { intros c _. apply derivable_pt_lim_comp.
    - apply derivable_pt_lim_exp.
    - apply derivable_pt_lim_atan. }
  unfold comp in Hc. rewrite Hc.
  apply Rmult_le_compat_r; [apply Rabs_pos |].
  pose proof (exp_pos c) as He. set (e := exp c) in *.
  assert (Hd : 0 < 1 + e ^ 2) by nra.
  rewrite Rabs_pos_eq.
  - apply (Rmult_le_reg_l (1 + e ^ 2)); [exact Hd |].
    replace ((1 + e ^ 2) * (/ (1 + e ^ 2) * e)) with e by (field; lra).
    pose proof (Rle_0_sqr (e - 1)) as Hsq. unfold Rsqr in Hsq. lra.
  - apply Rmult_le_pos; [| lra]. left. now apply Rinv_0_lt_compat.
Qed.

(** From zoom 3 on a pixel spans less than a fifth of a degree. *)
Lemma tables_from_3 (zoom : Z) :
  (3 <= zoom <= 30)%Z -> 5 <= index CEK zoom 0 /\ 300 <= index CFK zoom 0.
Proof.
  intros Hz. unfold index.
  assert (Hn : (3 <= Z.to_nat zoom <= 30)%nat) by lia.
  revert Hn. generalize (Z.to_nat zoom) as n. intros n Hn.
  do 3 (destruct n as [| n]; [lia |]).
  do 28 (destruct n as [| n]; [simpl; lra |]).
  lia.
Qed.

Lemma zoom_ok_in_range (zoom : Z) : (0 <= zoom <= 30)%Z -> zoom_ok zoom = true.
Proof.
  intros Hz. unfold zoom_ok. apply andb_true_intro. split; apply Z.leb_le; lia.
Qed.

(** The latitude that [px2ll] returns for the row that [ll2px] computes from
    an angle [phi] whose sine is used as it is: within half a pixel row of
    [phi], in degrees. *)
Lemma lat_round_trip (phi : R) (zoom : Z) :
  (0 <= zoom <= 30)%Z ->
  - (PI / 2) < phi < PI / 2 ->
  let cbk := index CBK zoom 0%Z in
  let cfk := index CFK zoom 0 in
  let y := int_round (IZR cbk + 0.5 * ln ((1 + sin phi) / (1 - sin phi)) * - cfk) in
  Rabs ((2 * atan (exp (IZR (y - cbk) / - cfk)) - PI / 2) / (PI / 180)
        - phi / (PI / 180))
  <= 90 / (PI * cfk).
Proof.
  intros Hz Hphi cbk cfk.
  destruct (tables_at zoom Hz) as [_ [Hcfk _]]. fold cfk in Hcfk.
  set (L := 0.5 * ln ((1 + sin phi) / (1 - sin phi))).
  assert (HL : phi = 2 * atan (exp L) - PI / 2)
    by (symmetry; now apply mercator_inverse).
  clearbody L cfk. intros y.
  pose proof (scaled_round_near cbk (- L) cfk Hcfk) as Hr.
  replace (- L * cfk) with (L * - cfk) in Hr by lra. fold y in Hr.
  set (bar := IZR (y - cbk) / - cfk).
  assert (Hbar : Rabs (bar - L) <= / (2 * cfk)).
  { replace (bar - L) with (- (IZR (y - cbk) / cfk - - L))
      by (unfold bar; field; lra).
    now rewrite Rabs_Ropp. }
  pose proof (atan_exp_lipschitz L bar) as Hlip.
  pose proof PI_RGT_0 as Hpi.
  rewrite HL.
  replace ((2 * atan (exp bar) - PI / 2) / (PI / 180)
           - (2 * atan (exp L) - PI / 2) / (PI / 180))
    with ((atan (exp bar) - atan (exp L)) * (360 / PI)) by (field; lra).
  assert (Hk : 0 < 360 / PI) by (apply Rdiv_lt_0_compat; lra).
  rewrite Rabs_mult, (Rabs_pos_eq (360 / PI)) by lra.
  replace (90 / (PI * cfk)) with (/ 2 * / (2 * cfk) * (360 / PI)) by (field; lra).
  apply Rmult_le_compat_r; [lra |].
  apply Rle_trans with (1 := Hlip).
  apply Rmult_le_compat_l; [lra | exact Hbar].
Qed.

Lemma Rabs_le_bounds (a b : R) : Rabs a <= b -> - b <= a <= b.
Proof.
  intros H. pose proof (Rle_abs a) as H1. pose proof (Rle_abs (- a)) as H2.
  rewrite Rabs_Ropp in H2. lra.
Qed.

(** The sine of 89.5 degrees is above the clamp of [ll2px]. *)
Lemma sin_near_pole : 0.9999 < sin (PI / 2 - PI / 360).
Proof.
  rewrite sin_shift.
  pose proof PI_RGT_0 as Hpi. pose proof PI_4 as Hpi4.
  destruct (pre_cos_bound (PI / 360) 0) as [Hlow _]; [lra | lra |].
  unfold cos_approx, cos_term in Hlow. simpl in Hlow.
  assert (Hsq : PI / 360 * (PI / 360) <= / 90 * / 90) by nra.
  lra.
Qed.

(** C8 (amended to the latitudes that [ll2px] does not clamp).  With the
    floats read as real numbers: for a zoom from 0 to 30, any longitude and
    a latitude in [-90, 90] whose sine lies in [-0.9999, 0.9999], [ll2px]
    and then [px2ll] return a point within one pixel of longitude
    ([1 / CEK[zoom]] degrees) of [(lat, lng)] on both axes. *)
Theorem round_trip_within_pixel (lat lng : R) (zoom : Z) :
  (0 <= zoom <= 30)%Z ->
  -90 <= lat <= 90 ->
  -0.9999 <= sin (lat * PI / 180) <= 0.9999 ->
  Spec.within_pixel lat lng zoom.
Proof.
  intros Hz Hlat Hs.
  pose proof PI_RGT_0 as Hpi. pose proof PI2_3_2 as Hpi3.
  destruct (tables_at zoom Hz) as [Hcek [Hcfk Hrel]].
  assert (Hphi : - (PI / 2) < lat * PI / 180 < PI / 2).
  { assert (Hlo : lat <> -90).
    { intros ->. replace (-90 * PI / 180) with (- (PI / 2)) in Hs by lra.
      rewrite sin_neg, sin_PI2 in Hs. lra. }
    assert (Hhi : lat <> 90).
    { intros ->. replace (90 * PI / 180) with (PI / 2) in Hs by lra.
      rewrite sin_PI2 in Hs. lra. }
    split; nra. }
  unfold Spec.within_pixel, Spec.round_trip, ll2px, px2ll, Spec.pixel_degrees.
  rewrite (zoom_ok_in_range zoom Hz). cbn [negb].
  destruct (Rlt_dec (sin (lat * PI / 180)) (-0.9999)) as [Hc | _]; [lra |].
  destruct (Rlt_dec 0.9999 (sin (lat * PI / 180))) as [Hc | _]; [lra |].
  eexists _, _. split; [reflexivity |]. split.
  - pose proof (lat_round_trip (lat * PI / 180) zoom Hz Hphi) as Hr.
    cbv zeta in Hr.
    replace (lat * PI / 180 / (PI / 180)) with lat in Hr by (field; lra).
    apply Rle_trans with (1 := Hr).
    apply (Rmult_le_reg_r (PI * index CFK zoom 0 * index CEK zoom 0)).
    + apply Rmult_lt_0_compat; [apply Rmult_lt_0_compat |]; lra.
    + replace (90 / (PI * index CFK zoom 0) * (PI * index CFK zoom 0 * index CEK zoom 0))
        with (90 * index CEK zoom 0) by (field; lra).
      replace (/ index CEK zoom 0 * (PI * index CFK zoom 0 * index CEK zoom 0))
        with (PI * index CFK zoom 0) by (field; lra).
      nra.
  - pose proof (scaled_round_near (index CBK zoom 0%Z) lng (index CEK zoom 0) Hcek) as Hr.
    apply Rle_trans with (1 := Hr).
    apply Rinv_le_contravar; lra.
Qed.

Lemma round_trip_within_pixel_witness : Spec.within_pixel 30 (-35) 8.
Proof.
  apply round_trip_within_pixel.
  - lia.
  - lra.
  - replace (30 * PI / 180) with (PI / 6) by lra. rewrite sin_PI6. lra.
Defined.

(** At the pole [ll2px] uses the sine 0.9999 in place of 1, and from zoom 3
    on [px2ll] returns a latitude more than a pixel below 90. *)
Lemma pole_round_trip (zoom : Z) :
  (3 <= zoom <= 30)%Z ->
  exists lat' lng',
    Spec.round_trip 90 0 zoom = inr (lat', lng')
    /\ lat' < 90 - Spec.pixel_degrees zoom.
Proof.
  intros Hz. assert (Hz0 : (0 <= zoom <= 30)%Z) by lia.
  pose proof PI_RGT_0 as Hpi. pose proof PI2_3_2 as Hpi3.
  destruct (tables_at zoom Hz0) as [Hcek [Hcfk _]].
  destruct (tables_from_3 zoom Hz) as [Hcek5 Hcfk300].
  unfold Spec.round_trip, ll2px, px2ll, Spec.pixel_degrees.
  rewrite (zoom_ok_in_range zoom Hz0). cbn [negb].
  replace (90 * PI / 180) with (PI / 2) by lra. rewrite sin_PI2.
  destruct (Rlt_dec 1 (-0.9999)) as [Hc | _]; [lra |].
  destruct (Rlt_dec 0.9999 1) as [_ | Hc]; [| lra].
  eexists _, _. split; [reflexivity |].
  set (phi := asin 0.9999).
  assert (Hsin : sin phi = 0.9999) by (apply sin_asin; lra).
  assert (Hphi : - (PI / 2) < phi < PI / 2).
  { destruct (asin_bound 0.9999) as [Hlo Hhi]. fold phi in Hlo, Hhi.
    assert (phi <> - (PI / 2)).
    { intros E. rewrite E, sin_neg, sin_PI2 in Hsin. lra. }
    assert (phi <> PI / 2).
    { intros E. rewrite E, sin_PI2 in Hsin. lra. }
    lra. }
  assert (Hbelow : phi < PI / 2 - PI / 360).
  { apply sin_increasing_0; try lra.
    rewrite Hsin. apply sin_near_pole. }
  pose proof (lat_round_trip phi zoom Hz0 Hphi) as Hr. cbv zeta in Hr.
  rewrite Hsin in Hr. apply Rabs_le_bounds in Hr. destruct Hr as [_ Hr].
  assert (H1 : phi / (PI / 180) < 89.5).
  { apply (Rmult_lt_reg_r (PI / 180)); [lra |].
    replace (phi / (PI / 180) * (PI / 180)) with phi by (field; lra). lra. }
  assert (H2 : 90 / (PI * index CFK zoom 0) <= 0.1).
  { apply (Rmult_le_reg_r (PI * index CFK zoom 0)); [nra |].
    replace (90 / (PI * index CFK zoom 0) * (PI * index CFK zoom 0)) with 90
      by (field; lra).
    nra. }
  assert (H3 : / index CEK zoom 0 <= / 5) by (apply Rinv_le_contravar; lra).
  lra.
Qed.

(** C8, as the claim states it: latitude 90 is a valid latitude, and at
    zoom 8 the round trip does not return a point within one pixel of it. *)
Lemma round_trip_off_at_pole : ~ Spec.within_pixel 90 0 8.
Proof.
  intros (lat & lng & Hrt & Hlat & _).
  destruct (pole_round_trip 8) as (lat' & lng' & Hrt' & Hoff); [lia |].
  rewrite Hrt in Hrt'. injection Hrt' as -> ->.
  apply Rabs_le_bounds in Hlat. lra.
Qed.

End RoundTrip.
(* ===================================================================== *)
(** * What the cache methods keep                                          *)
(* ===================================================================== *)

(** Every run of [m] ends: it returns or raises. *)
Definition ends {A} (m : M A) : Prop := forall w, fst (m w) <> OutOfFuel.

(** Every run of [m] takes a world to one that [R] relates to it. *)
Definition keeps (R : World -> World -> Prop) {A} (m : M A) : Prop :=
  forall w, R w (snd (m w)).

Section Ends.

Context {A B : Type}.

Lemma ends_ret (a : A) : ends (mret a : M A).
Proof. intros w. discriminate. Qed.

Lemma ends_raise (e : exn) : ends (raise e : M A).
Proof. intros w. discriminate. Qed.

Lemma ends_lift (r : result A) : ends (lift r).
Proof. destruct r; [apply ends_raise | apply ends_ret]. Qed.

Lemma ends_act (f : World -> outcome A * World) :
  (forall w, fst (f w) <> OutOfFuel) -> ends (act f).
Proof. auto. Qed.

Lemma ends_bind (m : M A) (f : A -> M B) :
  ends m -> (forall a, ends (f a)) -> ends (m ≫= f).
Proof.
  intros Hm Hf w. specialize (Hm w). unfold mbind, M_bind.
  destruct (m w) as [[a|e|] w']; simpl in *; [apply Hf | discriminate | congruence].
Qed.

Lemma ends_try_except (m : M A) (h : exn -> M A) :
  ends m -> (forall e, ends (h e)) -> ends (try_except m h).
Proof.
  intros Hm Hh w. specialize (Hm w). unfold try_except.
  destruct (m w) as [[a|e|] w']; simpl in *; [discriminate | apply Hh | congruence].
Qed.

Lemma ends_try_finally (m : M A) (f : M unit) :
  ends m -> ends f -> ends (try_finally m f).
Proof.
  intros Hm Hf w. specialize (Hm w). unfold try_finally.
  destruct (m w) as [[a|e|] w']; simpl in *; [| | congruence];
    specialize (Hf w'); destruct (f w') as [[u|e'|] w'']; simpl in *;
    congruence.
Qed.

End Ends.

Lemma ends_emit (e : event) : ends (emit e).
Proof. intros w. discriminate. Qed.

Section Keeps.

Variable R : World -> World -> Prop.
Hypothesis R_refl : forall w, R w w.
Hypothesis R_trans : forall w1 w2 w3, R w1 w2 -> R w2 w3 -> R w1 w3.

Context {A B : Type}.

Lemma keeps_ret (a : A) : keeps R (mret a : M A).
Proof using R_refl. intros w. apply R_refl. Qed.

Lemma keeps_raise (e : exn) : keeps R (raise e : M A).
Proof using R_refl. intros w. apply R_refl. Qed.

Lemma keeps_out_of_fuel : keeps R (out_of_fuel : M A).
Proof using R_refl. intros w. apply R_refl. Qed.

Lemma keeps_lift (r : result A) : keeps R (lift r).
Proof using R_refl. destruct r; [apply keeps_raise | apply keeps_ret]. Qed.

Lemma keeps_load (name : string) (v : local A) : keeps R (load name v).
Proof using R_refl. destruct v; [apply keeps_raise | apply keeps_ret]. Qed.

Lemma keeps_bind (m : M A) (f : A -> M B) :
  keeps R m -> (forall a, keeps R (f a)) -> keeps R (m ≫= f).
Proof using R_trans.
  intros Hm Hf w. specialize (Hm w). unfold mbind, M_bind.
  destruct (m w) as [[a|e|] w']; simpl in *; [| assumption ..].
  apply R_trans with (1 := Hm). apply Hf.
Qed.

Lemma keeps_try_except (m : M A) (h : exn -> M A) :
  keeps R m -> (forall e, keeps R (h e)) -> keeps R (try_except m h).
Proof using R_trans.
  intros Hm Hh w. specialize (Hm w). unfold try_except.
  destruct (m w) as [[a|e|] w']; simpl in *; [assumption | | assumption].
  apply R_trans with (1 := Hm). apply Hh.
Qed.

Lemma keeps_try_finally (m : M A) (f : M unit) :
  keeps R m -> keeps R f -> keeps R (try_finally m f).
Proof using R_trans.
  intros Hm Hf w. specialize (Hm w). unfold try_finally.
  destruct (m w) as [[a|e|] w']; simpl in *; [| | assumption];
    specialize (Hf w'); destruct (f w') as [[u|e'|] w'']; simpl in *;
    now apply R_trans with (1 := Hm).
Qed.

End Keeps.

(** A bind whose continuation is only run on the values [m] can return. *)
Lemma keeps_bind_val (R : World -> World -> Prop) {A B} (P : A -> Prop)
    (m : M A) (f : A -> M B) :
  (forall w1 w2 w3, R w1 w2 -> R w2 w3 -> R w1 w3) ->
  keeps R m ->
  (forall w a w', m w = (Val a, w') -> P a) ->
  (forall a, P a -> keeps R (f a)) ->
  keeps R (m ≫= f).
Proof.
  intros R_trans Hm HP Hf w. specialize (Hm w). specialize (HP w).
  unfold mbind, M_bind.
  destruct (m w) as [[a|e|] w']; simpl in *; [| assumption ..].
  apply R_trans with (1 := Hm). apply Hf. now apply (HP a w').
Qed.
(** ** Relations between the world before and the world after *)

Definition same_umask (w w' : World) : Prop := proc_umask w' = proc_umask w.
Definition same_clock (w w' : World) : Prop := clock w' = clock w.

(** The regular files are the same, with the same bytes, modes and times. *)
Definition same_files (w w' : World) : Prop :=
  forall p data mode mtime,
    fs w !! p = Some (File data mode mtime) <-> fs w' !! p = Some (File data mode mtime).

Lemma same_umask_refl (w : World) : same_umask w w.
Proof. reflexivity. Qed.
Lemma same_umask_trans (w1 w2 w3 : World) :
  same_umask w1 w2 -> same_umask w2 w3 -> same_umask w1 w3.
Proof. unfold same_umask. congruence. Qed.

Lemma same_clock_refl (w : World) : same_clock w w.
Proof. reflexivity. Qed.
Lemma same_clock_trans (w1 w2 w3 : World) :
  same_clock w1 w2 -> same_clock w2 w3 -> same_clock w1 w3.
Proof. unfold same_clock. congruence. Qed.

Lemma same_files_refl (w : World) : same_files w w.
Proof. intros p d m t. reflexivity. Qed.
Lemma same_files_trans (w1 w2 w3 : World) :
  same_files w1 w2 -> same_files w2 w3 -> same_files w1 w3.
Proof. intros H1 H2 p d m t. rewrite (H1 p d m t). apply H2. Qed.

Lemma same_files_fs (w w' : World) : fs w' = fs w -> same_files w w'.
Proof. intros E p d m t. now rewrite E. Qed.

(** Adding a directory where nothing was, removing a directory. *)
Lemma same_files_insert_dir (w w' : World) (p : string) (mode : Z) (mtime : Q) :
  fs w !! p = None -> fs w' = <[p := Dir mode mtime]> (fs w) -> same_files w w'.
Proof.
  intros Hn E q d m t. rewrite E.
  destruct (decide (q = p)) as [->|Hne].
  - rewrite lookup_insert_eq, Hn. split; discriminate.
  - now rewrite lookup_insert_ne.
Qed.

Lemma same_files_delete_dir (w w' : World) (p : string) (mode : Z) (mtime : Q) :
  fs w !! p = Some (Dir mode mtime) -> fs w' = delete p (fs w) -> same_files w w'.
Proof.
  intros Hn E q d m t. rewrite E.
  destruct (decide (q = p)) as [->|Hne].
  - rewrite lookup_delete_eq, Hn. split; discriminate.
  - now rewrite lookup_delete_ne.
Qed.

Lemma fs_mkdir_same_files (p : string) (mode : Z) (w w' : World) :
  fs_mkdir p mode w = inr w' -> same_files w w'.
Proof.
  unfold fs_mkdir. destruct (create_error (fs w) p) eqn:E; [discriminate |].
  intros [= <-]. apply create_error_none in E as [E _].
  now apply (same_files_insert_dir _ _ p (mask_mode mode (proc_umask w)) (clock w)).
Qed.

Lemma fs_makedirs_same_files (fuel : nat) (name : string) (mode : Z) (w w' : World) :
  fs_makedirs fuel name mode w = inr w' -> same_files w w'.
Proof.
  revert name w w'. induction fuel as [|fuel IH]; intros name w w'; simpl.
  - apply fs_mkdir_same_files.
  - destruct (PyStr.split name) as [head tail].
    destruct (match tail with
              | EmptyString => PyStr.split head
              | String _ _ => (head, tail)
              end) as [head' tail'].
    destruct head' as [|c h]; [apply fs_mkdir_same_files |].
    destruct tail' as [|c' t]; [apply fs_mkdir_same_files |].
    destruct (bool_decide _); [apply fs_mkdir_same_files |].
    destruct (fs_makedirs fuel (String c h) mode w) as [errno|w1] eqn:E1.
    + destruct (errno =? EEXIST)%Z; [| discriminate].
      destruct (String.eqb _ _); [| apply fs_mkdir_same_files].
      intros [= <-]. apply same_files_refl.
    + apply IH in E1. destruct (String.eqb _ _).
      * now intros [= <-].
      * intros H. apply fs_mkdir_same_files in H.
        now apply same_files_trans with w1.
Qed.

(** ** The system calls, relation by relation *)

Lemma ends_os_umask (mask : Z) : ends (os_umask mask).
Proof. intros w. discriminate. Qed.

Lemma ends_time_time : ends time_time.
Proof. intros w. discriminate. Qed.

Lemma ends_time_sleep (secs : Q) : ends (time_sleep secs).
Proof. intros w. discriminate. Qed.

Lemma ends_os_rmdir (p : string) : ends (os_rmdir p).
Proof.
  intros w. unfold os_rmdir. unfold_os.
  destruct (fs w !! p) as [[d m t|m t]|]; try discriminate.
  destruct (has_entries (fs w) p); discriminate.
Qed.

Lemma ends_os_makedirs (p : string) (mode : Z) : ends (os_makedirs p mode).
Proof.
  intros w. unfold os_makedirs. unfold_os.
  destruct (fs_makedirs _ _ _ _); discriminate.
Qed.

Lemma keeps_time_time (R : World -> World -> Prop) :
  (forall w, R w w) -> keeps R time_time.
Proof. intros H w. apply H. Qed.

Lemma keeps_os_path_exists (R : World -> World -> Prop) (p : string) :
  (forall w, R w w) -> keeps R (os_path_exists p).
Proof. intros H w. apply H. Qed.

Lemma keeps_os_stat_mtime (R : World -> World -> Prop) (p : string) :
  (forall w, R w w) -> keeps R (os_stat_mtime p).
Proof. intros H w. unfold os_stat_mtime. destruct (stat (fs w) p); apply H. Qed.

Lemma keeps_open_read (R : World -> World -> Prop) (p : string) :
  (forall w, R w w) -> keeps R (open_read p).
Proof.
  intros H w. unfold open_read. destruct (stat (fs w) p) as [[d m t|m t]|]; apply H.
Qed.

(** A system call that leaves alone what [R] looks at. *)
Ltac keeps_call :=
  let w := fresh "w" in
  intros w; unfold_os;
  repeat match goal with
         | |- context [match ?x with _ => _ end] => destruct x eqn:?
         end;
  world_simpl; try reflexivity.

(** ** The process umask *)

Lemma umask_emit (e : event) : keeps same_umask (emit e).
Proof. intros w. reflexivity. Qed.

Lemma umask_time_sleep (secs : Q) : keeps same_umask (time_sleep secs).
Proof. intros w. reflexivity. Qed.

Lemma umask_os_rmdir (p : string) : keeps same_umask (os_rmdir p).
Proof. unfold os_rmdir, same_umask. keeps_call. Qed.

Lemma umask_os_makedirs (p : string) (mode : Z) : keeps same_umask (os_makedirs p mode).
Proof.
  intros w. unfold os_makedirs, same_umask. unfold_os.
  destruct (fs_makedirs _ _ _ _) as [errno|w'] eqn:E; [reflexivity |].
  apply fs_makedirs_extends in E as (_ & _ & _ & _ & U & _). exact U.
Qed.

Lemma mkstemp_inner_keeps (tries : nat) (dir suffix : string) (w : World) :
  proc_umask (snd (mkstemp_inner tries dir suffix w)) = proc_umask w
  /\ clock (snd (mkstemp_inner tries dir suffix w)) = clock w.
Proof.
  revert w. induction tries as [|tries IH]; intros w; simpl; [auto |].
  unfold fs_open_excl. cbn [fs set_tmp_pos].
  destruct (create_error (fs w) _) as [errno|]; [| auto].
  destruct (errno =? EEXIST)%Z; [| auto].
  apply (IH (set_tmp_pos (S (tmp_pos w)) w)).
Qed.

Lemma ends_mkstemp (dir suffix : string) : ends (mkstemp dir suffix).
Proof.
  intros w. unfold mkstemp. unfold_os.
  match goal with |- context [mkstemp_inner ?t ?d ?s ?w0] =>
    pose proof (mkstemp_inner_spec t d s w0) as H;
    destruct (mkstemp_inner t d s w0) as [[[fd file]|e|] w']
  end; [discriminate | discriminate | destruct H].
Qed.

Lemma umask_mkstemp (dir suffix : string) : keeps same_umask (mkstemp dir suffix).
Proof.
  intros w. unfold mkstemp, same_umask. unfold_os.
  match goal with |- context [mkstemp_inner ?t ?d ?s ?w0] =>
    apply (mkstemp_inner_keeps t d s w0)
  end.
Qed.

Lemma umask_os_write (fd : Z) (data : string) : keeps same_umask (os_write fd data).
Proof. unfold os_write, same_umask. keeps_call. Qed.

Lemma umask_os_close (fd : Z) : keeps same_umask (os_close fd).
Proof. unfold os_close, same_umask. keeps_call. Qed.

Lemma umask_os_rename (src dst : string) : keeps same_umask (os_rename src dst).
Proof. unfold os_rename, same_umask. keeps_call. Qed.

Lemma umask_os_unlink (p : string) : keeps same_umask (os_unlink p).
Proof. unfold os_unlink, same_umask. keeps_call. Qed.

Lemma umask_os_remove (p : string) : keeps same_umask (os_remove p).
Proof. unfold os_remove, same_umask. keeps_call. Qed.

Lemma umask_os_chmod (p : string) (mode : Z) : keeps same_umask (os_chmod p mode).
Proof. unfold os_chmod, same_umask. keeps_call. Qed.

(** [umask_old = os.umask(u)], then [try: body  finally: os.umask(umask_old)]:
    when [body] ends and keeps the umask, the whole restores it. *)
Lemma umask_scope {A} (body : M A) (u : Z) :
  ends body -> keeps same_umask body ->
  keeps same_umask (umask_old ← os_umask u;
                    try_finally body (os_umask umask_old;; mret tt)).
Proof.
  intros He Hk w. unfold same_umask, os_umask. unfold_os.
  match goal with |- context [body ?w1] =>
    specialize (He w1); specialize (Hk w1); unfold same_umask in Hk;
    destruct (body w1) as [[a|e|] w2]
  end; simpl in *; [reflexivity | reflexivity | congruence].
Qed.

Ltac keeps_umask :=
  repeat first
    [ apply umask_emit | apply umask_time_sleep | apply umask_os_rmdir
    | apply umask_os_makedirs | apply umask_mkstemp | apply umask_os_write
    | apply umask_os_close | apply umask_os_rename | apply umask_os_unlink
    | apply umask_os_remove | apply umask_os_chmod
    | apply (keeps_time_time _ same_umask_refl)
    | apply (keeps_os_path_exists _ _ same_umask_refl)
    | apply (keeps_os_stat_mtime _ _ same_umask_refl)
    | apply (keeps_open_read _ _ same_umask_refl)
    | apply (keeps_ret _ same_umask_refl)
    | apply (keeps_raise _ same_umask_refl)
    | apply (keeps_lift _ same_umask_refl)
    | apply (keeps_load _ same_umask_refl)
    | apply (keeps_bind _ same_umask_trans); [| intros ?]
    | apply (keeps_try_except _ same_umask_trans); [| intros ?]
    | apply (keeps_try_finally _ same_umask_trans)
    | match goal with |- keeps _ (match ?x with _ => _ end) => destruct x end ].

Ltac ends_steps :=
  repeat first
    [ apply ends_emit
    | apply ends_os_umask | apply ends_time_time | apply ends_time_sleep
    | apply ends_os_rmdir | apply ends_os_makedirs | apply ends_mkstemp
    | apply ends_ret | apply ends_raise | apply ends_lift
    | apply ends_bind; [| intros ?]
    | apply ends_try_except; [| intros ?]
    | apply ends_try_finally
    | match goal with |- ends (match ?x with _ => _ end) => destruct x end ].

Lemma umask_lock_attempt (self : Disk) (lockpath : string) (due : Q) :
  keeps same_umask (Disk.lock_attempt self lockpath due).
Proof.
  unfold Disk.lock_attempt. apply umask_scope.
  - ends_steps.
  - keeps_umask.
Qed.

Lemma umask_lock_loop (fuel : nat) (self : Disk) (lockpath : string) (due : Q) :
  keeps same_umask (Disk.lock_loop fuel self lockpath due).
Proof.
  induction fuel as [|fuel IH]; simpl.
  - apply (keeps_out_of_fuel _ same_umask_refl).
  - apply (keeps_bind _ same_umask_trans); [apply umask_lock_attempt |].
    intros [|]; [apply (keeps_ret _ same_umask_refl) | exact IH].
Qed.

Lemma umask_lock (fuel : nat) (self : Disk) (layer : Layer) (sm : StaticMaps)
    (format : string) :
  keeps same_umask (Disk.lock fuel self layer sm format).
Proof. unfold Disk.lock. keeps_umask. apply umask_lock_loop. Qed.

Lemma umask_unlock (self : Disk) (layer : Layer) (sm : StaticMaps) (format : string) :
  keeps same_umask (Disk.unlock self layer sm format).
Proof. unfold Disk.unlock. keeps_umask. Qed.

Lemma umask_read (self : Disk) (layer : Layer) (sm : StaticMaps) (format : string) :
  keeps same_umask (Disk.read self layer sm format).
Proof.
  unfold Disk.read. keeps_umask.
Qed.

Lemma umask_save (self : Disk) (body : string) (layer : Layer) (sm : StaticMaps)
    (format : string) :
  keeps same_umask (Disk.save self body layer sm format).
Proof.
  destruct (Disk._fullpath self layer sm format) as [e|fullpath] eqn:Hp.
  - unfold Disk.save. rewrite Hp. keeps_umask.
  - rewrite (save_steps _ _ _ _ _ _ Hp).
    apply (keeps_bind _ same_umask_trans); [apply umask_emit | intros _].
    apply (keeps_bind _ same_umask_trans); [| intros _].
    + unfold ensure_dirs. apply umask_scope.
      * ends_steps.
      * keeps_umask.
    + unfold publish. keeps_umask.
Qed.

Lemma umask_render_tile (layer : Layer) (format : string) :
  keeps same_umask (render_tile layer format).
Proof. unfold render_tile. keeps_umask. Qed.

Lemma umask_getStaticMap (fuel : nat) (layer : Layer) (extension : string)
    (ignore_cached : bool) :
  keeps same_umask (getStaticMap fuel layer extension ignore_cached).
Proof.
  unfold getStaticMap.
  repeat first
    [ apply umask_lock | apply umask_unlock | apply umask_read | apply umask_save
    | apply umask_render_tile
    | apply (keeps_ret _ same_umask_refl)
    | apply (keeps_lift _ same_umask_refl)
    | apply (keeps_load _ same_umask_refl)
    | apply (keeps_time_time _ same_umask_refl)
    | apply (keeps_bind _ same_umask_trans); [| intros ?]
    | apply (keeps_try_finally _ same_umask_trans)
    | match goal with |- keeps _ (match ?x with _ => _ end) => destruct x end ].
Qed.

(** [Disk.lock] and [Disk.save] set the process umask to the cache's and put
    the caller's back before they end, whatever happens in between: after a
    call of [lock] (even one that is still waiting), of [save], or of
    [getStaticMap] as a whole, returned or raised, the process umask is what
    it was. *)
Theorem umask_restored (fuel : nat) (self : Disk) (body : string) (layer : Layer)
    (sm : StaticMaps) (format extension : string) (ignore_cached : bool) (w : World) :
  proc_umask (snd (Disk.lock fuel self layer sm format w)) = proc_umask w
  /\ proc_umask (snd (Disk.save self body layer sm format w)) = proc_umask w
  /\ proc_umask (snd (getStaticMap fuel layer extension ignore_cached w)) = proc_umask w.
Proof.
  split; [apply umask_lock | split; [apply umask_save | apply umask_getStaticMap]].
Qed.

(** ** Regular files under lock and unlock *)

Lemma files_emit (e : event) : keeps same_files (emit e).
Proof. intros w. now apply same_files_fs. Qed.

Lemma files_os_umask (mask : Z) : keeps same_files (os_umask mask).
Proof. intros w. now apply same_files_fs. Qed.

Lemma files_time_sleep (secs : Q) : keeps same_files (time_sleep secs).
Proof. intros w. now apply same_files_fs. Qed.

Lemma files_os_rmdir (p : string) : keeps same_files (os_rmdir p).
Proof.
  intros w. unfold os_rmdir. unfold_os.
  destruct (fs w !! p) as [[d m t|m t]|] eqn:Hp; try now apply same_files_fs.
  destruct (has_entries (fs w) p); [now apply same_files_fs |].
  now apply (same_files_delete_dir _ _ p m t).
Qed.

Lemma files_os_makedirs (p : string) (mode : Z) : keeps same_files (os_makedirs p mode).
Proof.
  intros w. unfold os_makedirs. unfold_os.
  destruct (fs_makedirs _ _ _ _) as [errno|w'] eqn:E; [now apply same_files_fs |].
  apply fs_makedirs_same_files in E. intros q d m t. apply (E q d m t).
Qed.

Ltac keeps_files :=
  repeat first
    [ apply files_emit | apply files_os_umask | apply files_time_sleep
    | apply files_os_rmdir | apply files_os_makedirs
    | apply (keeps_time_time _ same_files_refl)
    | apply (keeps_ret _ same_files_refl)
    | apply (keeps_raise _ same_files_refl)
    | apply (keeps_lift _ same_files_refl)
    | apply (keeps_bind _ same_files_trans); [| intros ?]
    | apply (keeps_try_except _ same_files_trans); [| intros ?]
    | apply (keeps_try_finally _ same_files_trans)
    | match goal with |- keeps _ (match ?x with _ => _ end) => destruct x end ].

Lemma files_lock_loop (fuel : nat) (self : Disk) (lockpath : string) (due : Q) :
  keeps same_files (Disk.lock_loop fuel self lockpath due).
Proof.
  induction fuel as [|fuel IH]; simpl.
  - apply (keeps_out_of_fuel _ same_files_refl).
  - apply (keeps_bind _ same_files_trans).
    + unfold Disk.lock_attempt. keeps_files.
    + intros [|]; [apply (keeps_ret _ same_files_refl) | exact IH].
Qed.

Lemma files_lock (fuel : nat) (self : Disk) (layer : Layer) (sm : StaticMaps)
    (format : string) :
  keeps same_files (Disk.lock fuel self layer sm format).
Proof. unfold Disk.lock. keeps_files. apply files_lock_loop. Qed.

Lemma files_unlock (self : Disk) (layer : Layer) (sm : StaticMaps) (format : string) :
  keeps same_files (Disk.unlock self layer sm format).
Proof. unfold Disk.unlock. keeps_files. Qed.

(** [Disk.lock] and [Disk.unlock] work on directories only: whatever they
    do (wait, reclaim a marker, raise), every regular file of the cache is
    there afterwards with the bytes, mode and time it had, and no regular
    file has appeared. *)
Theorem lock_unlock_keep_files (fuel : nat) (self : Disk) (layer : Layer)
    (sm : StaticMaps) (format : string) (w : World) :
  same_files w (snd (Disk.lock fuel self layer sm format w))
  /\ same_files w (snd (Disk.unlock self layer sm format w)).
Proof. split; [apply files_lock | apply files_unlock]. Qed.
(** ** What a successful save leaves behind *)

Lemma mkstemp_run (dir suffix : string) (w w1 : World) (fd : Z) (file : string) :
  mkstemp dir suffix w = (Val (fd, file), w1) ->
  fs w1 = <[file := File EmptyString (mask_mode 384 (proc_umask w)) (clock w)]> (fs w)
  /\ fds w1 !! fd = Some file
  /\ clock w1 = clock w.
Proof.
  unfold mkstemp. unfold_os.
  match goal with |- context [mkstemp_inner ?t ?d ?s ?w0] =>
    pose proof (mkstemp_inner_spec t d s w0) as H;
    destruct (mkstemp_inner t d s w0) as [[[fd' file']|e|] w']
  end; [| discriminate | destruct H].
  intros [= -> -> ->]. destruct H as (_ & _ & Hfs & Hfd & _ & Hc & _). auto.
Qed.

Lemma bind_run_val {A B} (m : M A) (f : A -> M B) (w w' : World) (b : B) :
  (m ≫= f) w = (Val b, w') ->
  exists a w1, m w = (Val a, w1) /\ f a w1 = (Val b, w').
Proof.
  unfold mbind, M_bind. destruct (m w) as [[a|e|] w1]; [eauto | discriminate ..].
Qed.

(** The publishing step, when it returns: the body is at the key's path,
    written at the clock reading of the call, and the clock has not moved. *)
Lemma publish_result (self : Disk) (body format fullpath : string) (w w' : World) :
  publish self body format fullpath w = (Val tt, w') ->
  fs w' !! fullpath = Some (File body (save_mode self) (clock w))
  /\ clock w' = clock w.
Proof.
  unfold publish. intros Hrun.
  apply bind_run_val in Hrun as ([fd tmp] & w1 & Hmk & Hrun).
  apply mkstemp_run in Hmk as (Hfs1 & Hfd1 & Hc1).
  assert (Hf1 : fs w1 !! tmp = Some (File EmptyString (mask_mode 384 (proc_umask w)) (clock w)))
    by (rewrite Hfs1; apply lookup_insert_eq).
  rewrite (bind_val _ _ _ _ _ (os_write_run fd body tmp _ _ _ w1 Hfd1 Hf1)) in Hrun.
  rewrite string_app_nil_l in Hrun.
  set (w2 := set_fs _ (add_event (Sys (Write fd body)) w1)) in Hrun.
  rewrite (bind_val _ _ _ _ _ (os_close_run fd tmp w2 Hfd1)) in Hrun.
  set (w3 := set_fds _ _ _) in Hrun.
  assert (Hf3 : fs w3 !! tmp = Some (File body (mask_mode 384 (proc_umask w)) (clock w))).
  { simpl. rewrite Hc1. apply lookup_insert_eq. }
  assert (Hc3 : clock w3 = clock w) by exact Hc1.
  clearbody w3. clear w2.
  assert (Hchmod : forall w4,
             fs w4 !! fullpath = Some (File body (mask_mode 384 (proc_umask w)) (clock w)) ->
             clock w4 = clock w ->
             os_chmod fullpath (mask_mode 438 (umask self)) w4 = (Val tt, w') ->
             fs w' !! fullpath = Some (File body (save_mode self) (clock w))
             /\ clock w' = clock w).
  { intros w4 H4 Hc4 Hch. rewrite (os_chmod_file _ _ _ _ _ _ H4) in Hch.
    injection Hch as <-. simpl. split; [apply lookup_insert_eq | exact Hc4]. }
  destruct (os_rename_cases tmp fullpath w3)
    as [(d & m & t & Hsrc & Hren) | (errno & Hren)].
  - rewrite Hf3 in Hsrc. injection Hsrc as <- <- <-.
    rewrite (bind_val _ _ _ _ _ (try_except_val _ _ _ _ _ Hren)) in Hrun.
    revert Hrun. apply Hchmod; [simpl; apply lookup_insert_eq | exact Hc3].
  - rewrite (bind_try_except_exn _ _ _ _ _ _ Hren) in Hrun. cbv beta iota in Hrun.
    rewrite bind_assoc_run in Hrun.
    set (w4 := add_event (Sys (Rename tmp fullpath)) w3) in *.
    destruct (os_unlink_cases fullpath w4) as [Hun | (errno' & Hun)].
    2:{ rewrite (bind_exn _ _ _ _ _ Hun) in Hrun. discriminate. }
    rewrite (bind_val _ _ _ _ _ Hun) in Hrun.
    set (w5 := set_fs (delete fullpath (fs w4)) _) in *.
    destruct (os_rename_cases tmp fullpath w5)
      as [(d & m & t & Hsrc & Hren2) | (errno2 & Hren2)].
    + simpl in Hsrc.
      assert (Hne : fullpath <> tmp).
      { intros ->. rewrite lookup_delete_eq in Hsrc. discriminate. }
      rewrite lookup_delete_ne, Hf3 in Hsrc by exact Hne. injection Hsrc as <- <- <-.
      rewrite (bind_val _ _ _ _ _ Hren2) in Hrun.
      revert Hrun. apply Hchmod; [simpl; apply lookup_insert_eq | exact Hc3].
    + rewrite (bind_exn _ _ _ _ _ Hren2) in Hrun. discriminate.
Qed.

Lemma save_result (self : Disk) (body : string) (layer : Layer) (sm : StaticMaps)
    (format : string) (w w' : World) :
  Disk.save self body layer sm format w = (Val tt, w') ->
  exists fullpath,
    Disk._fullpath self layer sm format = inr fullpath
    /\ fs w' !! fullpath = Some (File body (save_mode self) (clock w))
    /\ clock w' = clock w.
Proof.
  destruct (Disk._fullpath self layer sm format) as [e|fullpath] eqn:Hp.
  { unfold Disk.save. rewrite Hp. discriminate. }
  rewrite (save_steps _ _ _ _ _ _ Hp). intros Hrun.
  apply bind_run_val in Hrun as ([] & w0 & Hemit & Hrun).
  injection Hemit as <-.
  apply bind_run_val in Hrun as ([] & w1 & Hdirs & Hrun).
  destruct (ensure_dirs_spec self fullpath (add_event (CacheCall MSave sm format) w))
    as (r & w1' & Hrun1 & _ & _ & Hok).
  rewrite Hdirs in Hrun1. injection Hrun1 as <- <-.
  destruct (Hok eq_refl) as (_ & _ & Hc1 & _). simpl in Hc1.
  apply publish_result in Hrun as [Hfile Hc]. rewrite Hc1 in *.
  exists fullpath. auto.
Qed.

(** A path with a character that is not a separator is not the root. *)
Lemma all_sep_with (s t : string) (c : ascii) :
  Ascii.eqb c "/" = false -> PyStr.all_sep (s +:+ String c t) = false.
Proof.
  intros Hc. induction s as [|c' s IH].
  - rewrite string_app_nil_l. simpl. now rewrite Hc.
  - rewrite string_app_cons. simpl. rewrite IH. apply andb_false_r.
Qed.

Lemma is_root_with (s t : string) (c : ascii) :
  Ascii.eqb c "/" = false -> is_root (s +:+ String c t) = false.
Proof.
  intros Hc. unfold is_root. rewrite (all_sep_with s t c Hc).
  now destruct (s +:+ String c t).
Qed.

Lemma filepath_shape (layer : Layer) (sm : StaticMaps) (format filepath : string) :
  Disk._filepath layer sm format = inr filepath ->
  exists s t, filepath = s +:+ String "_" t.
Proof.
  unfold Disk._filepath.
  destruct (center_attr "lon" lon (center sm)) as [e|clon]; [discriminate |].
  destruct (center_attr "lat" lat (center sm)) as [e|clat]; [discriminate |].
  set (l := layer_name layer). set (z := PyStr.str (zoom sm)).
  set (x := PyStr.str (int_of_float ((clon + 180) * 10000))).
  set (y := PyStr.str (int_of_float ((clat + 90) * 10000))).
  assert (H : forall rest,
             PyStr.sep_join [l; z; x; y +:+ "_" +:+ rest]
             = (l +:+ "/" +:+ z +:+ "/" +:+ x +:+ "/" +:+ y) +:+ String "_" rest).
  { intros rest. unfold PyStr.sep_join. cbn [String.concat].
    rewrite !string_app_assoc. reflexivity. }
  destruct (marker sm) as [m|]; [| destruct (path sm)];
    intros [= <-]; rewrite H; eauto.
Qed.

Lemma fullpath_not_root (self : Disk) (layer : Layer) (sm : StaticMaps)
    (format fullpath : string) :
  Disk._fullpath self layer sm format = inr fullpath -> is_root fullpath = false.
Proof.
  unfold Disk._fullpath.
  destruct (Disk._filepath layer sm format) as [e|filepath] eqn:Hf; [discriminate |].
  intros [= <-]. apply filepath_shape in Hf as (s & t & ->).
  unfold PyStr.pathjoin.
  destruct (PyStr.startswith "/" (s +:+ String "_" t)); [now apply is_root_with |].
  destruct (cachepath self) as [|c a] eqn:Ha; [now apply is_root_with |].
  rewrite <- Ha.
  destruct (PyStr.endswith_sep (cachepath self)).
  - rewrite <- string_app_assoc. now apply is_root_with.
  - rewrite <- !string_app_assoc. now apply is_root_with.
Qed.

(** The life span, when set, is not negative. *)
Definition lifespan_ok (layer : Layer) : Prop :=
  forall n, cache_lifespan layer = Some n -> (0 <= n)%Z.

Lemma fresh_not_expired (layer : Layer) (now mtime : Q) :
  lifespan_ok layer -> now = mtime ->
  Disk.expired (cache_lifespan layer) (now - mtime) = false.
Proof.
  intros Hok ->. unfold Disk.expired.
  destruct (cache_lifespan layer) as [n|] eqn:E; [| reflexivity].
  specialize (Hok n E).
  apply andb_false_iff. right. apply Qltb_ge.
  assert (H0 : (mtime - mtime == 0)%Q) by ring. rewrite H0.
  change 0%Q with (inject_Z 0). rewrite <- Zle_Qle. exact Hok.
Qed.

Lemma read_after_save (self : Disk) (body : string) (layer : Layer) (sm : StaticMaps)
    (format : string) (w w' : World) :
  lifespan_ok layer ->
  Disk.save self body layer sm format w = (Val tt, w') ->
  fst (Disk.read self layer sm format w') = Val (Some body).
Proof.
  intros Hok Hsave.
  apply save_result in Hsave as (fullpath & Hp & Hfile & Hc).
  rewrite (read_run _ _ _ _ _ _ Hp). cbn [fst].
  unfold stat. rewrite (fullpath_not_root _ _ _ _ _ Hp), Hfile. cbn [node_mtime].
  now rewrite fresh_not_expired.
Qed.

(** Save, then read: when [Disk.save] returns, a [Disk.read] of the same key
    in the world it leaves returns the bytes that were saved (the life span
    of the layer, if set, not being negative). *)
Theorem save_then_read (self : Disk) (body : string) (layer : Layer) (sm : StaticMaps)
    (format : string) (w w' : World) :
  lifespan_ok layer ->
  Disk.save self body layer sm format w = (Val tt, w') ->
  fst (Disk.read self layer sm format w') = Val (Some body).
Proof. apply read_after_save. Qed.

Lemma save_then_read_witness :
  fst (Disk.read (mkDisk "cache" 18) (example_layer example_map) example_map "PNG"
         (snd (Disk.save (mkDisk "cache" 18) "PNG-bytes" (example_layer example_map)
                 example_map "PNG" empty_world)))
  = Val (Some "PNG-bytes").
Proof.
  apply (save_then_read (mkDisk "cache" 18) "PNG-bytes" (example_layer example_map)
           example_map "PNG" empty_world).
  - intros n [= <-]. lia.
  - vm_compute. reflexivity.
Defined.

(** ** Disk.remove *)

Lemma remove_run (self : Disk) (layer : Layer) (sm : StaticMaps)
    (format fullpath : string) (w : World) :
  Disk._fullpath self layer sm format = inr fullpath ->
  Disk.remove self layer sm format w
  = (match fs w !! fullpath with
     | Some (Dir _ _) => Exn (OSError EISDIR)
     | _ => Val tt
     end,
     set_fs (match fs w !! fullpath with
             | Some (File _ _ _) => delete fullpath (fs w)
             | _ => fs w
             end)
       (add_event (Sys (Remove fullpath)) (add_event (CacheCall MRemove sm format) w))).
Proof.
  intros Hp. unfold Disk.remove. rewrite Hp. unfold lift. unfold_os.
  destruct (fs w !! fullpath) as [[d m t|m t]|]; reflexivity.
Qed.

(** [Disk.remove] deletes the artifact of the key and nothing else; a key
    with no artifact is fine (errno 2 is passed over); a directory at the
    key's path makes it raise and stays.  After a remove that returned, a
    read of the key finds nothing. *)
Theorem remove_then_read (self : Disk) (layer : Layer) (sm : StaticMaps)
    (format fullpath : string) (w : World) :
  Disk._fullpath self layer sm format = inr fullpath ->
  let r := Disk.remove self layer sm format w in
  (fst r = Val tt <-> forall mode mtime, fs w !! fullpath <> Some (Dir mode mtime))
  /\ (fst r = Val tt ->
      fs (snd r) = delete fullpath (fs w)
      /\ fst (Disk.read self layer sm format (snd r)) = Val None)
  /\ (forall mode mtime, fs w !! fullpath = Some (Dir mode mtime) ->
      fst r = Exn (OSError EISDIR) /\ fs (snd r) = fs w).
Proof.
  intros Hp. rewrite (remove_run _ _ _ _ _ _ Hp). cbn [fst snd fs set_fs].
  assert (Hgone : forall w1, fs w1 = delete fullpath (fs w) ->
                    fst (Disk.read self layer sm format w1) = Val None).
  { intros w1 E. rewrite (read_run _ _ _ _ _ _ Hp). cbn [fst].
    unfold stat. rewrite (fullpath_not_root _ _ _ _ _ Hp), E, lookup_delete_eq.
    reflexivity. }
  destruct (fs w !! fullpath) as [[d m t|m t]|] eqn:Hf.
  - split; [| split].
    + split; [intros _ ? ?; discriminate | reflexivity].
    + intros _. split; [reflexivity | now apply Hgone].
    + intros ? ? [=].
  - split; [| split].
    + split; [discriminate | intros H; now destruct (H m t)].
    + discriminate.
    + intros ? ? _. split; reflexivity.
  - split; [| split].
    + split; [intros _ ? ?; discriminate | reflexivity].
    + intros _. assert (E : fs w = delete fullpath (fs w)) by (symmetry; now apply delete_id).
      split; [exact E | now apply Hgone].
    + intros ? ? [=].
Qed.

Lemma remove_then_read_witness :
  let r := Disk.remove (mkDisk "cache" 18) (example_layer example_map) example_map "PNG"
             (world_with_artifact 941) in
  (fst r = Val tt <->
     forall mode mtime,
       fs (world_with_artifact 941) !! "cache/markers/8/1450000/1020000_600x300.png"
       <> Some (Dir mode mtime))
  /\ (fst r = Val tt ->
      fs (snd r) = delete "cache/markers/8/1450000/1020000_600x300.png"
                     (fs (world_with_artifact 941))
      /\ fst (Disk.read (mkDisk "cache" 18) (example_layer example_map) example_map "PNG"
                (snd r)) = Val None)
  /\ (forall mode mtime,
        fs (world_with_artifact 941) !! "cache/markers/8/1450000/1020000_600x300.png"
        = Some (Dir mode mtime) ->
        fst r = Exn (OSError EISDIR) /\ fs (snd r) = fs (world_with_artifact 941)).
Proof.
  apply (remove_then_read (mkDisk "cache" 18) (example_layer example_map) example_map "PNG"
           "cache/markers/8/1450000/1020000_600x300.png" (world_with_artifact 941)).
  vm_compute. reflexivity.
Defined.
(** ** Disk.unlock *)

(** Can [rmdir] remove what is at [p]: an empty directory. *)
Definition removable (f : gmap string node) (p : string) : bool :=
  match f !! p with
  | Some (Dir _ _) => negb (has_entries f p)
  | _ => false
  end.

Lemma unlock_fs (self : Disk) (layer : Layer) (sm : StaticMaps) (format lockpath : string)
    (w : World) :
  Disk._lockpath self layer sm format = inr lockpath ->
  Disk.unlock self layer sm format w
  = (Val tt,
     set_fs (if removable (fs w) lockpath then delete lockpath (fs w) else fs w)
       (add_event (Sys (Rmdir lockpath)) (add_event (CacheCall MUnlock sm format) w))).
Proof.
  intros Hl. unfold Disk.unlock, removable. rewrite Hl. unfold lift. unfold_os.
  destruct (fs w !! lockpath) as [[d m t|m t]|]; try reflexivity.
  destruct (has_entries (fs w) lockpath); reflexivity.
Qed.

Lemma has_entries_false (f : gmap string node) (p : string) :
  has_entries f p = false <-> forall k n, f !! k = Some n -> PyStr.dirname k <> p.
Proof.
  unfold has_entries. rewrite <- not_true_iff_false, existsb_exists. split.
  - intros H k n Hk E. apply H. exists (k, n). split.
    + apply list_elem_of_In, elem_of_map_to_list. exact Hk.
    + simpl. rewrite E. apply String.eqb_refl.
  - intros H ([k n] & Hin & He).
    apply list_elem_of_In, elem_of_map_to_list in Hin. apply String.eqb_eq in He.
    exact (H k n Hin He).
Qed.

(** [Disk.unlock] on a key with a center never raises: whatever is or is not
    at the lock path, it returns.  It changes nothing but the entry at the
    lock path, and a second unlock straight after the first changes nothing
    at all. *)
Theorem unlock_returns_and_repeats (self : Disk) (layer : Layer) (sm : StaticMaps)
    (format lockpath : string) (w : World) :
  Disk._lockpath self layer sm format = inr lockpath ->
  let w1 := snd (Disk.unlock self layer sm format w) in
  fst (Disk.unlock self layer sm format w) = Val tt
  /\ (forall p, p <> lockpath -> fs w1 !! p = fs w !! p)
  /\ fst (Disk.unlock self layer sm format w1) = Val tt
  /\ fs (snd (Disk.unlock self layer sm format w1)) = fs w1.
Proof.
  intros Hl. cbv zeta. rewrite !(unlock_fs _ _ _ _ _ _ Hl). cbn [fst snd fs set_fs add_event].
  split; [reflexivity |]. split; [| split; [reflexivity |]].
  - intros p Hne. destruct (removable (fs w) lockpath); [| reflexivity].
    now rewrite lookup_delete_ne.
  - destruct (removable (fs w) lockpath) eqn:Hr.
    + unfold removable at 1. now rewrite lookup_delete_eq.
    + now rewrite Hr.
Qed.

Lemma unlock_returns_and_repeats_witness :
  let unlock := Disk.unlock (mkDisk "cache" 18) (example_layer example_map) example_map "PNG" in
  let w1 := snd (unlock (world_with_marker 0)) in
  fst (unlock (world_with_marker 0)) = Val tt
  /\ (forall p, p <> example_lockpath -> fs w1 !! p = fs (world_with_marker 0) !! p)
  /\ fst (unlock w1) = Val tt
  /\ fs (snd (unlock w1)) = fs w1.
Proof.
  apply (unlock_returns_and_repeats (mkDisk "cache" 18) (example_layer example_map)
           example_map "PNG" example_lockpath (world_with_marker 0)).
  vm_compute. reflexivity.
Defined.

(** ** What Disk.lock leaves when it returns *)

Lemma fs_mkdir_made (p : string) (mode : Z) (w w' : World) :
  fs_mkdir p mode w = inr w' ->
  fs w' !! p = Some (Dir (mask_mode mode (proc_umask w)) (clock w)).
Proof.
  unfold fs_mkdir. destruct (create_error (fs w) p); [discriminate |].
  intros [= <-]. simpl. apply lookup_insert_eq.
Qed.

(** [os.makedirs(name)], when it returns, has made the directory [name]
    itself (the last component not being empty or [.]). *)
Lemma fs_makedirs_made (fuel : nat) (name : string) (mode : Z) (w w' : World) :
  snd (PyStr.split name) <> EmptyString ->
  snd (PyStr.split name) <> "." ->
  fs_makedirs fuel name mode w = inr w' ->
  fs w' !! name = Some (Dir (mask_mode mode (proc_umask w)) (clock w)).
Proof.
  intros Hne Hdot. destruct fuel as [|fuel]; simpl; [apply fs_mkdir_made |].
  destruct (PyStr.split name) as [head tail]. simpl in Hne, Hdot.
  destruct tail as [|c' t]; [congruence |].
  destruct head as [|c h]; [apply fs_mkdir_made |].
  destruct (bool_decide _); [apply fs_mkdir_made |].
  assert (Hd : String.eqb (String c' t) "." = false) by now apply String.eqb_neq.
  rewrite Hd.
  destruct (fs_makedirs fuel (String c h) mode w) as [errno|w1] eqn:E1.
  - destruct (errno =? EEXIST)%Z; [apply fs_mkdir_made | discriminate].
  - apply fs_makedirs_extends in E1 as (_ & _ & _ & C1 & U1 & _).
    intros H. apply fs_mkdir_made in H. now rewrite U1, C1 in H.
Qed.

Lemma rsplit_sep_keeps_suffix (s t : string) :
  no_sep t = true -> exists u, snd (PyStr.rsplit_sep (s +:+ t)) = u +:+ t.
Proof.
  intros Hns. induction s as [|c s IH].
  - exists EmptyString. now rewrite !string_app_nil_l, rsplit_sep_no_sep.
  - destruct IH as [u Hu]. rewrite string_app_cons. simpl.
    destruct (PyStr.rsplit_sep (s +:+ t)) as [h t'] eqn:E. simpl in Hu. subst t'.
    destruct h as [|c' h'].
    + pose proof (rsplit_sep_app (s +:+ t)) as Happ. rewrite E in Happ. simpl in Happ.
      rewrite string_app_nil_l in Happ.
      destruct (Ascii.eqb c "/"); simpl.
      * exists s. congruence.
      * exists (String c s). rewrite string_app_cons. congruence.
    + exists u. reflexivity.
Qed.

Lemma lockpath_tail (self : Disk) (layer : Layer) (sm : StaticMaps) (format lockpath : string) :
  Disk._lockpath self layer sm format = inr lockpath ->
  snd (PyStr.split lockpath) <> EmptyString /\ snd (PyStr.split lockpath) <> ".".
Proof.
  unfold Disk._lockpath. destruct (Disk._fullpath self layer sm format) as [e|fullpath];
    [discriminate |].
  intros [= <-]. rewrite split_tail.
  destruct (rsplit_sep_keeps_suffix fullpath ".lock" eq_refl) as [u ->].
  split; intros E; apply (f_equal String.length) in E;
    rewrite string_length_app in E; simpl in E; lia.
Qed.

(** A round of the loop that acquires leaves the marker, made in that
    round. *)
Lemma lock_attempt_acquired (self : Disk) (lockpath : string) (due : Q) (w w' : World) :
  snd (PyStr.split lockpath) <> EmptyString ->
  snd (PyStr.split lockpath) <> "." ->
  Disk.lock_attempt self lockpath due w = (Val true, w') ->
  fs w' !! lockpath = Some (Dir (mask_mode (lock_mode self) (umask self)) (clock w')).
Proof.
  intros Hne Hdot. unfold Disk.lock_attempt. unfold_os.
  assert (Hmk : forall w1 w2,
             proc_umask w1 = umask self ->
             fs_makedirs (String.length lockpath) lockpath (mask_mode 511 (umask self)) w1
             = inr w2 ->
             fs w2 !! lockpath
             = Some (Dir (mask_mode (lock_mode self) (umask self)) (clock w2))).
  { intros w1 w2 Hu Hmk. pose proof (fs_makedirs_made _ _ _ _ _ Hne Hdot Hmk) as H.
    apply fs_makedirs_extends in Hmk as (_ & _ & _ & C & _). now rewrite Hu, <- C in H. }
  destruct (Qltb due (clock w)); simpl.
  - destruct (fs w !! lockpath) as [[d m t|m t]|]; simpl;
      [| destruct (has_entries (fs w) lockpath); simpl | ];
      (destruct (fs_makedirs _ _ _ _) as [errno|w2] eqn:E; simpl;
       [ destruct (errno =? 17)%Z; simpl; discriminate
       | intros [= <-]; simpl; eapply Hmk; [| exact E]; reflexivity ]).
  - destruct (fs_makedirs _ _ _ _) as [errno|w2] eqn:E; simpl;
      [ destruct (errno =? 17)%Z; simpl; discriminate
      | intros [= <-]; simpl; eapply Hmk; [| exact E]; reflexivity ].
Qed.

Lemma lock_loop_acquired (fuel : nat) (self : Disk) (lockpath : string) (due : Q)
    (w w' : World) :
  snd (PyStr.split lockpath) <> EmptyString ->
  snd (PyStr.split lockpath) <> "." ->
  Disk.lock_loop fuel self lockpath due w = (Val tt, w') ->
  fs w' !! lockpath = Some (Dir (mask_mode (lock_mode self) (umask self)) (clock w')).
Proof.
  intros Hne Hdot. revert w. induction fuel as [|fuel IH]; intros w; simpl; [discriminate |].
  intros Hrun. apply bind_run_val in Hrun as ([|] & w1 & Hatt & Hrun).
  - injection Hrun as <-. now apply (lock_attempt_acquired self lockpath due w).
  - now apply (IH w1).
Qed.

(** When [Disk.lock] returns, the lock marker is in place: a directory at
    the lock path, made by this call in its last round (its time is the
    clock reading at the return), with mode [0777 & ~umask]. *)
Theorem lock_leaves_marker (fuel : nat) (self : Disk) (layer : Layer) (sm : StaticMaps)
    (format : string) (w w' : World) :
  Disk.lock fuel self layer sm format w = (Val tt, w') ->
  exists lockpath,
    Disk._lockpath self layer sm format = inr lockpath
    /\ fs w' !! lockpath
       = Some (Dir (mask_mode (lock_mode self) (umask self)) (clock w')).
Proof.
  destruct (Disk._lockpath self layer sm format) as [e|lockpath] eqn:Hl.
  { unfold Disk.lock. rewrite Hl. discriminate. }
  rewrite (lock_run _ _ _ _ _ _ _ Hl). intros Hrun.
  destruct (lockpath_tail _ _ _ _ _ Hl) as [Hne Hdot].
  exists lockpath. split; [reflexivity |].
  now apply (lock_loop_acquired fuel self lockpath _ _ w' Hne Hdot) in Hrun.
Qed.

Lemma lock_leaves_marker_witness :
  exists lockpath,
    Disk._lockpath (mkDisk "cache" 18) (example_layer example_map) example_map "PNG"
    = inr lockpath
    /\ fs (snd (Disk.lock 77 (mkDisk "cache" 18) (example_layer example_map) example_map
                  "PNG" (world_with_marker 0))) !! lockpath
       = Some (Dir (mask_mode (lock_mode (mkDisk "cache" 18)) 18)
                 (clock (snd (Disk.lock 77 (mkDisk "cache" 18) (example_layer example_map)
                                example_map "PNG" (world_with_marker 0))))).
Proof.
  apply (lock_leaves_marker 77 (mkDisk "cache" 18) (example_layer example_map) example_map
           "PNG" (world_with_marker 0)).
  vm_compute. reflexivity.
Defined.

(** ** Lock, then unlock *)

Lemma has_entries_insert_self (f : gmap string node) (p : string) (n : node) :
  proper_path p -> has_entries f p = false -> has_entries (<[p := n]> f) p = false.
Proof.
  intros Hp He. rewrite has_entries_false in *. intros k n' Hk.
  destruct (decide (k = p)) as [->|Hne].
  - apply dirname_neq, Hp.
  - rewrite lookup_insert_ne in Hk by congruence. now apply (He k n').
Qed.

(** On a key that is free (nothing at the lock path, its directory in
    place) [Disk.lock] acquires in its first round, without sleeping, and
    the [Disk.unlock] that follows puts the file system back as it was
    before the lock. *)
Theorem lock_then_unlock (fuel : nat) (self : Disk) (layer : Layer) (sm : StaticMaps)
    (format lockpath : string) (w : World) :
  Disk._lockpath self layer sm format = inr lockpath ->
  fs w !! lockpath = None ->
  has_entries (fs w) lockpath = false ->
  is_dir (fs w) (PyStr.dirname lockpath) = true ->
  (0 <= stale_lock_timeout layer)%Z ->
  let r := Disk.lock (S fuel) self layer sm format w in
  fst r = Val tt
  /\ count_sleeps (trace (snd r)) = count_sleeps (trace w)
  /\ fs (snd (Disk.unlock self layer sm format (snd r))) = fs w.
Proof.
  intros Hl Hn He Hd Ht. cbv zeta.
  pose proof (lockpath_proper _ _ _ _ _ Hl) as Hp.
  rewrite (lock_run _ _ _ _ _ _ _ Hl). cbn [Disk.lock_loop].
  assert (Hdue : (clock (add_event (CacheCall MLock sm format) w)
                  <= clock w + inject_Z (stale_lock_timeout layer))%Q).
  { simpl. rewrite <- (Qplus_0_r (clock w)) at 1. apply Qplus_le_r.
    change 0%Q with (inject_Z 0). now rewrite <- Zle_Qle. }
  rewrite (bind_val _ _ _ _ _
             (lock_attempt_free self lockpath _ (add_event (CacheCall MLock sm format) w)
                Hp Hn Hd Hdue)).
  unfold mret, M_ret. cbn [fst snd]. split; [reflexivity |]. split.
  - unfold acquired. cbn [trace add_event].
    rewrite !count_sleeps_app. unfold count_sleeps. simpl. lia.
  - rewrite (unlock_fs _ _ _ _ _ _ Hl). unfold acquired, add_event, set_fs.
    cbn [snd fs clock].
    assert (Hr : removable (<[lockpath := Dir (mask_mode (lock_mode self) (umask self))
                                           (clock w)]> (fs w)) lockpath = true).
    { unfold removable. rewrite lookup_insert_eq.
      now rewrite has_entries_insert_self. }
    rewrite Hr. now apply delete_insert_id.
Qed.

Lemma lock_then_unlock_witness :
  let w := world_with_artifact 941 in
  let w0 := set_fs (<["cache/markers/8/1450000" := Dir 493 0]> (fs w)) w in
  let r := Disk.lock 1 (mkDisk "cache" 18) (example_layer example_map) example_map "PNG" w0 in
  fst r = Val tt
  /\ count_sleeps (trace (snd r)) = count_sleeps (trace w0)
  /\ fs (snd (Disk.unlock (mkDisk "cache" 18) (example_layer example_map) example_map "PNG"
                (snd r))) = fs w0.
Proof.
  apply (lock_then_unlock 0 (mkDisk "cache" 18) (example_layer example_map) example_map
           "PNG" example_lockpath).
  - vm_compute. reflexivity.
  - vm_compute. reflexivity.
  - vm_compute. reflexivity.
  - vm_compute. reflexivity.
  - simpl. lia.
Defined.

(** ** A lock path that cannot be cleared *)

(** With something at the lock path that [rmdir] cannot remove, a round of
    the loop sleeps and goes round again, before the deadline and after
    it. *)
Lemma lock_attempt_blocked (self : Disk) (lockpath : string) (due : Q) (w : World) (n : node) :
  proper_path lockpath ->
  fs w !! lockpath = Some n ->
  removable (fs w) lockpath = false ->
  is_dir (fs w) (PyStr.dirname lockpath) = true ->
  exists w',
    Disk.lock_attempt self lockpath due w = (Val false, w')
    /\ fs w' = fs w
    /\ count_sleeps (trace w') = S (count_sleeps (trace w)).
Proof.
  intros Hp Hn Hr Hd. destruct (Qltb due (clock w)) eqn:Hdue.
  - unfold removable in Hr. rewrite Hn in Hr.
    unfold Disk.lock_attempt. unfold_os. rewrite Hdue. world_simpl. rewrite Hn.
    destruct n as [d m t|m t].
    + world_simpl.
      rewrite fs_makedirs_parent_ready by (simpl; assumption).
      rewrite (fs_mkdir_exists _ _ _ (File d m t)) by (simpl; assumption).
      simpl. eexists. split; [reflexivity |]. simpl. split; [reflexivity |].
      rewrite !count_sleeps_app. unfold count_sleeps. simpl. lia.
    + apply negb_false_iff in Hr. rewrite Hr. world_simpl.
      rewrite fs_makedirs_parent_ready by (simpl; assumption).
      rewrite (fs_mkdir_exists _ _ _ (Dir m t)) by (simpl; assumption).
      simpl. eexists. split; [reflexivity |]. simpl. split; [reflexivity |].
      rewrite !count_sleeps_app. unfold count_sleeps. simpl. lia.
  - apply Qltb_ge in Hdue.
    rewrite (lock_attempt_held self lockpath due w n Hp Hn Hd Hdue).
    eexists. split; [reflexivity |]. split; [reflexivity |].
    unfold slept. cbn [trace]. rewrite count_sleeps_app. unfold count_sleeps. simpl. lia.
Qed.

Lemma lock_loop_blocked (fuel : nat) (self : Disk) (lockpath : string) (due : Q)
    (w : World) (n : node) :
  proper_path lockpath ->
  fs w !! lockpath = Some n ->
  removable (fs w) lockpath = false ->
  is_dir (fs w) (PyStr.dirname lockpath) = true ->
  exists w',
    Disk.lock_loop fuel self lockpath due w = (OutOfFuel, w')
    /\ fs w' = fs w
    /\ count_sleeps (trace w') = (count_sleeps (trace w) + fuel)%nat.
Proof.
  intros Hp. revert w. induction fuel as [|fuel IH]; intros w Hn Hr Hd; simpl.
  - exists w. repeat split. lia.
  - destruct (lock_attempt_blocked self lockpath due w n Hp Hn Hr Hd)
      as (w1 & Hrun & Hfs & Hsl).
    rewrite (bind_val _ _ _ _ _ Hrun). cbv beta iota.
    destruct (IH w1) as (w' & Hrun' & Hfs' & Hsl'); rewrite ?Hfs; try assumption.
    exists w'. split; [exact Hrun' |]. split; [congruence | lia].
Qed.

(** [Disk.lock] has no way out but success: with a regular file or a
    directory that is not empty at the lock path (its directory being in
    place), every round sleeps 200 ms and goes round again, before the
    deadline and after it.  However many rounds are run, the call has not
    returned and has not raised, and the file system is as it was. *)
Theorem lock_never_gives_up (fuel : nat) (self : Disk) (layer : Layer) (sm : StaticMaps)
    (format lockpath : string) (w : World) (n : node) :
  Disk._lockpath self layer sm format = inr lockpath ->
  fs w !! lockpath = Some n ->
  removable (fs w) lockpath = false ->
  is_dir (fs w) (PyStr.dirname lockpath) = true ->
  let r := Disk.lock fuel self layer sm format w in
  fst r = OutOfFuel
  /\ fs (snd r) = fs w
  /\ count_sleeps (trace (snd r)) = (count_sleeps (trace w) + fuel)%nat.
Proof.
  intros Hl Hn Hr Hd. cbv zeta.
  pose proof (lockpath_proper _ _ _ _ _ Hl) as Hp.
  rewrite (lock_run _ _ _ _ _ _ _ Hl).
  destruct (lock_loop_blocked fuel self lockpath
              (clock w + inject_Z (stale_lock_timeout layer))
              (add_event (CacheCall MLock sm format) w) n Hp Hn Hr Hd)
    as (w' & Hrun & Hfs & Hsl).
  rewrite Hrun. cbn [fst snd]. split; [reflexivity |]. split; [exact Hfs |].
  rewrite Hsl. cbn [trace add_event]. rewrite count_sleeps_app.
  unfold count_sleeps. simpl. lia.
Qed.

(** A regular file where the marker of the example key would go. *)
Definition world_with_file_at_lockpath : World :=
  mkWorld {[ "cache" := Dir 493 0;
             "cache/markers" := Dir 493 0;
             "cache/markers/8" := Dir 493 0;
             "cache/markers/8/1450000" := Dir 493 0;
             example_lockpath := File "x" 420 0 ]}
          ∅ 3 1000 18 true (fun n => PyStr.str (Z.of_nat n)) 0 [].

Lemma lock_never_gives_up_witness :
  let r := Disk.lock 500 (mkDisk "cache" 18) (example_layer example_map) example_map "PNG"
             world_with_file_at_lockpath in
  fst r = OutOfFuel
  /\ fs (snd r) = fs world_with_file_at_lockpath
  /\ count_sleeps (trace (snd r))
     = (count_sleeps (trace world_with_file_at_lockpath) + 500)%nat.
Proof.
  apply (lock_never_gives_up 500 (mkDisk "cache" 18) (example_layer example_map) example_map
           "PNG" example_lockpath world_with_file_at_lockpath (File "x" 420 0)).
  - vm_compute. reflexivity.
  - vm_compute. reflexivity.
  - vm_compute. reflexivity.
  - vm_compute. reflexivity.
Defined.
(* ===================================================================== *)
(** * getStaticMap and the cache                                           *)
(* ===================================================================== *)

(** Events that change nothing: a cache read, a call of the renderer. *)
Definition passive (e : event) : bool :=
  match e with
  | CacheCall MRead _ _ | RenderCall _ _ => true
  | _ => false
  end.

(** The file system is the same and all that happened in between is
    passive: no system call, no [lock], [unlock], [save] or [remove]. *)
Definition untouched (w w' : World) : Prop :=
  fs w' = fs w /\ exists t, trace w' = trace w ++ t /\ forallb passive t = true.

Lemma untouched_refl (w : World) : untouched w w.
Proof. split; [reflexivity |]. exists []. now rewrite app_nil_r. Qed.

Lemma untouched_trans (w1 w2 w3 : World) :
  untouched w1 w2 -> untouched w2 w3 -> untouched w1 w3.
Proof.
  intros [F1 (t1 & T1 & P1)] [F2 (t2 & T2 & P2)]. split; [congruence |].
  exists (t1 ++ t2). split; [now rewrite T2, T1, app_assoc |].
  now rewrite forallb_app, P1, P2.
Qed.

Lemma untouched_emit (e : event) : passive e = true -> keeps untouched (emit e).
Proof.
  intros He w. split; [reflexivity |]. exists [e]. split; [reflexivity |].
  simpl. now rewrite He.
Qed.

Ltac keeps_untouched :=
  repeat first
    [ apply untouched_emit; reflexivity
    | apply (keeps_time_time _ untouched_refl)
    | apply (keeps_os_path_exists _ _ untouched_refl)
    | apply (keeps_os_stat_mtime _ _ untouched_refl)
    | apply (keeps_open_read _ _ untouched_refl)
    | apply (keeps_ret _ untouched_refl)
    | apply (keeps_raise _ untouched_refl)
    | apply (keeps_lift _ untouched_refl)
    | apply (keeps_load _ untouched_refl)
    | apply (keeps_bind _ untouched_trans); [| intros ?]
    | apply (keeps_try_except _ untouched_trans); [| intros ?]
    | apply (keeps_try_finally _ untouched_trans)
    | match goal with |- keeps _ (match ?x with _ => _ end) => destruct x end ].

Lemma untouched_read (self : Disk) (layer : Layer) (sm : StaticMaps) (format : string) :
  keeps untouched (Disk.read self layer sm format).
Proof. unfold Disk.read. keeps_untouched. Qed.

Lemma untouched_render_tile (layer : Layer) (format : string) :
  keeps untouched (render_tile layer format).
Proof. unfold render_tile. keeps_untouched. Qed.

(** A layer that does not write its cache ([write_cache] false) leaves the
    cache directory alone: whatever [getStaticMap] does and however it ends,
    the file system is as it was (no lock marker, no directory, no
    artifact), and all it has done is read the cache and call the
    renderer: no system call, no [lock], [unlock] or [save]. *)
Theorem read_only_layer_keeps_fs (fuel : nat) (layer : Layer) (extension : string)
    (ignore_cached : bool) (w : World) :
  write_cache layer = false ->
  let w' := snd (getStaticMap fuel layer extension ignore_cached w) in
  fs w' = fs w
  /\ exists t, trace w' = trace w ++ t /\ forallb passive t = true.
Proof.
  intros Hwc. cbv zeta.
  change (untouched w (snd (getStaticMap fuel layer extension ignore_cached w))).
  revert w. change (keeps untouched (getStaticMap fuel layer extension ignore_cached)).
  unfold getStaticMap. rewrite Hwc. cbn [negb].
  repeat first
    [ apply untouched_read | apply untouched_render_tile
    | apply (keeps_time_time _ untouched_refl)
    | apply (keeps_ret _ untouched_refl)
    | apply (keeps_lift _ untouched_refl)
    | apply (keeps_load _ untouched_refl)
    | apply (keeps_bind _ untouched_trans); [| intros ?]
    | apply (keeps_try_finally _ untouched_trans)
    | match goal with |- keeps _ (match ?x with _ => _ end) => destruct x end ].
Qed.

Lemma read_only_layer_keeps_fs_witness :
  let layer := mkLayer "markers" (mkDisk "cache" 18) example_map (Some 60%Z) 15 false
                 (fun _ => inr ("image/png", "PNG")) (fun _ _ => Rendered example_tile)
                 [] [] None None true in
  let w' := snd (getStaticMap 10 layer "png" false empty_world) in
  fs w' = fs empty_world
  /\ exists t, trace w' = trace empty_world ++ t /\ forallb passive t = true.
Proof.
  apply (read_only_layer_keeps_fs 10 _ "png" false empty_world). reflexivity.
Defined.

(** ** A call that returns leaves the cache primed *)

(** A read of the layer's key in [w] returns [body]. *)
Definition primed (layer : Layer) (format body : string) (w : World) : Prop :=
  fst (Disk.read (cache layer) layer (staticmap layer) format w) = Val (Some body).

(** What a read returns is decided by the regular files and the clock. *)
Lemma primed_kept (layer : Layer) (format body : string) (w w' : World) :
  primed layer format body w -> same_files w w' -> clock w' = clock w ->
  primed layer format body w'.
Proof.
  unfold primed. intros Hp Hf Hc.
  destruct (Disk._fullpath (cache layer) layer (staticmap layer) format)
    as [e|fullpath] eqn:Hfp.
  { unfold Disk.read in Hp. rewrite Hfp in Hp. discriminate. }
  rewrite (read_run _ _ _ _ _ w Hfp) in Hp. rewrite (read_run _ _ _ _ _ w' Hfp).
  cbn [fst] in *. unfold stat in *. rewrite (fullpath_not_root _ _ _ _ _ Hfp) in *.
  destruct (fs w !! fullpath) as [[d m t|m t]|] eqn:Hn; simpl in Hp.
  - apply (Hf fullpath d m t) in Hn. rewrite Hn, Hc. exact Hp.
  - destruct (Disk.expired _ _); discriminate.
  - discriminate.
Qed.

Lemma getStaticMap_on_hit (fuel : nat) (layer : Layer) (extension mimetype format : string)
    (w w1 : World) (body : string) :
  getTypeByExtension layer extension = inr (mimetype, format) ->
  Disk.read (cache layer) layer (staticmap layer) format w = (Val (Some body), w1) ->
  getStaticMap fuel layer extension false w = (Val (mimetype, body), w1).
Proof.
  intros Ht Hread.
  destruct (read_returns _ _ _ _ _ _ _ Hread) as ([fullpath Hp] & Hw1).
  destruct (fullpath_center _ _ _ _ _ Hp) as [c Hc].
  unfold getStaticMap. rewrite Ht, Hc. cbn [negb lift center_attr].
  rewrite (bind_val _ _ w w (clock w)) by reflexivity.
  rewrite (bind_val _ _ w w (mimetype, format)) by reflexivity.
  rewrite bind_assoc_run, (bind_val _ _ _ _ _ Hread). reflexivity.
Qed.

(** A postcondition that asks nothing of a run that does not return. *)
Lemma wp_vacuous {A} (m : M A) (w : World) (Q : outcome A -> World -> Prop) :
  (forall r w', (forall a, r <> Val a) -> Q r w') ->
  (forall a w', Q (Val a) w') ->
  wp m w Q.
Proof.
  intros Hn Hv. unfold wp. destruct (m w) as [[a|e|] w']; simpl;
    [apply Hv | apply Hn; discriminate | apply Hn; discriminate].
Qed.

Lemma unlock_keeps_primed (layer : Layer) (format body : string) (w : World) :
  primed layer format body w ->
  primed layer format body
    (snd (Disk.unlock (cache layer) layer (staticmap layer) format w)).
Proof.
  intros Hp. apply (primed_kept _ _ _ w); [exact Hp | apply files_unlock |].
  unfold primed in Hp.
  destruct (Disk._lockpath (cache layer) layer (staticmap layer) format)
    as [e|lockpath] eqn:Hl.
  - unfold Disk.read in Hp. unfold Disk._lockpath in Hl.
    destruct (Disk._fullpath _ _ _ _); [discriminate Hp | discriminate Hl].
  - now rewrite (unlock_fs _ _ _ _ _ _ Hl).
Qed.

(** What is asked of a call of [getStaticMap]: when it returns a body, the
    type is the layer's and the cache is primed with that body. *)
Definition primed_post (layer : Layer) (mimetype format : string)
  : outcome (string * string) -> World -> Prop :=
  fun r w' => forall mt body, r = Val (mt, body) ->
                mt = mimetype /\ primed layer format body w'.

Lemma primed_post_none (layer : Layer) (mimetype format : string)
    (r : outcome (string * string)) (w' : World) :
  (forall a, r <> Val a) -> primed_post layer mimetype format r w'.
Proof. intros Hr mt body E. now destruct (Hr (mt, body)). Qed.

(** The end of [getStaticMap]: the arguments of the log line, the return. *)
Lemma primed_tail (layer : Layer) (mimetype format b : string) (w' : World) :
  primed layer format b w' ->
  wp (lift (center_attr "lon" lon (center (staticmap layer)));;
      lift (center_attr "lat" lat (center (staticmap layer)));;
      mret (mimetype, b)) w' (primed_post layer mimetype format).
Proof.
  intros Hb. destruct (center (staticmap layer)) as [c|]; simpl; wp_steps.
  - intros mt body [= <- <-]. auto.
  - apply primed_post_none. discriminate.
Qed.

(** The [finally] clause: the unlock keeps the cache primed. *)
Lemma primed_finally (layer : Layer) (mimetype format : string)
    (r : outcome string) (w3 : World) :
  (forall b, r = Val b -> primed layer format b w3) ->
  after_finally (Disk.unlock (cache layer) layer (staticmap layer) format)
    (after_bind
       (fun body1 : string =>
          lift (center_attr "lon" lon (center (staticmap layer)));;
          lift (center_attr "lat" lat (center (staticmap layer)));;
          mret (mimetype, body1)) (primed_post layer mimetype format)) r w3.
Proof.
  intros Hr. unfold after_finally. destruct r as [b|e|].
  - pose proof (unlock_keeps_primed layer format b w3 (Hr b eq_refl)) as Hu.
    unfold wp. destruct (Disk.unlock _ _ _ _ w3) as [[[]|e|] w4]; simpl in *.
    + now apply primed_tail.
    + apply primed_post_none. discriminate.
    + apply primed_post_none. discriminate.
  - unfold wp. destruct (Disk.unlock _ _ _ _ w3) as [[[]|e'|] w4]; simpl;
      apply primed_post_none; discriminate.
  - apply primed_post_none. discriminate.
Qed.

Lemma primed_by_read (layer : Layer) (format b : string) (wa wb : World) :
  Disk.read (cache layer) layer (staticmap layer) format wa = (Val (Some b), wb) ->
  primed layer format b wb.
Proof.
  intros Hr. apply (primed_kept _ _ _ wa).
  - unfold primed. now rewrite Hr.
  - apply read_returns in Hr as [_ ->]. now apply same_files_fs.
  - apply read_returns in Hr as [_ ->]. reflexivity.
Qed.

Ltac primed_steps :=
  repeat first
    [ lazymatch goal with
      | |- wp (mbind _ (lift _)) _ (primed_post _ _ _) => apply primed_tail
      | |- after_finally _ _ _ _ =>
          apply primed_finally; try (intros ? ?; discriminate)
      | |- primed_post _ _ _ _ _ => apply primed_post_none; discriminate
      end
    | wp_step; cbn beta iota ].

Lemma cache_primed_run (fuel : nat) (layer : Layer) (extension mimetype format : string)
    (w : World) :
  getTypeByExtension layer extension = inr (mimetype, format) ->
  lifespan_ok layer ->
  (forall coord tile, render layer coord format <> NoTileLeftBehind tile) ->
  write_cache layer = true ->
  wp (getStaticMap fuel layer extension false) w (primed_post layer mimetype format).
Proof.
  intros Ht Hls Hren Hwc.
  unfold getStaticMap. rewrite Ht, Hwc. cbn [negb].
  wp_step. apply wp_time_time. wp_steps.
  destruct (Disk.read (cache layer) layer (staticmap layer) format w) as [r1 w1] eqn:Hread.
  apply (wp_run _ _ _ _ _ Hread).
  destruct r1 as [[b|]|e|]; primed_steps; [now apply (primed_by_read _ _ _ w) |].
  (* the first read misses: lock, read again *)
  destruct (Disk.lock fuel (cache layer) layer (staticmap layer) format w1)
    as [rl w2] eqn:Hlock.
  apply (wp_run _ _ _ _ _ Hlock).
  destruct rl as [[]|e|]; primed_steps.
  destruct (Disk.read (cache layer) layer (staticmap layer) format w2) as [r3 w3] eqn:Hread2.
  apply (wp_run _ _ _ _ _ Hread2).
  destruct r3 as [[b|]|e|]; primed_steps;
    [ intros ? [= <-]; now apply (primed_by_read _ _ _ w2) |].
  (* the second read misses: render and save *)
  unfold render_tile. primed_steps.
  destruct (StaticMaps.getCoord (staticmap layer)) as [e|coord]; primed_steps.
  pose proof (Hren coord) as Hnt.
  destruct (render layer coord format) as [tile|tile|e]; primed_steps;
    [| now destruct (Hnt tile)].
  destruct (tile_save tile format _) as [e|b]; primed_steps.
  match goal with |- wp (Disk.save ?c ?b0 ?l ?s ?f) ?w4 _ =>
    destruct (Disk.save c b0 l s f w4) as [rs w5] eqn:Hsave
  end.
  apply (wp_run _ _ _ _ _ Hsave).
  destruct rs as [[]|e|]; primed_steps.
  intros ? [= <-]. now apply (read_after_save _ _ _ _ _ _ _ Hls Hsave).
Qed.

(** A call of [getStaticMap] that returns leaves the cache primed: on a
    layer that writes its cache, whose renderer does not answer
    [NoTileLeftBehind] and whose life span is not negative, the next call
    for the same layer and static map, in the world the first call leaves,
    returns the same type and bytes from the cache: its first read hits, and
    it does nothing else (no lock, no rendering, no save). *)
Theorem next_call_is_a_hit (fuel fuel' : nat) (layer : Layer)
    (extension mimetype format mt body : string) (w w' : World) :
  getTypeByExtension layer extension = inr (mimetype, format) ->
  lifespan_ok layer ->
  (forall coord tile, render layer coord format <> NoTileLeftBehind tile) ->
  write_cache layer = true ->
  getStaticMap fuel layer extension false w = (Val (mt, body), w') ->
  getStaticMap fuel' layer extension false w'
  = (Val (mt, body), add_event (CacheCall MRead (staticmap layer) format) w').
Proof.
  intros Ht Hls Hren Hwc Hrun.
  pose proof (cache_primed_run fuel layer extension mimetype format w Ht Hls Hren Hwc) as H.
  unfold wp in H. rewrite Hrun in H. cbn [fst snd] in H.
  destruct (H mt body eq_refl) as [-> Hp]. unfold primed in Hp.
  destruct (Disk.read (cache layer) layer (staticmap layer) format w') as [r w1] eqn:Hread.
  cbn [fst] in Hp. subst r.
  destruct (read_returns _ _ _ _ _ _ _ Hread) as [_ Hw1]. rewrite <- Hw1.
  exact (getStaticMap_on_hit fuel' layer extension mimetype format w' w1 body Ht Hread).
Qed.

Lemma next_call_is_a_hit_witness :
  let w' := snd (getStaticMap 10 (example_layer example_map) "png" false empty_world) in
  getStaticMap 3 (example_layer example_map) "png" false w'
  = (Val ("image/png", "PNG-bytes"), add_event (CacheCall MRead example_map "PNG") w').
Proof.
  apply (next_call_is_a_hit 10 3 (example_layer example_map) "png" "image/png" "PNG"
           "image/png" "PNG-bytes" empty_world).
  - reflexivity.
  - intros n [= <-]. lia.
  - intros coord tile. discriminate.
  - reflexivity.
  - vm_compute. reflexivity.
Defined.

(** ** Nothing is stored that the renderer did not return *)

Lemma files_read (self : Disk) (layer : Layer) (sm : StaticMaps) (format : string) :
  keeps same_files (Disk.read self layer sm format).
Proof.
  intros w. destruct (untouched_read self layer sm format w) as [Hfs _].
  now apply same_files_fs.
Qed.

Lemma files_render_tile (layer : Layer) (format : string) :
  keeps same_files (render_tile layer format).
Proof.
  intros w. destruct (untouched_render_tile layer format w) as [Hfs _].
  now apply same_files_fs.
Qed.

Lemma render_tile_save_flag (layer : Layer) (format : string) (w w' : World)
    (tile : Tile) (save : bool) :
  (forall coord tile, render layer coord format <> Rendered tile) ->
  render_tile layer format w = (Val (tile, save), w') -> save = false.
Proof.
  intros Hren. unfold render_tile, lift.
  destruct (StaticMaps.getCoord (staticmap layer)) as [e|coord]; [discriminate |].
  unfold_os. pose proof (Hren coord) as Hc.
  destruct (render layer coord format) as [t|t|e]; simpl.
  - now destruct (Hc t).
  - now intros [= _ <- _].
  - discriminate.
Qed.

(** When the renderer does not return a tile (it raises, or it raises
    [NoTileLeftBehind] with a tile to be sent but not kept), [getStaticMap]
    stores nothing: however the call ends, every regular file of the cache
    is as it was, and no regular file has appeared. *)
Theorem nothing_stored_without_render (fuel : nat) (layer : Layer) (extension : string)
    (ignore_cached : bool) (w : World) :
  (forall coord format tile, render layer coord format <> Rendered tile) ->
  same_files w (snd (getStaticMap fuel layer extension ignore_cached w)).
Proof.
  intros Hren. revert w.
  change (keeps same_files (getStaticMap fuel layer extension ignore_cached)).
  unfold getStaticMap.
  repeat (lazymatch goal with
          | |- keeps _ (mbind _ (render_tile _ _)) => fail
          | _ => idtac
          end;
          first
            [ apply files_lock | apply files_unlock | apply files_read
            | apply (keeps_time_time _ same_files_refl)
            | apply (keeps_ret _ same_files_refl)
            | apply (keeps_lift _ same_files_refl)
            | apply (keeps_load _ same_files_refl)
            | apply (keeps_bind _ same_files_trans); [| intros ?]
            | apply (keeps_try_finally _ same_files_trans)
            | match goal with |- keeps _ (match ?x with _ => _ end) => destruct x end ]).
  (* the rendering branch: the [save] flag is false *)
  match goal with |- keeps _ (mbind _ (render_tile _ ?f)) =>
    apply (keeps_bind_val same_files (fun ts => snd ts = false) _ _ same_files_trans);
      [ apply files_render_tile
      | intros w [tile save] w' Hrun;
        exact (render_tile_save_flag _ _ _ _ _ _ (fun c t => Hren c f t) Hrun)
      | intros [tile save] Hs; simpl in Hs; subst save ]
  end.
  apply (keeps_bind _ same_files_trans); [apply (keeps_lift _ same_files_refl) | intros b].
  destruct (negb (write_cache layer)); cbn iota;
    (apply (keeps_bind _ same_files_trans);
     [ apply (keeps_ret _ same_files_refl) | intros _; apply (keeps_ret _ same_files_refl) ]).
Qed.

Lemma nothing_stored_without_render_witness :
  same_files empty_world
    (snd (getStaticMap 10 (layer_rendering (NoTileLeftBehind example_tile)) "png" false
            empty_world)).
Proof.
  apply (nothing_stored_without_render 10 (layer_rendering (NoTileLeftBehind example_tile))
           "png" false empty_world).
  intros coord format tile. discriminate.
Defined.
(* ===================================================================== *)
(** * The WSGI entry point                                                 *)
(* ===================================================================== *)

Section Handler.

Variable ll2px : Q -> Q -> Z -> result (Z * Z).
Variable px2ll : Z -> Z -> Z -> result (Q * Q).

(** The request lacks one of the four things the handler asks for first. *)
Definition incomplete (environ : Environ) : Prop :=
  QUERY_STRING environ = None
  \/ PATH_INFO environ = None
  \/ exists q, QUERY_STRING environ = Some q /\ (q_size q = None \/ q_zoom q = None).

(** A request without [QUERY_STRING], [PATH_INFO], [size] or [zoom] is
    answered with [400 Bad Request] and a text, before the layer is looked
    up (it need not exist) and before anything is read, locked or rendered:
    the world is as it was. *)
Theorem incomplete_request_is_400 (fuel : nat) (layers : gmap string Layer)
    (environ : Environ) (w : World) :
  incomplete environ ->
  exists msg,
    WSGIServer.__call__ ll2px px2ll fuel layers environ w
    = (Val (mkResponse "400 Bad Request" [ContentType "text/plain"] msg), w).
Proof.
  intros Hinc.
  cut (wp (WSGIServer.__call__ ll2px px2ll fuel layers environ) w
         (fun r w' => w' = w /\ exists msg,
            r = Val (mkResponse "400 Bad Request" [ContentType "text/plain"] msg))).
  { intros H. apply wp_elim in H as (r & w' & Hrun & -> & msg & ->). eauto. }
  unfold WSGIServer.__call__, WSGIServer.handle, missing.
  destruct Hinc as [H | [H | (q & Hq & H)]].
  - rewrite H. wp_steps. eauto.
  - destruct (QUERY_STRING environ); rewrite H; wp_steps; eauto.
  - rewrite Hq. destruct (PATH_INFO environ); wp_steps; [| eauto].
    destruct (q_size q) as [sz|] eqn:Hs; wp_steps; [| eauto].
    destruct H as [H | H]; [discriminate |]. rewrite H. wp_steps. eauto.
Qed.

(** A layer name that the configuration does not have: [self.config.layers]
    raises [KeyError], which is not a [KnownUnknown]; the exception leaves
    the handler (no 400), and nothing has been read, locked or rendered. *)
Theorem unknown_layer_raises (fuel : nat) (layers : gmap string Layer)
    (environ : Environ) (q : Query) (p : string) (size : Z * Z) (z : Z) (w : World) :
  QUERY_STRING environ = Some q ->
  PATH_INFO environ = Some p ->
  q_size q = Some size ->
  q_zoom q = Some z ->
  layers !! strip_sep p = None ->
  WSGIServer.__call__ ll2px px2ll fuel layers environ w
  = (Exn (KeyError (strip_sep p)), w).
Proof.
  intros Hq Hp Hs Hz Hl.
  cut (wp (WSGIServer.__call__ ll2px px2ll fuel layers environ) w
         (fun r w' => r = Exn (KeyError (strip_sep p)) /\ w' = w)).
  { intros H. apply wp_elim in H as (r & w' & Hrun & -> & ->). exact Hrun. }
  unfold WSGIServer.__call__, WSGIServer.handle.
  rewrite Hq, Hp. wp_steps. rewrite Hs. wp_steps. rewrite Hz. wp_steps.
  rewrite Hl. wp_steps. auto.
Qed.

(** The loop over the parts of [markers]: what it leaves in [icon] and in
    [lat, lon]. *)
Lemma scan_markers_fold (parts : list marker_part) (acc : local string * local (Q * Q)) :
  let r := fold_left
             (fun acc m =>
                match m with
                | MarkerIcon uri => (Bound uri, snd acc)
                | MarkerPoint la lo => (fst acc, Bound (la, lo))
                | MarkerOther => acc
                end) parts acc in
  ((forall uri, ~ In (MarkerIcon uri) parts) -> fst r = fst acc)
  /\ ((forall la lo, ~ In (MarkerPoint la lo) parts) -> snd r = snd acc)
  /\ ((exists pt, snd acc = Bound pt) \/ (exists la lo, In (MarkerPoint la lo) parts) ->
      exists pt, snd r = Bound pt).
Proof.
  revert acc. induction parts as [|m parts IH]; intros acc; cbn [fold_left].
  - repeat split; auto. intros [H | (? & ? & [])]. exact H.
  - specialize (IH (match m with
                    | MarkerIcon uri => (Bound uri, snd acc)
                    | MarkerPoint la lo => (fst acc, Bound (la, lo))
                    | MarkerOther => acc
                    end)).
    cbv zeta in IH. destruct IH as (I1 & I2 & I3).
    split; [| split].
    + intros Hno. rewrite I1 by (intros uri Hin; apply (Hno uri); now right).
      destruct m as [uri| |]; try reflexivity. destruct (Hno uri). now left.
    + intros Hno. rewrite I2 by (intros la lo Hin; apply (Hno la lo); now right).
      destruct m as [|la lo|]; try reflexivity. destruct (Hno la lo). now left.
    + intros [Hb | (la & lo & [-> | Hin])].
      * apply I3. left. destruct m; simpl; eauto.
      * apply I3. left. simpl. eauto.
      * apply I3. right. eauto.
Qed.

(** A [markers] parameter in which no part is a point ([lat,lon]) leaves
    [lat] unassigned; one with a point and no [icon:] part leaves [icon]
    unassigned.  The call [addMarker(lat, lon, icon)] then raises
    [UnboundLocalError], which leaves the handler (no 400); nothing has been
    read, locked or rendered. *)
Theorem markers_without_point_or_icon (fuel : nat) (layers : gmap string Layer)
    (environ : Environ) (q : Query) (p : string) (size : Z * Z) (z : Z) (layer : Layer)
    (parts : list marker_part) (w : World) :
  QUERY_STRING environ = Some q ->
  PATH_INFO environ = Some p ->
  q_size q = Some size ->
  q_zoom q = Some z ->
  layers !! strip_sep p = Some layer ->
  has_renderStaticMap layer = true ->
  q_markers q = Some parts ->
  ((forall la lo, ~ In (MarkerPoint la lo) parts) ->
   WSGIServer.__call__ ll2px px2ll fuel layers environ w
   = (Exn (UnboundLocalError "lat"), w))
  /\ ((exists la lo, In (MarkerPoint la lo) parts) ->
      (forall uri, ~ In (MarkerIcon uri) parts) ->
      WSGIServer.__call__ ll2px px2ll fuel layers environ w
      = (Exn (UnboundLocalError "icon"), w)).
Proof.
  intros Hq Hp Hs Hz Hl Hr Hm.
  assert (Hgo : forall e,
             (let '(icon, point) := WSGIServer.scan_markers parts in
              match point with
              | Unbound => e = UnboundLocalError "lat"
              | Bound _ => icon = Unbound /\ e = UnboundLocalError "icon"
              end) ->
             WSGIServer.__call__ ll2px px2ll fuel layers environ w = (Exn e, w)).
  { intros e He.
    cut (wp (WSGIServer.__call__ ll2px px2ll fuel layers environ) w
           (fun r w' => r = Exn e /\ w' = w)).
    { intros H. apply wp_elim in H as (r & w' & Hrun & -> & ->). exact Hrun. }
    unfold WSGIServer.__call__, WSGIServer.handle.
    rewrite Hq, Hp. wp_steps. rewrite Hs. wp_steps. rewrite Hz. wp_steps.
    rewrite Hl. wp_steps. rewrite Hr. cbn [negb]. wp_steps.
    destruct size as [wd ht]. rewrite Hm.
    destruct (WSGIServer.scan_markers parts) as [icon point].
    destruct point as [|[la lo]]; wp_steps.
    - subst e. wp_steps. auto.
    - destruct He as [-> ->]. wp_steps. auto. }
  pose proof (scan_markers_fold parts (Unbound, Unbound)) as (F1 & F2 & F3).
  fold (WSGIServer.scan_markers parts) in F1, F2, F3. cbn [fst snd] in F1, F2, F3.
  split.
  - intros Hno. apply Hgo. destruct (WSGIServer.scan_markers parts) as [icon point].
    simpl in *. now rewrite (F2 Hno).
  - intros Hpt Hno. apply Hgo. destruct (WSGIServer.scan_markers parts) as [icon point].
    simpl in *. destruct (F3 (or_intror Hpt)) as [pt ->]. split; [now apply F1 | reflexivity].
Qed.

(** What is asked of a call that cannot be served: it ends, the file system
    is as it was, and if it answers at all the answer is a 400. *)
Definition not_served (w : World) (r : outcome Response) (w' : World) : Prop :=
  r <> OutOfFuel
  /\ fs w' = fs w
  /\ forall resp, r = Val resp -> status resp = "400 Bad Request".

Lemma not_served_exn (w : World) (e : exn) (w' : World) :
  fs w' = fs w -> not_served w (Exn e) w'.
Proof. intros H. split; [discriminate |]. split; [exact H | discriminate]. Qed.

Lemma not_served_400 (w : World) (hs : list header) (msg : string) (w' : World) :
  fs w' = fs w -> not_served w (Val (mkResponse "400 Bad Request" hs msg)) w'.
Proof.
  intros H. split; [discriminate |]. split; [exact H |]. now intros resp [= <-].
Qed.

(** A request with neither [markers] nor [path] is never served, whatever
    its [center], the layer and the state of the cache: the handler parses
    the center and never stores it, so the static map that reaches
    [getStaticMap] has no center and the first cache read raises
    [AttributeError].  Every such call ends in an exception or in a 400, and
    leaves the file system as it was. *)
Theorem center_only_never_served (fuel : nat) (layers : gmap string Layer)
    (environ : Environ) (w : World) :
  (forall q, QUERY_STRING environ = Some q -> q_markers q = None /\ q_path q = None) ->
  not_served w (fst (WSGIServer.__call__ ll2px px2ll fuel layers environ w))
              (snd (WSGIServer.__call__ ll2px px2ll fuel layers environ w)).
Proof.
  intros Hq.
  change (wp (WSGIServer.__call__ ll2px px2ll fuel layers environ) w (not_served w)).
  assert (Hexn : forall e w', fs w' = fs w -> wp
            (match e with
             | KnownUnknown msg =>
                 mret (mkResponse "400 Bad Request" [ContentType "text/plain"] msg)
             | _ => raise e
             end) w' (not_served w)).
  { intros e w' Hfs. destruct e; wp_steps;
      first [now apply not_served_exn | now apply not_served_400]. }
  unfold WSGIServer.__call__, WSGIServer.handle, missing.
  destruct (QUERY_STRING environ) as [q|] eqn:Eq; wp_steps;
    [| now apply not_served_400].
  destruct (Hq q eq_refl) as [Hm Hp]. rewrite Hm, Hp.
  destruct (PATH_INFO environ) as [p|]; wp_steps; [| now apply not_served_400].
  destruct (q_size q) as [[wd ht]|]; wp_steps; [| now apply not_served_400].
  destruct (q_zoom q) as [z|]; wp_steps; [| now apply not_served_400].
  destruct (layers !! strip_sep p) as [layer|]; wp_steps; [| now apply not_served_exn].
  destruct (has_renderStaticMap layer); cbn [negb]; wp_steps;
    [| now apply not_served_400].
  cbn [path marker staticmap set_staticmap StaticMaps.__init__].
  destruct (q_center q) as [[la lo]|]; wp_steps; [| now apply not_served_exn].
  unfold getStaticMap. cbn [negb]. wp_steps. apply wp_time_time. wp_steps.
  cbn [getTypeByExtension set_staticmap].
  destruct (getTypeByExtension layer "png") as [e|[mimetype format]]; wp_steps;
    [now apply Hexn |].
  unfold Disk.read. cbn [staticmap set_staticmap Disk._fullpath Disk._filepath center
                           StaticMaps.__init__ center_attr lift].
  wp_steps. now apply not_served_exn.
Qed.

End Handler.

(** Stand-ins for the projection where a request does not reach it. *)
Definition ll2px_unused : Q -> Q -> Z -> result (Z * Z) :=
  fun _ _ _ => inl (AssertionError "unused").
Definition px2ll_unused : Z -> Z -> Z -> result (Q * Q) :=
  fun _ _ _ => inl (AssertionError "unused").

(** [GET /markers?zoom=8&center=12,-35]: no size. *)
Definition request_without_size : Environ :=
  mkEnviron (Some (mkQuery None (Some 8%Z) None None (Some (12, -35)%Q))) (Some "/markers").

Lemma incomplete_request_is_400_witness :
  exists msg,
    WSGIServer.__call__ ll2px_unused px2ll_unused 10 ∅ request_without_size empty_world
    = (Val (mkResponse "400 Bad Request" [ContentType "text/plain"] msg), empty_world).
Proof.
  apply (incomplete_request_is_400 ll2px_unused px2ll_unused 10 ∅ request_without_size
           empty_world).
  right. right. exists (mkQuery None (Some 8%Z) None None (Some (12, -35)%Q)).
  split; [reflexivity | left; reflexivity].
Defined.

Lemma unknown_layer_raises_witness :
  WSGIServer.__call__ ll2px_unused px2ll_unused 10
    {[ "markers" := example_layer example_map ]}
    (mkEnviron (Some (mkQuery (Some (600, 300)%Z) (Some 8%Z) None None (Some (12, -35)%Q)))
       (Some "/routes/"))
    empty_world
  = (Exn (KeyError (strip_sep "/routes/")), empty_world).
Proof.
  apply (unknown_layer_raises ll2px_unused px2ll_unused 10 _ _
           (mkQuery (Some (600, 300)%Z) (Some 8%Z) None None (Some (12, -35)%Q))
           "/routes/" (600, 300)%Z 8%Z empty_world); reflexivity.
Defined.

(** [markers=icon:http://x/pin.png] (no point) and [markers=12,-35] (no
    icon). *)
Lemma markers_without_point_or_icon_witness :
  let layers : gmap string Layer := {[ "markers" := example_layer example_map ]} in
  let request parts :=
    mkEnviron (Some (mkQuery (Some (600, 300)%Z) (Some 8%Z) (Some parts) None None))
      (Some "/markers") in
  WSGIServer.__call__ ll2px_unused px2ll_unused 10 layers
    (request [MarkerIcon "http://x/pin.png"]) empty_world
  = (Exn (UnboundLocalError "lat"), empty_world)
  /\ WSGIServer.__call__ ll2px_unused px2ll_unused 10 layers
       (request [MarkerPoint 12 (-35)]) empty_world
     = (Exn (UnboundLocalError "icon"), empty_world).
Proof.
  split.
  - apply (markers_without_point_or_icon ll2px_unused px2ll_unused 10 _ _
             (mkQuery (Some (600, 300)%Z) (Some 8%Z) (Some [MarkerIcon "http://x/pin.png"])
                None None)
             "/markers" (600, 300)%Z 8%Z (example_layer example_map)
             [MarkerIcon "http://x/pin.png"] empty_world); try reflexivity.
    intros la lo [H | []]. discriminate.
  - apply (markers_without_point_or_icon ll2px_unused px2ll_unused 10 _ _
             (mkQuery (Some (600, 300)%Z) (Some 8%Z) (Some [MarkerPoint 12 (-35)]) None None)
             "/markers" (600, 300)%Z 8%Z (example_layer example_map)
             [MarkerPoint 12 (-35)] empty_world); try reflexivity.
    + exists 12%Q, (-35)%Q. now left.
    + intros uri [H | []]. discriminate.
Defined.

Lemma center_only_never_served_witness :
  not_served empty_world
    (fst (WSGIServer.__call__ ll2px_unused px2ll_unused 10
            {[ "markers" := example_layer example_map ]} center_only_request empty_world))
    (snd (WSGIServer.__call__ ll2px_unused px2ll_unused 10
            {[ "markers" := example_layer example_map ]} center_only_request empty_world)).
Proof.
  apply (center_only_never_served ll2px_unused px2ll_unused 10
           {[ "markers" := example_layer example_map ]} center_only_request empty_world).
  intros q [= <-]. split; reflexivity.
Defined.
(* ===================================================================== *)
(** * StaticMaps.addPath: when it returns, and what it leaves              *)
(* ===================================================================== *)

Lemma list_min_is_min (l : list Q) (m : Q) : list_min l = inr m -> Spec.is_min m l.
Proof.
  destruct l as [|x r]; [discriminate |]. intros [= <-].
  exact (fold_min_step_spec r x).
Qed.

Lemma list_max_is_max (l : list Q) (m : Q) : list_max l = inr m -> Spec.is_max m l.
Proof.
  destruct l as [|x r]; [discriminate |]. intros [= <-].
  exact (fold_max_step_spec r x).
Qed.

(** A quotient of a non-negative number is positive only if both parts
    are. *)
Lemma Qdiv_pos_parts (a b : Q) : (0 <= a)%Q -> (0 < a / b)%Q -> (0 < a)%Q /\ (0 < b)%Q.
Proof.
  intros Ha Hq.
  assert (Hb : (0 < b)%Q).
  { destruct (Qlt_le_dec 0 b) as [H | H]; [exact H | exfalso].
    destruct (Qeq_dec b 0) as [E | N].
    - rewrite E in Hq. unfold Qdiv, Qinv in Hq. simpl in Hq. rewrite Qmult_0_r in Hq. lra.
    - assert (Hneg : (b < 0)%Q) by (destruct (Qlt_le_dec b 0); [assumption | exfalso; apply N; lra]).
      assert (Hi : (/ b < 0)%Q).
      { assert (Hnb : (0 < - b)%Q) by lra.
        apply Qinv_lt_0_compat in Hnb.
        assert (E : (/ - b == - / b)%Q) by (field; exact N). rewrite E in Hnb. lra. }
      unfold Qdiv in Hq. nra. }
  split; [| exact Hb].
  destruct (Qeq_dec a 0) as [E | N]; [| lra].
  rewrite E in Hq. unfold Qdiv in Hq. rewrite Qmult_0_l in Hq. lra.
Qed.

Lemma math_log2_int_returns (x : Q) (k : Z) : math_log2_int x = inr k -> (0 < x)%Q.
Proof.
  unfold math_log2_int. destruct (Qltb 0 x) eqn:E; [| discriminate].
  intros _. now apply Qltb_lt.
Qed.

Lemma float_div_returns (a : Q) (b : Z) (x : Q) :
  float_div a b = inr x -> x = (a / inject_Z b)%Q.
Proof. unfold float_div. destruct (b =? 0)%Z; [discriminate | now intros [= <-]]. Qed.

Lemma merc_factor_pos : (0 < StaticMaps.merc_radius * math_pi)%Q.
Proof. reflexivity. Qed.

(** The extent of an axis and the image dimension are positive when the
    logarithm of the projected extent is defined. *)
Lemma extent_and_dimension (lo hi : Q) (dim : Z) (x : Q) (k : Z) :
  (lo <= hi)%Q ->
  float_div ((hi - lo) * StaticMaps.merc_radius * math_pi) (180 * dim) = inr x ->
  math_log2_int x = inr k ->
  (lo < hi)%Q /\ (0 < dim)%Z.
Proof.
  intros Hle Hx Hk. apply float_div_returns in Hx. apply math_log2_int_returns in Hk.
  subst x. pose proof merc_factor_pos as Hc.
  assert (Hn : (0 <= (hi - lo) * StaticMaps.merc_radius * math_pi)%Q).
  { rewrite <- Qmult_assoc. apply Qmult_le_0_compat; lra. }
  destruct (Qdiv_pos_parts _ _ Hn Hk) as [Hnum Hden].
  split.
  - rewrite <- Qmult_assoc in Hnum. nra.
  - change 0%Q with (inject_Z 0) in Hden. rewrite <- Zlt_Qlt in Hden. lia.
Qed.

Lemma addPath_returns (self : StaticMaps) (points : list (Q * Q)) (sm' : StaticMaps) :
  StaticMaps.addPath self points = inr sm' ->
  exists minLat maxLat minLon maxLon,
    Spec.is_min minLat (map fst points) /\ Spec.is_max maxLat (map fst points)
    /\ Spec.is_min minLon (map snd points) /\ Spec.is_max maxLon (map snd points)
    /\ (minLat < maxLat)%Q /\ (minLon < maxLon)%Q
    /\ (0 < width self)%Z /\ (0 < height self)%Z.
Proof.
  unfold StaticMaps.addPath.
  destruct (list_min (map fst points)) as [e|a] eqn:Ha; [discriminate |].
  destruct (list_max (map fst points)) as [e|b] eqn:Hb; [discriminate |].
  destruct (list_min (map snd points)) as [e|c] eqn:Hc; [discriminate |].
  destruct (list_max (map snd points)) as [e|d] eqn:Hd; [discriminate |].
  destruct (float_div ((b - a) * _ * _) _) as [e|x] eqn:Hx; [discriminate |].
  destruct (math_log2_int x) as [e|lx] eqn:Hlx; [discriminate |].
  destruct (float_div ((d - c) * _ * _) _) as [e|y] eqn:Hy; [discriminate |].
  destruct (math_log2_int y) as [e|ly] eqn:Hly; [discriminate |].
  intros _.
  apply list_min_is_min in Ha. apply list_max_is_max in Hb.
  apply list_min_is_min in Hc. apply list_max_is_max in Hd.
  assert (Hab : (a <= b)%Q) by (apply Ha, Hb).
  assert (Hcd : (c <= d)%Q) by (apply Hc, Hd).
  destruct (extent_and_dimension a b (height self) x lx Hab Hx Hlx) as [H1 H2].
  destruct (extent_and_dimension c d (width self) y ly Hcd Hy Hly) as [H3 H4].
  exists a, b, c, d. repeat split; try assumption; try apply Ha; try apply Hb;
    try apply Hc; try apply Hd.
Qed.

(** [StaticMaps.addPath] returns only for a path that spans both axes: at
    least two different latitudes and two different longitudes, on an image
    of positive width and height.  For every other path (no point, one
    point, points on one parallel or one meridian) it raises. *)
Theorem addPath_needs_extent (self : StaticMaps) (points : list (Q * Q)) (sm' : StaticMaps) :
  StaticMaps.addPath self points = inr sm' ->
  exists minLat maxLat minLon maxLon,
    Spec.is_min minLat (map fst points) /\ Spec.is_max maxLat (map fst points)
    /\ Spec.is_min minLon (map snd points) /\ Spec.is_max maxLon (map snd points)
    /\ (minLat < maxLat)%Q /\ (minLon < maxLon)%Q
    /\ (0 < width self)%Z /\ (0 < height self)%Z.
Proof. apply addPath_returns. Qed.

Lemma addPath_needs_extent_witness :
  exists minLat maxLat minLon maxLon,
    Spec.is_min minLat (map fst [(0, 0); (2, 2)]%Q)
    /\ Spec.is_max maxLat (map fst [(0, 0); (2, 2)]%Q)
    /\ Spec.is_min minLon (map snd [(0, 0); (2, 2)]%Q)
    /\ Spec.is_max maxLon (map snd [(0, 0); (2, 2)]%Q)
    /\ (minLat < maxLat)%Q /\ (minLon < maxLon)%Q
    /\ (0 < width (StaticMaps.__init__ 600 300 8))%Z
    /\ (0 < height (StaticMaps.__init__ 600 300 8))%Z.
Proof.
  eapply (addPath_needs_extent (StaticMaps.__init__ 600 300 8) [(0, 0); (2, 2)]%Q).
  vm_compute. reflexivity.
Defined.

(** ** The zoom that addPath sets *)

Lemma int_log2_lower (x : Q) :
  (2 ^ (-158) <= x)%Q -> (-158 <= int_log2 x)%Z.
Proof.
  intros Hx.
  assert (Hpos : (0 < x)%Q).
  { apply Qlt_le_trans with (2 := Hx). apply Qpower2_pos. }
  destruct (int_log2_spec x Hpos) as [[H1 [_ Hup]] | [Hlt [_ Hup]]].
  - assert (H0 : (2 ^ 0 < 2 ^ (int_log2 x + 1))%Q).
    { change (2 ^ 0)%Q with 1%Q. lra. }
    assert (Hk : (0 <= int_log2 x + 1)%Z).
    { apply (Qpower_le_compat_l_inv 2); [lra | reflexivity]. }
    destruct (Z.eq_dec (int_log2 x + 1) 0)%Z as [E | N]; [| lia].
    rewrite E in H0. lra.
  - apply (Qpower_le_compat_l_inv 2); [lra | reflexivity].
Qed.

(** For a path whose extent in latitude is not vanishingly small (its
    projected extent is at least [2^-158], about [3e-48]) the zoom that
    [addPath] sets is negative: outside the range from 0 to 30 that [ll2px]
    and [px2ll] accept. *)
Theorem addPath_zoom_is_negative (self : StaticMaps) (points : list (Q * Q))
    (sm' : StaticMaps) (minLat maxLat : Q) :
  StaticMaps.addPath self points = inr sm' ->
  Spec.is_min minLat (map fst points) ->
  Spec.is_max maxLat (map fst points) ->
  (2 ^ (-158) <= Spec.projected_extent (maxLat - minLat) (height self))%Q ->
  (zoom sm' < 0)%Z /\ Projection.zoom_ok (zoom sm') = false.
Proof.
  intros Hrun Hmin Hmax Hext.
  destruct (list_min_spec _ _ Hmin) as (a & Ha & Ea).
  destruct (list_max_spec _ _ Hmax) as (b & Hb & Eb).
  destruct (addPath_returns self points sm' Hrun) as (_ & _ & _ & _ & _ & _ & _ & _ & _ & _ & Hw & Hh).
  destruct (float_div_extent (maxLat - minLat) (b - a) (height self) Hh) as (x & Hx & Ex).
  { now rewrite Ea, Eb. }
  revert Hrun. unfold StaticMaps.addPath. rewrite Ha, Hb.
  destruct (list_min (map snd points)) as [e|c]; [discriminate |].
  destruct (list_max (map snd points)) as [e|d]; [discriminate |].
  rewrite Hx.
  destruct (math_log2_int x) as [e|lx] eqn:Hlx; [discriminate |].
  destruct (float_div ((d - c) * _ * _) _) as [e|y]; [discriminate |].
  destruct (math_log2_int y) as [e|ly]; [discriminate |].
  intros [= <-]. cbn [zoom].
  assert (Hk : lx = int_log2 x).
  { rewrite math_log2_int_pos in Hlx by now apply math_log2_int_returns in Hlx.
    now injection Hlx. }
  assert (Hlow : (-158 <= lx)%Z).
  { rewrite Hk. apply int_log2_lower. now rewrite Ex. }
  assert (Hz : (Z.min (21 - ly) (21 - lx) - 180 < 0)%Z) by lia.
  split; [exact Hz |].
  unfold Projection.zoom_ok. apply andb_false_iff. left. apply Z.leb_gt. exact Hz.
Qed.

Lemma addPath_zoom_is_negative_witness :
  exists sm',
    StaticMaps.addPath (StaticMaps.__init__ 600 300 8) [(0, 0); (2, 2)]%Q = inr sm'
    /\ (zoom sm' < 0)%Z /\ Projection.zoom_ok (zoom sm') = false.
Proof.
  eexists. split; [vm_compute; reflexivity |].
  eapply (addPath_zoom_is_negative (StaticMaps.__init__ 600 300 8) [(0, 0); (2, 2)]%Q _ 0 2).
  - vm_compute. reflexivity.
  - split; [simpl; auto |]. simpl. intros x [<- | [<- | []]]; lra.
  - split; [simpl; auto |]. simpl. intros x [<- | [<- | []]]; lra.
  - vm_compute. discriminate.
Defined.

(** ** The path that addPath records *)

Definition to_loc (p : Q * Q) : _Loc := mk_Loc (fst p) (snd p).

Lemma addLoc_fold (points : list (Q * Q)) (pa : _Path) :
  fold_left (fun pa p => StaticMaps.addLoc pa (fst p) (snd p)) points pa
  = mk_Path (match last (map to_loc points) with
             | Some p => Some p
             | None => path_center pa
             end)
      (color pa) (weight pa) (polygon pa ++ map to_loc points).
Proof.
  revert pa. induction points as [|p points IH]; intros pa.
  - simpl. rewrite app_nil_r. now destruct pa.
  - cbn [fold_left]. rewrite IH. unfold StaticMaps.addLoc. cbn [color weight polygon path_center].
    rewrite <- app_assoc. cbn [map]. f_equal.
    change (to_loc p :: map to_loc points) with ([to_loc p] ++ map to_loc points).
    destruct (map to_loc points) as [|q r] eqn:E; [reflexivity |].
    rewrite last_app. now destruct (last (q :: r)).
Qed.

(** When [addPath] returns, the path of the static map holds every point of
    the request, in the order of the request; its center is the last point
    (not a point of the middle), its color is ["F00"] and its weight 1
    whatever the request said; width, height and marker of the static map
    are as before. *)
Theorem addPath_records_points (self : StaticMaps) (points : list (Q * Q))
    (sm' : StaticMaps) :
  StaticMaps.addPath self points = inr sm' ->
  path sm' = Some (mk_Path (last (map to_loc points)) "F00" 1 (map to_loc points))
  /\ width sm' = width self /\ height sm' = height self /\ marker sm' = marker self.
Proof.
  unfold StaticMaps.addPath.
  destruct (list_min (map fst points)) as [e|a]; [discriminate |].
  destruct (list_max (map fst points)) as [e|b]; [discriminate |].
  destruct (list_min (map snd points)) as [e|c]; [discriminate |].
  destruct (list_max (map snd points)) as [e|d]; [discriminate |].
  destruct (float_div ((b - a) * _ * _) _) as [e|x]; [discriminate |].
  destruct (math_log2_int x) as [e|lx]; [discriminate |].
  destruct (float_div ((d - c) * _ * _) _) as [e|y]; [discriminate |].
  destruct (math_log2_int y) as [e|ly]; [discriminate |].
  intros [= <-]. cbn [path width height marker]. rewrite addLoc_fold.
  cbn [color weight polygon path_center app].
  repeat split. now destruct (last (map to_loc points)).
Qed.

Lemma addPath_records_points_witness :
  exists sm',
    StaticMaps.addPath (StaticMaps.__init__ 600 300 8) [(0, 0); (2, 2); (1, 3)]%Q = inr sm'
    /\ path sm' = Some (mk_Path (Some (mk_Loc 1 3)) "F00" 1
                          [mk_Loc 0 0; mk_Loc 2 2; mk_Loc 1 3])
    /\ width sm' = 600%Z /\ height sm' = 300%Z /\ marker sm' = None.
Proof.
  eexists. split; [vm_compute; reflexivity |].
  eapply (addPath_records_points (StaticMaps.__init__ 600 300 8) [(0, 0); (2, 2); (1, 3)]%Q).
  vm_compute. reflexivity.
Defined.

(** ** A path parameter without coordinates *)

Lemma path_points_none (parts : list path_part) :
  (forall la lo, ~ In (PathPoint la lo) parts) -> WSGIServer.path_points parts = [].
Proof.
  induction parts as [|m parts IH]; intros Hno; [reflexivity |].
  unfold WSGIServer.path_points in *. cbn [flat_map].
  rewrite IH by (intros la lo Hin; apply (Hno la lo); now right).
  destruct m as [k v|la lo|]; try reflexivity. destruct (Hno la lo). now left.
Qed.

(** A [path] parameter none of whose parts is a point (only [color:] or
    [weight:] parts, say) gives [addPath] an empty list: [min()] raises
    [ValueError], which is not a [KnownUnknown] and leaves the handler (no
    400); nothing has been read, locked or rendered. *)
Theorem path_without_points_raises (ll2px : Q -> Q -> Z -> result (Z * Z))
    (px2ll : Z -> Z -> Z -> result (Q * Q)) (fuel : nat) (layers : gmap string Layer)
    (environ : Environ) (q : Query) (p : string) (size : Z * Z) (z : Z) (layer : Layer)
    (parts : list path_part) (w : World) :
  QUERY_STRING environ = Some q ->
  PATH_INFO environ = Some p ->
  q_size q = Some size ->
  q_zoom q = Some z ->
  layers !! strip_sep p = Some layer ->
  has_renderStaticMap layer = true ->
  q_markers q = None ->
  q_path q = Some parts ->
  (forall la lo, ~ In (PathPoint la lo) parts) ->
  WSGIServer.__call__ ll2px px2ll fuel layers environ w
  = (Exn (ValueError "min() arg is an empty sequence"), w).
Proof.
  intros Hq Hp Hs Hz Hl Hr Hm Hpa Hno.
  cut (wp (WSGIServer.__call__ ll2px px2ll fuel layers environ) w
         (fun r w' => r = Exn (ValueError "min() arg is an empty sequence") /\ w' = w)).
  { intros H. apply wp_elim in H as (r & w' & Hrun & -> & ->). exact Hrun. }
  unfold WSGIServer.__call__, WSGIServer.handle.
  rewrite Hq, Hp. wp_steps. rewrite Hs. wp_steps. rewrite Hz. wp_steps.
  rewrite Hl. wp_steps. rewrite Hr. cbn [negb]. wp_steps.
  destruct size as [wd ht]. rewrite Hm, Hpa. wp_steps.
  rewrite (path_points_none parts Hno). cbn. wp_steps. auto.
Qed.

Lemma path_without_points_raises_witness :
  WSGIServer.__call__ ll2px_unused px2ll_unused 10
    {[ "routes" := example_layer example_map ]}
    (mkEnviron (Some (mkQuery (Some (600, 300)%Z) (Some 8%Z) None
                        (Some [PathParam "color" "0xff0000"; PathParam "weight" "5"]) None))
       (Some "/routes"))
    empty_world
  = (Exn (ValueError "min() arg is an empty sequence"), empty_world).
Proof.
  apply (path_without_points_raises ll2px_unused px2ll_unused 10 _ _
           (mkQuery (Some (600, 300)%Z) (Some 8%Z) None
              (Some [PathParam "color" "0xff0000"; PathParam "weight" "5"]) None)
           "/routes" (600, 300)%Z 8%Z (example_layer example_map)
           [PathParam "color" "0xff0000"; PathParam "weight" "5"] empty_world);
    try reflexivity.
  intros la lo [H | [H | []]]; discriminate.
Defined.
(* ===================================================================== *)
(** * The projection: from pixels and back, order, the marker shift        *)
(* ===================================================================== *)

Section Pixels.

Import Projection.
Local Open Scope R_scope.

Lemma int_round_IZR (n : Z) : int_round (IZR n) = n.
Proof.
  unfold int_round. destruct (Rle_dec 0 (IZR n)) as [H | H].
  - symmetry. apply Int_part_spec. lra.
  - rewrite <- opp_IZR.
    assert (E : (- n)%Z = Int_part (IZR (- n) + / 2)) by (apply Int_part_spec; lra).
    rewrite <- E. lia.
Qed.

Lemma Int_part_mono (a b : R) : a <= b -> (Int_part a <= Int_part b)%Z.
Proof.
  intros H. destruct (base_Int_part a) as [Ha _]. destruct (base_Int_part b) as [_ Hb].
  assert (Hlt : IZR (Int_part a) < IZR (Int_part b + 1)) by (rewrite plus_IZR; lra).
  apply lt_IZR in Hlt. lia.
Qed.

Lemma int_round_mono (a b : R) : a <= b -> (int_round a <= int_round b)%Z.
Proof.
  intros H. unfold int_round.
  destruct (Rle_dec 0 a) as [Ha | Ha]; destruct (Rle_dec 0 b) as [Hb | Hb].
  - apply Int_part_mono. lra.
  - lra.
  - assert (H1 : (Int_part 0 <= Int_part (- a + / 2))%Z) by (apply Int_part_mono; lra).
    assert (H2 : (Int_part 0 <= Int_part (b + / 2))%Z) by (apply Int_part_mono; lra).
    assert (E : 0%Z = Int_part 0) by (apply Int_part_spec; simpl; lra).
    lia.
  - assert (H1 : (Int_part (- b + / 2) <= Int_part (- a + / 2))%Z)
      by (apply Int_part_mono; lra).
    lia.
Qed.

Lemma atan_inj (a b : R) : atan a = atan b -> a = b.
Proof. intros H. rewrite <- (tan_atan a), <- (tan_atan b). now rewrite H. Qed.

(** The angle that [px2ll] computes lies strictly between the poles. *)
Lemma blam_range (bar : R) : - (PI / 2) < 2 * atan (exp bar) - PI / 2 < PI / 2.
Proof.
  pose proof (atan_bound (exp bar)) as [_ Hu].
  pose proof (atan_increasing 0 (exp bar) (exp_pos bar)) as Hl. rewrite atan_0 in Hl.
  lra.
Qed.

(** C8 the other way round.  From a pixel to a point and back: for a zoom
    from 0 to 30, when the latitude that [px2ll] returns for [(x, y)] is one
    whose sine [ll2px] does not clamp, [ll2px] maps the point back to
    [(x, y)] exactly (over the real numbers). *)
Theorem pixel_round_trip (x y zoom : Z) (lat lng : R) :
  (0 <= zoom <= 30)%Z ->
  px2ll x y zoom = inr (lat, lng) ->
  -0.9999 <= sin (lat * PI / 180) <= 0.9999 ->
  ll2px lat lng zoom = inr (x, y).
Proof.
  intros Hz Hpx Hs. pose proof PI_RGT_0 as Hpi.
  destruct (tables_at zoom Hz) as [Hcek [Hcfk _]].
  unfold px2ll in Hpx. rewrite (zoom_ok_in_range zoom Hz) in Hpx. cbn [negb] in Hpx.
  injection Hpx as Hlat Hlng.
  set (bar := IZR (y - index CBK zoom 0%Z) / - index CFK zoom 0) in *.
  assert (Hphi : lat * PI / 180 = 2 * atan (exp bar) - PI / 2).
  { rewrite <- Hlat. field. lra. }
  unfold ll2px. rewrite (zoom_ok_in_range zoom Hz). cbn [negb].
  destruct (Rlt_dec (sin (lat * PI / 180)) (-0.9999)) as [Hc | _]; [lra |].
  destruct (Rlt_dec 0.9999 (sin (lat * PI / 180))) as [Hc | _]; [lra |].
  f_equal. f_equal.
  - rewrite <- Hlng.
    replace (IZR (index CBK zoom 0%Z)
             + IZR (x - index CBK zoom 0%Z) / index CEK zoom 0 * index CEK zoom 0)
      with (IZR x) by (rewrite minus_IZR; field; lra).
    apply int_round_IZR.
  - rewrite Hphi.
    pose proof (mercator_inverse _ (blam_range bar)) as Hinv.
    set (L := 0.5 * ln ((1 + sin (2 * atan (exp bar) - PI / 2))
                        / (1 - sin (2 * atan (exp bar) - PI / 2)))) in *.
    assert (HL : L = bar).
    { apply exp_inv, atan_inj. lra. }
    rewrite HL. unfold bar.
    replace (IZR (index CBK zoom 0%Z)
             + IZR (y - index CBK zoom 0%Z) / - index CFK zoom 0 * - index CFK zoom 0)
      with (IZR y) by (rewrite minus_IZR; field; lra).
    apply int_round_IZR.
Qed.

Lemma pixel_round_trip_witness :
  ll2px ((2 * atan (exp (IZR (128 - 128) / - index CFK 0 0)) - PI / 2) / (PI / 180))
        (IZR (300 - 128) / index CEK 0 0) 0
  = inr (300%Z, 128%Z).
Proof.
  apply (pixel_round_trip 300 128 0).
  - lia.
  - reflexivity.
  - assert (E : IZR (128 - 128) / - index CFK 0 0 = 0).
    { change (128 - 128)%Z with 0%Z. unfold Rdiv. apply Rmult_0_l. }
    rewrite E, exp_0, atan_1.
    replace ((2 * (PI / 4) - PI / 2) / (PI / 180) * PI / 180) with 0
      by (pose proof PI_RGT_0; field; lra).
    rewrite sin_0. lra.
Defined.

(** ** Order *)

(** The clamp of [ll2px] on the sine of the latitude. *)
Definition clamp (s : R) : R :=
  if Rlt_dec s (-0.9999) then -0.9999
  else if Rlt_dec 0.9999 s then 0.9999
  else s.

Lemma ll2px_run (lat lng : R) (zoom : Z) :
  (0 <= zoom <= 30)%Z ->
  ll2px lat lng zoom
  = inr (int_round (IZR (index CBK zoom 0%Z) + lng * index CEK zoom 0),
         int_round (IZR (index CBK zoom 0%Z)
                    + 0.5 * ln ((1 + clamp (sin (lat * PI / 180)))
                                / (1 - clamp (sin (lat * PI / 180))))
                      * - index CFK zoom 0)).
Proof.
  intros Hz. unfold ll2px, clamp. rewrite (zoom_ok_in_range zoom Hz). cbn [negb].
  destruct (Rlt_dec (sin (lat * PI / 180)) (-0.9999)); [reflexivity |].
  destruct (Rlt_dec 0.9999 (sin (lat * PI / 180))); reflexivity.
Qed.

Lemma clamp_range (s : R) : -0.9999 <= clamp s <= 0.9999.
Proof.
  unfold clamp. destruct (Rlt_dec s (-0.9999)); [lra |].
  destruct (Rlt_dec 0.9999 s); lra.
Qed.

Lemma clamp_mono (s1 s2 : R) : s1 <= s2 -> clamp s1 <= clamp s2.
Proof.
  intros H. unfold clamp.
  destruct (Rlt_dec s1 (-0.9999)); destruct (Rlt_dec s2 (-0.9999));
    destruct (Rlt_dec 0.9999 s1); destruct (Rlt_dec 0.9999 s2); lra.
Qed.

(** The Mercator ordinate grows with the sine. *)
Lemma merc_mono (s1 s2 : R) :
  -0.9999 <= s1 -> s1 <= s2 -> s2 <= 0.9999 ->
  ln ((1 + s1) / (1 - s1)) <= ln ((1 + s2) / (1 - s2)).
Proof.
  intros H1 H12 H2. destruct (Req_dec s1 s2) as [-> | Hne]; [lra |].
  left. apply ln_increasing.
  - apply Rdiv_lt_0_compat; lra.
  - apply (Rmult_lt_reg_r ((1 - s1) * (1 - s2))); [apply Rmult_lt_0_compat; lra |].
    replace ((1 + s1) / (1 - s1) * ((1 - s1) * (1 - s2))) with ((1 + s1) * (1 - s2))
      by (field; lra).
    replace ((1 + s2) / (1 - s2) * ((1 - s1) * (1 - s2))) with ((1 + s2) * (1 - s1))
      by (field; lra).
    nra.
Qed.

(** [ll2px] keeps the order of the map: at a zoom from 0 to 30, a point
    further east never gets a smaller pixel column, and a point further north
    (latitudes from -90 to 90) never gets a larger pixel row. *)
Theorem ll2px_monotone (lat1 lat2 lng1 lng2 : R) (zoom : Z) :
  (0 <= zoom <= 30)%Z ->
  -90 <= lat1 -> lat1 <= lat2 -> lat2 <= 90 ->
  lng1 <= lng2 ->
  exists x1 y1 x2 y2,
    ll2px lat1 lng1 zoom = inr (x1, y1)
    /\ ll2px lat2 lng2 zoom = inr (x2, y2)
    /\ (x1 <= x2)%Z /\ (y2 <= y1)%Z.
Proof.
  intros Hz Hl1 Hl12 Hl2 Hlng. pose proof PI_RGT_0 as Hpi.
  destruct (tables_at zoom Hz) as [Hcek [Hcfk _]].
  rewrite !(ll2px_run _ _ _ Hz). eexists _, _, _, _.
  split; [reflexivity |]. split; [reflexivity |]. split.
  - apply int_round_mono. nra.
  - apply int_round_mono.
    assert (Hsin : sin (lat1 * PI / 180) <= sin (lat2 * PI / 180))
      by (apply sin_incr_1; nra).
    pose proof (clamp_mono _ _ Hsin) as Hc.
    pose proof (clamp_range (sin (lat1 * PI / 180))) as [Hr1 _].
    pose proof (clamp_range (sin (lat2 * PI / 180))) as [_ Hr2].
    pose proof (merc_mono _ _ Hr1 Hc Hr2) as Hm.
    nra.
Qed.

Lemma ll2px_monotone_witness :
  exists x1 y1 x2 y2,
    ll2px 12 (-35) 8 = inr (x1, y1)
    /\ ll2px 48 2 8 = inr (x2, y2)
    /\ (x1 <= x2)%Z /\ (y2 <= y1)%Z.
Proof. apply (ll2px_monotone 12 48 (-35) 2 8); [lia | lra ..]. Defined.

(** ** The raster *)

(** Half a turn of longitude is half the raster, to less than half a
    pixel. *)
Lemma half_turn_at (zoom : Z) :
  (0 <= zoom <= 30)%Z ->
  IZR (index CBK zoom 0%Z) - 0.4 <= 180 * index CEK zoom 0
  /\ 180 * index CEK zoom 0 <= IZR (index CBK zoom 0%Z) + 0.4
  /\ (0 < index CBK zoom 0)%Z.
Proof.
  intros Hz. unfold index.
  assert (Hn : (Z.to_nat zoom <= 30)%nat) by lia.
  revert Hn. generalize (Z.to_nat zoom) as n. intros n Hn.
  do 31 (destruct n as [| n]; [simpl; split; [lra | split; [lra | lia]] |]).
  lia.
Qed.

Lemma int_round_between (a : R) (lo hi : Z) :
  IZR lo - 0.4 <= a -> a <= IZR hi + 0.4 -> (lo <= int_round a <= hi)%Z.
Proof.
  intros Hlo Hhi. pose proof (int_round_near a) as Hr. apply Rabs_le_bounds in Hr.
  split.
  - assert (H : IZR (lo - 1) < IZR (int_round a)) by (rewrite minus_IZR; lra).
    apply lt_IZR in H. lia.
  - assert (H : IZR (int_round a) < IZR (hi + 1)) by (rewrite plus_IZR; lra).
    apply lt_IZR in H. lia.
Qed.

(** Every longitude from -180 to 180 gets a pixel column of the world
    raster of the zoom, which is [2 * CBK[zoom]] pixels wide: the column is
    between 0 and that width, whatever the latitude. *)
Theorem lng_on_raster (lat lng : R) (zoom : Z) :
  (0 <= zoom <= 30)%Z ->
  -180 <= lng <= 180 ->
  exists x y,
    ll2px lat lng zoom = inr (x, y)
    /\ (0 <= x <= 2 * index CBK zoom 0)%Z.
Proof.
  intros Hz Hlng. destruct (tables_at zoom Hz) as [Hcek _].
  destruct (half_turn_at zoom Hz) as (Hlo & Hhi & Hcbk).
  rewrite (ll2px_run _ _ _ Hz). eexists _, _. split; [reflexivity |].
  apply int_round_between.
  - simpl. nra.
  - rewrite mult_IZR. nra.
Qed.

Lemma lng_on_raster_witness :
  exists x y, ll2px 12 (-35) 8 = inr (x, y) /\ (0 <= x <= 2 * index CBK 8 0)%Z.
Proof. apply (lng_on_raster 12 (-35) 8); [lia | lra]. Defined.

(** ** The shift of addMarker *)

(** [StaticMaps.addMarker] projects the marker with [ll2px], goes 22 pixel
    rows up and takes the latitude that [px2ll] gives there as the latitude
    of the center.  For a latitude whose sine [ll2px] does not clamp, that
    latitude is strictly north of the marker, by no more than 22.5 pixel
    rows at the equator, [22.5 * 180 / (PI * CFK[zoom])] degrees. *)
Theorem marker_center_is_north (lat lng : R) (zoom x y : Z) :
  (0 <= zoom <= 30)%Z ->
  -90 <= lat <= 90 ->
  -0.9999 <= sin (lat * PI / 180) <= 0.9999 ->
  ll2px lat lng zoom = inr (x, y) ->
  exists lat' lng',
    px2ll x (y - 22) zoom = inr (lat', lng')
    /\ lat < lat'
    /\ lat' - lat <= 22.5 * (180 / (PI * index CFK zoom 0)).
Proof.
  intros Hz Hlat Hs Hll. pose proof PI_RGT_0 as Hpi.
  destruct (tables_at zoom Hz) as [_ [Hcfk _]].
  assert (Hphi : - (PI / 2) < lat * PI / 180 < PI / 2).
  { assert (Hlo : lat <> -90).
    { intros ->. replace (-90 * PI / 180) with (- (PI / 2)) in Hs by lra.
      rewrite sin_neg, sin_PI2 in Hs. lra. }
    assert (Hhi : lat <> 90).
    { intros ->. replace (90 * PI / 180) with (PI / 2) in Hs by lra.
      rewrite sin_PI2 in Hs. lra. }
    split; nra. }
  rewrite (ll2px_run _ _ _ Hz) in Hll. injection Hll as _ Hy.
  assert (Hcl : clamp (sin (lat * PI / 180)) = sin (lat * PI / 180)).
  { unfold clamp. destruct (Rlt_dec _ _); [lra |]. destruct (Rlt_dec _ _); lra. }
  rewrite Hcl in Hy.
  pose proof (mercator_inverse _ Hphi) as Hinv.
  set (L := 0.5 * ln ((1 + sin (lat * PI / 180)) / (1 - sin (lat * PI / 180)))) in *.
  set (cbk := index CBK zoom 0%Z) in *. set (cfk := index CFK zoom 0) in *.
  pose proof (int_round_near (IZR cbk + L * - cfk)) as Hr. rewrite Hy in Hr.
  apply Rabs_le_bounds in Hr.
  unfold px2ll. rewrite (zoom_ok_in_range zoom Hz). cbn [negb]. fold cbk cfk.
  eexists _, _. split; [reflexivity |].
  set (bar := IZR (y - 22 - cbk) / - cfk).
  assert (Hbar : 21.5 / cfk <= bar - L <= 22.5 / cfk).
  { assert (E : bar - L = (IZR cbk + L * - cfk - IZR y + 22) / cfk).
    { unfold bar. rewrite !minus_IZR. field. lra. }
    rewrite E. unfold Rdiv. split; apply Rmult_le_compat_r;
      try (left; now apply Rinv_0_lt_compat); lra. }
  assert (Hpos : 0 < 21.5 / cfk) by (apply Rdiv_lt_0_compat; lra).
  assert (Hup : atan (exp L) < atan (exp bar))
    by (apply atan_increasing, exp_increasing; lra).
  pose proof (atan_exp_lipschitz L bar) as Hlip.
  rewrite (Rabs_pos_eq (atan (exp bar) - atan (exp L))) in Hlip by lra.
  rewrite (Rabs_pos_eq (bar - L)) in Hlip by lra.
  assert (Hlat' : lat = (2 * atan (exp L) - PI / 2) / (PI / 180)).
  { rewrite Hinv. field. lra. }
  assert (Hk : 0 < 360 / PI) by (apply Rdiv_lt_0_compat; lra).
  assert (Ediff : (2 * atan (exp bar) - PI / 2) / (PI / 180) - lat
                  = (atan (exp bar) - atan (exp L)) * (360 / PI)).
  { rewrite Hlat' at 1. field. lra. }
  split.
  - assert (H0 : 0 < (atan (exp bar) - atan (exp L)) * (360 / PI))
      by (apply Rmult_lt_0_compat; lra).
    lra.
  - rewrite Ediff.
    replace (22.5 * (180 / (PI * cfk))) with (/ 2 * (22.5 / cfk) * (360 / PI))
      by (field; lra).
    apply Rmult_le_compat_r; [lra |]. lra.
Qed.

Lemma marker_center_is_north_witness :
  exists x y lat' lng',
    ll2px 30 (-35) 8 = inr (x, y)
    /\ px2ll x (y - 22) 8 = inr (lat', lng')
    /\ 30 < lat'
    /\ lat' - 30 <= 22.5 * (180 / (PI * index CFK 8 0)).
Proof.
  assert (Hz : (0 <= 8 <= 30)%Z) by lia.
  assert (Hlat : -90 <= 30 <= 90) by lra.
  assert (Hs : -0.9999 <= sin (30 * PI / 180) <= 0.9999).
  { replace (30 * PI / 180) with (PI / 6) by lra. rewrite sin_PI6. lra. }
  destruct (marker_center_is_north 30 (-35) 8 _ _ Hz Hlat Hs (ll2px_run 30 (-35) 8 Hz))
    as (lat' & lng' & H1 & H2 & H3).
  eexists _, _, lat', lng'. split; [apply ll2px_run; exact Hz |]. auto.
Defined.

(** ** Rows beyond the raster *)

Lemma exp_7 : exp 7 < 19999.
Proof.
  pose proof exp_le_3 as H3. pose proof (exp_pos 1) as Hp.
  replace 7 with (1 + (1 + (1 + (1 + (1 + (1 + 1)))))) by lra.
  rewrite !exp_plus.
  set (e := exp 1) in *. clearbody e.
  assert (H2 : e * e <= 9) by nra.
  assert (H4 : e * (e * (e * e)) <= 81) by nra.
  assert (H6 : e * (e * (e * (e * (e * e)))) <= 729) by nra.
  nra.
Qed.

Lemma ln_clamp : 3.5 < 0.5 * ln ((1 + 0.9999) / (1 - 0.9999)).
Proof.
  replace ((1 + 0.9999) / (1 - 0.9999)) with 19999 by lra.
  assert (H : 7 < ln 19999).
  { apply exp_lt_inv. rewrite exp_ln by lra. apply exp_7. }
  lra.
Qed.

Lemma top_row_at (zoom : Z) :
  (0 <= zoom <= 30)%Z ->
  IZR (index CBK zoom 0%Z) + 1 <= 3.5 * index CFK zoom 0.
Proof.
  intros Hz. unfold index.
  assert (Hn : (Z.to_nat zoom <= 30)%nat) by lia.
  revert Hn. generalize (Z.to_nat zoom) as n. intros n Hn.
  do 31 (destruct n as [| n]; [simpl; lra |]).
  lia.
Qed.

(** The clamp of [ll2px] does not keep the pixel row on the raster: for a
    latitude whose sine is 0.9999 or more (from about 89.19 degrees north to
    the pole), at every zoom from 0 to 30, the row that [ll2px] returns is
    negative, above the first row of the raster. *)
Theorem clamped_row_is_negative (lat lng : R) (zoom : Z) :
  (0 <= zoom <= 30)%Z ->
  0.9999 <= sin (lat * PI / 180) ->
  exists x y, ll2px lat lng zoom = inr (x, y) /\ (y < 0)%Z.
Proof.
  intros Hz Hs. destruct (tables_at zoom Hz) as [_ [Hcfk _]].
  pose proof (top_row_at zoom Hz) as Htop. pose proof ln_clamp as Hln.
  rewrite (ll2px_run _ _ _ Hz). eexists _, _. split; [reflexivity |].
  assert (Hcl : clamp (sin (lat * PI / 180)) = 0.9999).
  { unfold clamp. destruct (Rlt_dec _ _); [lra |]. destruct (Rlt_dec _ _); lra. }
  rewrite Hcl.
  set (a := IZR (index CBK zoom 0%Z)
            + 0.5 * ln ((1 + 0.9999) / (1 - 0.9999)) * - index CFK zoom 0).
  assert (Ha : a <= -1) by (unfold a; nra).
  pose proof (int_round_near a) as Hr. apply Rabs_le_bounds in Hr.
  assert (H : IZR (int_round a) < IZR 0) by (simpl; lra).
  now apply lt_IZR in H.
Qed.

Lemma clamped_row_is_negative_witness :
  exists x y, ll2px 90 0 8 = inr (x, y) /\ (y < 0)%Z.
Proof.
  apply (clamped_row_is_negative 90 0 8); [lia |].
  replace (90 * PI / 180) with (PI / 2) by lra. rewrite sin_PI2. lra.
Defined.

End Pixels.
